(** * RepLKNet configuration resolver: a shallow embedding of
      [image_classification/RepLKNet/config.py]

    The module declares a default configuration tree [_C], merges YAML
    files into a clone of it ([_update_config_from_file], with [BASE]
    chaining), and applies command-line options ([update_config]).

    The configuration object is a [yacs.config.CfgNode] (yacs 0.1.8); the
    operations of that class which the module calls ([defrost], [freeze],
    [clone], [merge_from_file], attribute assignment) are embedded from the
    library, next to the functions of the module itself, and so are the
    functions of [os.path] the module and yacs call.  [ast.literal_eval],
    which yacs applies to the strings of a merged document, and the file
    system are parameters.  The keys of a document are strings. *)

From Stdlib Require Import String Ascii List ZArith Bool Lia.
Import ListNotations.
Open Scope string_scope.
Open Scope Z_scope.

(** ** Python values *)

(** The values a configuration can hold.  A float is kept as the decimal
    literal [m * 10^e] it was written as; nothing here computes with floats.
    [VDict] is a plain Python [dict] (a YAML mapping as the loader returns
    it); [VCfg] is a [CfgNode], which carries its [__immutable__] flag.
    [VOther] is an object of any other type, by the name of the type: the
    [datetime.date] a YAML timestamp is loaded as, or the set, the bytes
    and the complex number [ast.literal_eval] can give.  A [CfgNode] takes
    no such value.  Where the module tests or iterates one (as the BASE of
    a document or an entry of it) it is taken for a timestamp: it is true
    and cannot be iterated. *)
Unset Elimination Schemes.
Inductive value : Type :=
| VNone
| VBool (b : bool)
| VInt (n : Z)
| VFloat (m e : Z)
| VStr (s : string)
| VList (xs : list value)
| VTuple (xs : list value)
| VDict (kvs : list (string * value))
| VCfg (frozen : bool) (kvs : list (string * value))
| VOther (py_type : string).
Set Elimination Schemes.

Definition dict := list (string * value).

(** Induction over values, with the hypothesis for the elements of a list
    and the values of a mapping. *)

Section ValueInduction.

Variable P : value -> Prop.
Hypothesis HNone : P VNone.
Hypothesis HBool : forall b, P (VBool b).
Hypothesis HInt : forall n, P (VInt n).
Hypothesis HFloat : forall m e, P (VFloat m e).
Hypothesis HStr : forall s, P (VStr s).
Hypothesis HList : forall xs, Forall P xs -> P (VList xs).
Hypothesis HTuple : forall xs, Forall P xs -> P (VTuple xs).
Hypothesis HDict : forall kvs, Forall (fun kv => P (snd kv)) kvs -> P (VDict kvs).
Hypothesis HCfg : forall fl kvs, Forall (fun kv => P (snd kv)) kvs -> P (VCfg fl kvs).
Hypothesis HOther : forall t, P (VOther t).

Fixpoint value_ind (v : value) : P v :=
  let elems :=
    fix elems (xs : list value) : Forall P xs :=
      match xs with
      | [] => Forall_nil _
      | x :: r => Forall_cons _ (value_ind x) (elems r)
      end in
  let entries :=
    fix entries (d : dict) : Forall (fun kv => P (snd kv)) d :=
      match d with
      | [] => Forall_nil _
      | kv :: r => Forall_cons _ (value_ind (snd kv)) (entries r)
      end in
  match v with
  | VNone => HNone
  | VBool b => HBool b
  | VInt n => HInt n
  | VFloat m e => HFloat m e
  | VStr s => HStr s
  | VList xs => HList xs (elems xs)
  | VTuple xs => HTuple xs (elems xs)
  | VDict kvs => HDict kvs (entries kvs)
  | VCfg fl kvs => HCfg fl kvs (entries kvs)
  | VOther t => HOther t
  end.

End ValueInduction.

(** A [CfgNode] seen from outside: the flag and the entries, in insertion
    order (the order [items()] iterates in). *)
Record CfgNode : Type := CN { immutable : bool; items : dict }.

Definition to_value (c : CfgNode) : value := VCfg (immutable c) (items c).

Inductive pytype : Type :=
| TNone | TBool | TInt | TFloat | TStr | TList | TTuple | TDict | TCfgNode
| TOther (name : string).

Definition type_of (v : value) : pytype :=
  match v with
  | VNone => TNone
  | VBool _ => TBool
  | VInt _ => TInt
  | VFloat _ _ => TFloat
  | VStr _ => TStr
  | VList _ => TList
  | VTuple _ => TTuple
  | VDict _ => TDict
  | VCfg _ _ => TCfgNode
  | VOther t => TOther t
  end.

Definition pytype_eqb (s t : pytype) : bool :=
  match s, t with
  | TNone, TNone | TBool, TBool | TInt, TInt | TFloat, TFloat
  | TStr, TStr | TList, TList | TTuple, TTuple | TDict, TDict
  | TCfgNode, TCfgNode => true
  | TOther s', TOther t' => (s' =? t')%string
  | _, _ => false
  end.

(** [bool(v)]: what an [if v:] tests. *)
Definition truthy (v : value) : bool :=
  match v with
  | VNone => false
  | VBool b => b
  | VInt n => negb (n =? 0)
  | VFloat m _ => negb (m =? 0)
  | VStr s => negb (s =? "")%string
  | VList xs | VTuple xs => negb (Nat.eqb (List.length xs) 0)
  | VDict kvs | VCfg _ kvs => negb (Nat.eqb (List.length kvs) 0)
  | VOther _ => true
  end.

(** What [for x in v] yields, or [None] where [v] is not iterable. *)
Fixpoint chars (s : string) : list value :=
  match s with
  | EmptyString => []
  | String c r => VStr (String c EmptyString) :: chars r
  end.

Definition iterate (v : value) : option (list value) :=
  match v with
  | VList xs | VTuple xs => Some xs
  | VStr s => Some (chars s)
  | VDict kvs | VCfg _ kvs => Some (map (fun kv => VStr (fst kv)) kvs)
  | _ => None
  end.

(** ** Dictionaries in insertion order *)

Fixpoint dict_get (k : string) (d : dict) : option value :=
  match d with
  | [] => None
  | (k', v) :: r => if (k' =? k)%string then Some v else dict_get k r
  end.

(** [d[k] = v]: an existing key keeps its place, a new one goes last. *)
Fixpoint dict_set (k : string) (v : value) (d : dict) : dict :=
  match d with
  | [] => [(k, v)]
  | (k', v') :: r =>
      if (k' =? k)%string then (k', v) :: r else (k', v') :: dict_set k v r
  end.

Definition keys (d : dict) : list string := map fst d.

Definition as_mapping (v : value) : option dict :=
  match v with
  | VDict kvs | VCfg _ kvs => Some kvs
  | _ => None
  end.

(** ** [os.path] on POSIX path names *)

Definition slash : ascii := "/"%char.

Fixpoint has_slash (s : string) : bool :=
  match s with
  | EmptyString => false
  | String c r => Ascii.eqb c slash || has_slash r
  end.

Fixpoint all_slashes (s : string) : bool :=
  match s with
  | EmptyString => true
  | String c r => Ascii.eqb c slash && all_slashes r
  end.

(** [p[:p.rfind('/') + 1]] *)
Fixpoint upto_last_slash (p : string) : string :=
  match p with
  | EmptyString => EmptyString
  | String c r =>
      if has_slash p then String c (upto_last_slash r) else EmptyString
  end.

(** [s.rstrip('/')] *)
Fixpoint rstrip_slash (s : string) : string :=
  match s with
  | EmptyString => EmptyString
  | String c r => if all_slashes s then EmptyString else String c (rstrip_slash r)
  end.

Definition os_path_dirname (p : string) : string :=
  let head := upto_last_slash p in
  if all_slashes head then head else rstrip_slash head.

Fixpoint ends_with_slash (s : string) : bool :=
  match s with
  | EmptyString => false
  | String c EmptyString => Ascii.eqb c slash
  | String _ r => ends_with_slash r
  end.

Definition os_path_join (a b : string) : string :=
  match b with
  | String c _ =>
      if Ascii.eqb c slash then b
      else if (a =? "")%string || ends_with_slash a then (a ++ b)%string
      else (a ++ "/" ++ b)%string
  | EmptyString =>
      if (a =? "")%string || ends_with_slash a then a else (a ++ "/")%string
  end.

(** [p[p.rfind('/') + 1:]] *)
Fixpoint after_last_slash (p : string) : string :=
  match p with
  | EmptyString => EmptyString
  | String c r =>
      if has_slash r then after_last_slash r
      else if Ascii.eqb c slash then r else p
  end.

Definition dot : ascii := "."%char.

Fixpoint has_dot (s : string) : bool :=
  match s with
  | EmptyString => false
  | String c r => Ascii.eqb c dot || has_dot r
  end.

(** [s.lstrip('.')] *)
Fixpoint lstrip_dots (s : string) : string :=
  match s with
  | EmptyString => EmptyString
  | String c r => if Ascii.eqb c dot then lstrip_dots r else s
  end.

(** [s[s.rfind('.'):]], and the empty string where [s] has no dot. *)
Fixpoint from_last_dot (s : string) : string :=
  match s with
  | EmptyString => EmptyString
  | String c r =>
      if has_dot r then from_last_dot r
      else if Ascii.eqb c dot then s else EmptyString
  end.

(** The extension [os.path.splitext(p)[1]]: what starts at the last dot of
    the last component, the dots that component begins with left aside. *)
Definition os_path_splitext (p : string) : string :=
  from_last_dot (lstrip_dots (after_last_slash p)).

(** ** Exceptions and outcomes *)

Inductive exn : Type :=
| KeyError (full_key : string)        (* "Non-existent config key" *)
| ValueError (full_key : string)      (* type mismatch on merge *)
| AttributeError (name : string)      (* missing attribute, or write to a frozen node *)
| AssertionError (name : string)      (* value of a type a CfgNode does not hold,
                                         or assignment to internal state *)
| TypeError
| IOError (path : string)
| ParseError (path : string)          (* yaml.YAMLError *)
| Exception (path : string)           (* "Attempt to load from an unsupported file type" *)
| SourceError (path : string)         (* importing the file as Python source *)
| LiteralError (text : string).       (* an exception of ast.literal_eval that is
                                         neither ValueError nor SyntaxError *)

Inductive outcome : Type :=
| Done
| Raise (e : exn).

(** The configuration is one object mutated in place; a call is modelled as
    the state of that object when the call ends together with how it ended,
    so that what an exception leaves behind stays visible. *)
Definition result : Type := (CfgNode * outcome)%type.

(** What reading a file gives: no file, a text that is not YAML, or the
    document [yaml.load] with the full loader returns (line 124).  The safe
    loader of [merge_from_file] returns the same document, unless it holds
    a value of a Python-specific tag: a tuple or an object.  So a tuple in
    a document stands for the tag [python/tuple], and any other object for a
    tag of YAML itself (a timestamp, a binary, a set); the tags [omap] and
    [pairs], which make a list of pairs with either loader, are left aside.
    A file that reads as YAML is taken not to be the source of a Python
    module that defines [cfg]: importing it raises. *)
Inductive file : Type :=
| NoFile
| Malformed
| Doc (d : value).

(** ** The [CfgNode] operations the module calls (yacs) *)

(** [_immutable(flag)]: sets the flag of the node and of every [CfgNode]
    among its values, recursively. *)
Fixpoint set_immutable (flag : bool) (v : value) : value :=
  match v with
  | VCfg _ kvs =>
      VCfg flag
        ((fix each (d : dict) : dict :=
            match d with
            | [] => []
            | (k, x) :: r => (k, set_immutable flag x) :: each r
            end) kvs)
  | _ => v
  end.

Definition set_immutable_items (flag : bool) (d : dict) : dict :=
  map (fun kv => (fst kv, set_immutable flag (snd kv))) d.

Definition freeze (c : CfgNode) : CfgNode :=
  CN true (set_immutable_items true (items c)).

Definition defrost (c : CfgNode) : CfgNode :=
  CN false (set_immutable_items false (items c)).

Definition is_frozen (c : CfgNode) : bool := immutable c.

(** Every node of the tree carries the flag [flag]. *)
Fixpoint all_immutable (flag : bool) (v : value) : bool :=
  match v with
  | VCfg fl kvs =>
      Bool.eqb fl flag &&
      (fix each (d : dict) : bool :=
         match d with
         | [] => true
         | (_, x) :: r => all_immutable flag x && each r
         end) kvs
  | _ => true
  end.

(** [_VALID_TYPES]: what a leaf of a [CfgNode] may be. *)
Definition valid_type (t : pytype) : bool :=
  match t with
  | TTuple | TList | TStr | TInt | TFloat | TBool | TNone => true
  | TDict | TCfgNode | TOther _ => false
  end.

(** [_check_and_coerce_cfg_value_type(replacement, original, key, full_key)] *)
Definition check_and_coerce (replacement original : value) (full_key : string)
  : value + exn :=
  let rt := type_of replacement in
  let ot := type_of original in
  if pytype_eqb rt ot then inl replacement
  else if (pytype_eqb rt TNone && valid_type ot)
          || (pytype_eqb ot TNone && valid_type rt) then inl replacement
  else
    match replacement, original with
    | VTuple xs, VList _ => inl (VList xs)
    | VList xs, VTuple _ => inl (VTuple xs)
    | _, _ => inr (ValueError full_key)
    end.

Definition full_key_of (key_list : list string) (k : string) : string :=
  String.concat "." (key_list ++ [k]).

(** The names of the internal state of a [CfgNode], kept in its
    [__dict__]. *)
Definition internal_names : list string :=
  ["__immutable__"; "__deprecated_keys__"; "__renamed_keys__"; "__new_allowed__"].

Definition internal (name : string) : bool :=
  existsb (String.eqb name) internal_names.

(** [__setattr__(name, value)] on a node. *)
Definition setattr (name : string) (v : value) (c : CfgNode) : result :=
  if is_frozen c then (c, Raise (AttributeError name))
  else if internal name then (c, Raise (AssertionError name))
  else if valid_type (type_of v) || pytype_eqb (type_of v) TCfgNode
  then (CN (immutable c) (dict_set name v (items c)), Done)
  else (c, Raise (AssertionError name)).

(** [config.<group>.<name> = v]: [__getattr__] of the group on the root, then
    [__setattr__] on what it returns. *)
Definition setattr_in (group name : string) (v : value) (c : CfgNode) : result :=
  match dict_get group (items c) with
  | None => (c, Raise (AttributeError group))
  | Some (VCfg fl kvs) =>
      let (g, r) := setattr name v (CN fl kvs) in
      (CN (immutable c) (dict_set group (to_value g) (items c)), r)
  | Some _ => (c, Raise (AttributeError name))
  end.

(** [config.<name>] *)
Definition getattr (name : string) (c : CfgNode) : value + exn :=
  match dict_get name (items c) with
  | Some v => inl v
  | None => inr (AttributeError name)
  end.

(** ** Sequencing statements that may raise *)

Definition step : Type := CfgNode -> result.

Definition seq (f g : step) : step :=
  fun c => match f c with
           | (c', Done) => g c'
           | (c', Raise e) => (c', Raise e)
           end.

Notation "f ;; g" := (seq f g) (at level 61, right associativity).

Definition skip : step := fun c => (c, Done).

(** [if cond: body] *)
Definition when (cond : bool) (body : step) : step :=
  if cond then body else skip.

(** ** The default tree, lines 23 to 110 *)

Definition _C : CfgNode :=
  CN false
    [ ("BASE", VList [VStr ""]);
      ("DATA", VCfg false
         [ ("BATCH_SIZE", VInt 64);
           ("BATCH_SIZE_EVAL", VNone);
           ("DATA_PATH", VStr "/dataset/imagenet/");
           ("DATASET", VStr "imagenet2012");
           ("IMAGE_SIZE", VInt 224);
           ("IMAGE_CHANNELS", VInt 3);
           ("CROP_PCT", VFloat 875 (-3));
           ("NUM_WORKERS", VInt 2);
           ("IMAGENET_MEAN", VList [VFloat 485 (-3); VFloat 456 (-3); VFloat 406 (-3)]);
           ("IMAGENET_STD", VList [VFloat 229 (-3); VFloat 224 (-3); VFloat 225 (-3)]) ]);
      ("MODEL", VCfg false
         [ ("TYPE", VStr "RepLKNet");
           ("NAME", VStr "replknet_31b");
           ("RESUME", VNone);
           ("PRETRAINED", VNone);
           ("NUM_CLASSES", VInt 1000);
           ("DROPPATH", VFloat 5 (-1));
           ("LARGE_KERNEL_SIZES", VList [VInt 31; VInt 28; VInt 27; VInt 13]);
           ("LAYERS", VList [VInt 2; VInt 2; VInt 18; VInt 2]);
           ("CHANNELS", VList [VInt 128; VInt 256; VInt 512; VInt 1024]);
           ("DW_RATIO", VFloat 10 (-1));
           ("FFN_RATIO", VFloat 40 (-1));
           ("SMALL_KERNEL", VInt 5);
           ("SMALL_KERNEL_MERGED", VBool false);
           ("NORM_INTER_FEATURES", VBool false);
           ("OUT_INDICES", VNone);
           ("SYNC_BN", VBool false) ]);
      ("TRAIN", VCfg false
         [ ("LAST_EPOCH", VInt 0);
           ("NUM_EPOCHS", VInt 300);
           ("WARMUP_EPOCHS", VInt 10);
           ("WEIGHT_DECAY", VFloat 5 (-2));
           ("BASE_LR", VFloat 4 (-3));
           ("WARMUP_START_LR", VFloat 1 (-6));
           ("END_LR", VFloat 1 (-6));
           ("GRAD_CLIP", VNone);
           ("ACCUM_ITER", VInt 1);
           ("LINEAR_SCALED_LR", VInt 256);
           ("OPTIMIZER", VCfg false
              [ ("NAME", VStr "AdamW");
                ("EPS", VFloat 1 (-8));
                ("BETAS", VTuple [VFloat 9 (-1); VFloat 999 (-3)]) ]);
           ("MODEL_EMA", VBool true);
           ("MODEL_EMA_DECAY", VFloat 9999 (-4));
           ("MODEL_EMA_FORCE_CPU", VBool false);
           ("SMOOTHING", VFloat 1 (-1));
           ("COLOR_JITTER", VFloat 4 (-1));
           ("AUTO_AUGMENT", VBool true);
           ("RAND_AUGMENT", VBool false);
           ("RAND_AUGMENT_LAYERS", VInt 2);
           ("RAND_AUGMENT_MAGNITUDE", VInt 9);
           ("MIXUP_ALPHA", VFloat 8 (-1));
           ("MIXUP_PROB", VFloat 10 (-1));
           ("MIXUP_SWITCH_PROB", VFloat 5 (-1));
           ("MIXUP_MODE", VStr "batch");
           ("CUTMIX_ALPHA", VFloat 10 (-1));
           ("CUTMIX_MINMAX", VNone);
           ("RANDOM_ERASE_PROB", VFloat 25 (-2));
           ("RANDOM_ERASE_MODE", VStr "pixel");
           ("RANDOM_ERASE_COUNT", VInt 1);
           ("RANDOM_ERASE_SPLIT", VBool false) ]);
      ("SAVE", VStr "./output");
      ("SAVE_FREQ", VInt 10);
      ("REPORT_FREQ", VInt 20);
      ("VALIDATE_FREQ", VInt 1);
      ("SEED", VInt 42);
      ("EVAL", VBool false);
      ("AMP", VBool false) ].

(** The options [update_config] reads from the parsed arguments.  An option
    that was not given is [VNone] (a flag that was not given may also be
    [VBool false]); [cfg] is a path name or absent. *)
Record Namespace : Type := Args {
  arg_cfg : option string;
  arg_dataset : value;
  arg_batch_size : value;
  arg_batch_size_eval : value;
  arg_image_size : value;
  arg_accum_iter : value;
  arg_data_path : value;
  arg_eval : value;
  arg_pretrained : value;
  arg_resume : value;
  arg_last_epoch : value;
  arg_amp : value
}.

(** [if path:] on an optional path name. *)
Definition truthy_path (p : option string) : bool :=
  match p with
  | Some s => negb (s =? "")%string
  | None => false
  end.

(** [clone()] is [copy.deepcopy]: on the tree of values it is the identity.
    What it does to the objects behind the tree is the subject of the
    module [Store] below. *)
Definition clone (c : CfgNode) : CfgNode := c.

(** The loop over the [BASE] entries (lines 125 to 129) as a function of the
    recursive call [rec], to state what one unfolding of
    [_update_config_from_file] does. *)
Fixpoint update_bases (rec : string -> CfgNode -> option result)
  (cfg_file : string) (entries : list value) (config : CfgNode)
  : option result :=
  match entries with
  | [] => Some (config, Done)
  | cfg :: rest =>
      if truthy cfg then
        match cfg with
        | VStr name =>
            match rec (os_path_join (os_path_dirname cfg_file) name) config with
            | None => None
            | Some (config', Done) => update_bases rec cfg_file rest config'
            | Some (config', Raise e) => Some (config', Raise e)
            end
        | _ => Some (config, Raise TypeError)
        end
      else update_bases rec cfg_file rest config
  end.


(** What [ast.literal_eval] makes of a text. *)
Inductive literal : Type :=
| Literal (v : value)   (* the Python literal the text denotes *)
| NotLiteral            (* it raises ValueError or SyntaxError *)
| Uncaught.             (* it raises another exception, as the TypeError
                           of the unhashable key in '{[1]: 2}' *)

(** [CfgNode(init_dict)], the node [load_cfg] makes of a loaded document:
    [_create_config_tree_from_dict] goes through the entries in their order,
    turns every mapping into a node and asserts that any other value has a
    valid type.  [invalid_leaf] is the assertion that fails first, if one
    does. *)
Fixpoint invalid_leaf (a : value) (key_list : list string) {struct a}
  : option exn :=
  match a with
  | VDict kvs | VCfg _ kvs =>
      (fix each (entries : dict) : option exn :=
         match entries with
         | [] => None
         | (k, v) :: rest =>
             match
               match v with
               | VDict _ | VCfg _ _ => invalid_leaf v (key_list ++ [k])
               | _ => if valid_type (type_of v) then None
                      else Some (AssertionError (full_key_of key_list k))
               end
             with
             | Some e => Some e
             | None => each rest
             end
         end) kvs
  | _ => None
  end.

(** The entries of that node.  An empty document gives an empty node, and
    a document that is not a mapping has no [items()]. *)
Definition cfg_node (d : value) : dict + exn :=
  match d with
  | VNone => inl []
  | VDict kvs | VCfg _ kvs =>
      match invalid_leaf d [] with
      | Some e => inr e
      | None => inl kvs
      end
  | _ => inr (AttributeError "items")
  end.

(** The documents [yaml.safe_load] returns: those without a tuple or an
    object, which only a Python-specific tag gives. *)
Fixpoint safe_yaml (v : value) : bool :=
  match v with
  | VTuple _ | VCfg _ _ => false
  | VList xs =>
      (fix each (xs : list value) : bool :=
         match xs with
         | [] => true
         | x :: r => safe_yaml x && each r
         end) xs
  | VDict kvs =>
      (fix each (d : dict) : bool :=
         match d with
         | [] => true
         | (_, x) :: r => safe_yaml x && each r
         end) kvs
  | _ => true
  end.

(** [_YAML_EXTS] and [_PY_EXTS] *)
Definition YAML_EXTS : list string := [""; ".yaml"; ".yml"].

Definition PY_EXTS : list string := [".py"].

Section Resolver.

(** [ast.literal_eval] on the text of a string value.  yacs passes every
    string value of a merged document through it. *)
Variable literal_eval : string -> literal.

(** The files the resolver can read, by path name. *)
Variable fs : string -> file.

(** [_decode_cfg_value]: a mapping becomes a node, a string is evaluated as
    a literal and kept as it is where that raises ValueError or SyntaxError,
    any other value is returned as it is. *)
Definition decode_cfg_value (v : value) : value + exn :=
  match v with
  | VStr s =>
      match literal_eval s with
      | NotLiteral | Literal (VCfg _ _) => inl v   (* no literal denotes a CfgNode *)
      | Literal lit => inl lit
      | Uncaught => inr (LiteralError s)
      end
  | _ => inl v
  end.

(** [_merge_a_into_b(a, b, root, key_list)].  [a] is traversed in the order
    of its entries and [b] is updated as the traversal goes, so the first
    entry that raises leaves the earlier ones applied.  The value of an
    entry is decoded first; then the key is looked up.  A node among the
    values of [a] is merged into the node [b] holds under that key (a value
    of another type there fails the type check); any other value is checked
    against the type of the value it replaces, and stored.  No node of [_C]
    allows new keys, and none registers deprecated or renamed keys.

    The recursion descends through the values of [a], so it is written on
    the mapping as a value, with the loop over its entries inside. *)
Fixpoint merge_mapping (a : value) (b : dict) (key_list : list string)
  {struct a} : dict * outcome :=
  match a with
  | VDict kvs | VCfg _ kvs =>
      (fix each (entries : dict) (b : dict) {struct entries} : dict * outcome :=
         match entries with
         | [] => (b, Done)
         | (k, v_) :: rest =>
             let full_key := full_key_of key_list k in
             match decode_cfg_value v_ with
             | inr e => (b, Raise e)
             | inl v =>
                 match dict_get k b with
                 | None => (b, Raise (KeyError full_key))
                 | Some original =>
                     match v_ with
                     | VDict _ | VCfg _ _ =>
                         match original with
                         | VCfg fl bsub =>
                             let (bsub', r) :=
                               merge_mapping v_ bsub (key_list ++ [k]) in
                             let b' := dict_set k (VCfg fl bsub') b in
                             match r with
                             | Done => each rest b'
                             | Raise e => (b', Raise e)
                             end
                         | _ => (b, Raise (ValueError full_key))
                         end
                     | _ =>
                         match check_and_coerce v original full_key with
                         | inl v' => each rest (dict_set k v' b)
                         | inr e => (b, Raise e)
                         end
                     end
                 end
             end
         end) kvs b
  | _ => (b, Done)
  end.

Definition merge_a_into_b (a : dict) (b : dict) (key_list : list string)
  : dict * outcome :=
  merge_mapping (VDict a) b key_list.

(** [load_cfg(f)] on the open file: by the extension of its name, the file
    is read with the safe loader of YAML or imported as Python source, and a
    node is made of what that gives. *)
Definition load_cfg (cfg_filename : string) : dict + exn :=
  let file_extension := os_path_splitext cfg_filename in
  if existsb (String.eqb file_extension) YAML_EXTS then
    match fs cfg_filename with
    | Doc d => if safe_yaml d then cfg_node d else inr (ParseError cfg_filename)
    | _ => inr (ParseError cfg_filename)
    end
  else if existsb (String.eqb file_extension) PY_EXTS then
    inr (SourceError cfg_filename)
  else inr (Exception cfg_filename).

(** [merge_from_file(cfg_filename)]: opens the file again, loads it and
    merges what it loaded into the node.  The merge stores with [b[k] = v],
    which the frozen flag does not guard. *)
Definition merge_from_file (cfg_filename : string) (c : CfgNode) : result :=
  match fs cfg_filename with
  | NoFile => (c, Raise (IOError cfg_filename))
  | _ =>
      match load_cfg cfg_filename with
      | inr e => (c, Raise e)
      | inl a =>
          let (b, r) := merge_a_into_b a (items c) [] in
          (CN (immutable c) b, r)
      end
  end.

(** [_update_config_from_file(config, cfg_file)], lines 113 to 131.  The
    recursion follows the [BASE] entries of the files and nothing bounds
    it in the source, so it takes fuel; [None] is the run that has not
    ended within the fuel.  An exception ends the call where it is raised:
    the [freeze()] of line 131 is not reached then. *)
Fixpoint _update_config_from_file (fuel : nat) (cfg_file : string)
  (config : CfgNode) {struct fuel} : option result :=
  match fuel with
  | O => None
  | S fuel' =>
      let config := defrost config in
      match fs cfg_file with
      | NoFile => Some (config, Raise (IOError cfg_file))
      | Malformed => Some (config, Raise (ParseError cfg_file))
      | Doc yaml_cfg =>
          match as_mapping yaml_cfg with
          | None => Some (config, Raise (AttributeError "setdefault"))
          | Some kvs =>
              let base :=
                match dict_get "BASE" kvs with
                | Some b => b
                | None => VList [VStr ""]
                end in
              match iterate base with
              | None => Some (config, Raise TypeError)
              | Some entries =>
                  let bases :=
                    (fix each (entries : list value) (config : CfgNode)
                       {struct entries} : option result :=
                       match entries with
                       | [] => Some (config, Done)
                       | cfg :: rest =>
                           if truthy cfg then
                             match cfg with
                             | VStr name =>
                                 match _update_config_from_file fuel'
                                         (os_path_join (os_path_dirname cfg_file) name)
                                         config with
                                 | None => None
                                 | Some (config', Done) => each rest config'
                                 | Some (config', Raise e) => Some (config', Raise e)
                                 end
                             | _ => Some (config, Raise TypeError)
                             end
                           else each rest config
                       end) entries config in
                  match bases with
                  | None => None
                  | Some (config', Raise e) => Some (config', Raise e)
                  | Some (config', Done) =>
                      match merge_from_file cfg_file config' with
                      | (config'', Done) => Some (freeze config'', Done)
                      | (config'', Raise e) => Some (config'', Raise e)
                      end
                  end
              end
          end
      end
  end.

(** Lines 144 to 167 of [update_config]: the options, in source order. *)
Definition set_amp : step :=
  fun c => match getattr "EVAL" c with
           | inl ev => setattr "AMP" (VBool (negb (truthy ev))) c
           | inr e => (c, Raise e)
           end.

Definition apply_args (args : Namespace) : step :=
  (fun c => (defrost c, Done)) ;;
  when (truthy (arg_dataset args))
    (setattr_in "DATA" "DATASET" (arg_dataset args)) ;;
  when (truthy (arg_batch_size args))
    (setattr_in "DATA" "BATCH_SIZE" (arg_batch_size args) ;;
     setattr_in "DATA" "BATCH_SIZE_EVAL" (arg_batch_size args)) ;;
  when (truthy (arg_batch_size_eval args))
    (setattr_in "DATA" "BATCH_SIZE_EVAL" (arg_batch_size_eval args)) ;;
  when (truthy (arg_image_size args))
    (setattr_in "DATA" "IMAGE_SIZE" (arg_image_size args)) ;;
  when (truthy (arg_accum_iter args))
    (setattr_in "TRAIN" "ACCUM_ITER" (arg_accum_iter args)) ;;
  when (truthy (arg_data_path args))
    (setattr_in "DATA" "DATA_PATH" (arg_data_path args)) ;;
  when (truthy (arg_eval args))
    (setattr "EVAL" (VBool true)) ;;
  when (truthy (arg_pretrained args))
    (setattr_in "MODEL" "PRETRAINED" (arg_pretrained args)) ;;
  when (truthy (arg_resume args))
    (setattr_in "MODEL" "RESUME" (arg_resume args)) ;;
  when (truthy (arg_last_epoch args))
    (setattr_in "TRAIN" "LAST_EPOCH" (arg_last_epoch args)) ;;
  when (truthy (arg_amp args)) set_amp.

(** [update_config(config, args)], lines 134 to 169. *)
Definition update_config (fuel : nat) (config : CfgNode) (args : Namespace)
  : option result :=
  let merged :=
    match arg_cfg args with
    | Some path =>
        if truthy_path (Some path)
        then _update_config_from_file fuel path config
        else Some (config, Done)
    | None => Some (config, Done)
    end in
  match merged with
  | None => None
  | Some (config', Raise e) => Some (config', Raise e)
  | Some (config', Done) => Some (apply_args args config')
  end.

(** [get_config(cfg_file=None)], lines 172 to 177. *)
Definition get_config (fuel : nat) (cfg_file : option string) : option result :=
  let config := clone _C in
  match cfg_file with
  | Some path =>
      if truthy_path (Some path)
      then _update_config_from_file fuel path config
      else Some (config, Done)
  | None => Some (config, Done)
  end.

End Resolver.

(** ** The schema of a configuration *)

(** The shape of a tree: its nodes and their keys, with every leaf erased.
    It is what a merge checks the keys of a document against. *)
Fixpoint shape (v : value) : value :=
  match v with
  | VCfg _ kvs =>
      VCfg false
        ((fix each (d : dict) : dict :=
            match d with
            | [] => []
            | (k, x) :: r => (k, shape x) :: each r
            end) kvs)
  | _ => VNone
  end.

Definition shape_items (d : dict) : dict :=
  map (fun kv => (fst kv, shape (snd kv))) d.




(** The value at a key path, through nodes and mappings. *)
Fixpoint lookup (path : list string) (d : dict) : option value :=
  match path with
  | [] => None
  | [k] => dict_get k d
  | k :: p =>
      match dict_get k d with
      | Some (VDict sub) | Some (VCfg _ sub) => lookup p sub
      | _ => None
      end
  end.

(** The keys of a mapping are distinct, at every level (as in any Python
    dictionary). *)
Fixpoint unique_keys (v : value) : Prop :=
  match v with
  | VDict kvs | VCfg _ kvs =>
      NoDup (keys kvs) /\
      (fix each (d : dict) : Prop :=
         match d with
         | [] => True
         | (_, x) :: r => unique_keys x /\ each r
         end) kvs
  | _ => True
  end.

Definition is_mapping (v : value) : bool :=
  match v with
  | VDict _ | VCfg _ _ => true
  | _ => false
  end.

(** The entries of [BASE] that [_update_config_from_file] iterates over
    (line 125), with the default of [setdefault]. *)
Definition base_entries (kvs : dict) : option (list value) :=
  iterate match dict_get "BASE" kvs with
          | Some b => b
          | None => VList [VStr ""]
          end.

(** A document that names no base file: every entry of [BASE] is falsy. *)
Definition no_bases (kvs : dict) : bool :=
  match base_entries kvs with
  | Some entries => forallb (fun e => negb (truthy e)) entries
  | None => false
  end.

Definition is_cfg (v : value) : bool :=
  match v with
  | VCfg _ _ => true
  | _ => false
  end.

(** The document [a] has an entry on the key path [path]: an entry for the
    path itself, or a leaf at a key the path goes through. *)
Fixpoint mentions (path : list string) (a : dict) {struct path} : bool :=
  match path with
  | [] => false
  | k :: p =>
      existsb (fun kv =>
                 (fst kv =? k)%string &&
                 match p with
                 | [] => true
                 | _ => match as_mapping (snd kv) with
                        | Some sub => mentions p sub
                        | None => true
                        end
                 end) a
  end.

(** What the type check lets through: the replacement itself, or a list for
    a tuple and a tuple for a list. *)
Definition coerced (replacement stored : value) : Prop :=
  stored = replacement \/
  (exists xs, replacement = VTuple xs /\ stored = VList xs) \/
  (exists xs, replacement = VList xs /\ stored = VTuple xs).

(** ** The order of merging, in the words of the specification *)

Section MergeOrder.

Variable literal_eval : string -> literal.
Variable fs : string -> file.

(** "For each non-empty entry in BASE, recursively apply mergeFromFile
    first (depth-first, left-to-right order)": the files of the entries,
    each with the files it is based on, from left to right. *)
Fixpoint order_bases (rec : string -> option (list string))
  (cfg_file : string) (entries : list value) : option (list string) :=
  match entries with
  | [] => Some []
  | cfg :: rest =>
      if truthy cfg then
        match cfg with
        | VStr name =>
            match rec (os_path_join (os_path_dirname cfg_file) name),
                  order_bases rec cfg_file rest with
            | Some first, Some others => Some (first ++ others)%list
            | _, _ => None
            end
        | _ => None
        end
      else order_bases rec cfg_file rest
  end.

(** "... and all bases are applied before the leaf file's own keys": the
    file itself comes last.  [None] where a file is missing or is not a
    mapping with an iterable [BASE] of names, or where the chain is deeper
    than the fuel. *)
Fixpoint spec_merge_order (fuel : nat) (cfg_file : string)
  : option (list string) :=
  match fuel with
  | O => None
  | S fuel' =>
      match fs cfg_file with
      | Doc d =>
          match as_mapping d with
          | Some kvs =>
              match base_entries kvs with
              | Some entries =>
                  match order_bases (spec_merge_order fuel') cfg_file entries with
                  | Some bases => Some (bases ++ [cfg_file])%list
                  | None => None
                  end
              | None => None
              end
          | None => None
          end
      | _ => None
      end
  end.

(** Merging the own keys of the files of a list, one file after the
    other, stopping at the first that raises. *)
Fixpoint merge_all (files : list string) : step :=
  match files with
  | [] => skip
  | f :: rest => merge_from_file literal_eval fs f ;; merge_all rest
  end.

End MergeOrder.

(** Two configurations are equal on every key when they differ at most in
    frozen flags; a step respects this when it neither reads nor writes the
    flags. *)
Definition same_keys (c d : CfgNode) : Prop := defrost c = defrost d.

Definition respects_keys (s : step) : Prop :=
  forall c d, same_keys c d ->
    snd (s c) = snd (s d) /\ same_keys (fst (s c)) (fst (s d)).

(** [run] does what the sequence [spec] does: it ends, the same way, with
    the same keys. *)
Definition follows (run : option result) (spec : result) : Prop :=
  exists c', run = Some (c', snd spec) /\ same_keys c' (fst spec).

(** ... and where it is done, the configuration is frozen throughout. *)
Definition follows_frozen (run : option result) (spec : result) : Prop :=
  exists c', run = Some (c', snd spec) /\ same_keys c' (fst spec) /\
             (snd spec = Done -> c' = freeze (fst spec)).

(** ** What the assignments of [update_config] do when none raises *)

(** A value [__setattr__] accepts.  *)
Definition storable (v : value) : bool :=
  valid_type (type_of v) || pytype_eqb (type_of v) TCfgNode.

(** [group] is a node of the configuration, and is not frozen. *)
Definition mutable_group (group : string) (c : CfgNode) : bool :=
  match dict_get group (items c) with
  | Some (VCfg false _) => true
  | _ => false
  end.

Definition is_group (group : string) (c : CfgNode) : bool :=
  match dict_get group (items c) with
  | Some (VCfg _ _) => true
  | _ => false
  end.

Definition has_key (name : string) (c : CfgNode) : bool :=
  match dict_get name (items c) with
  | Some _ => true
  | None => false
  end.

(** The configuration has the three groups [update_config] writes to, and
    the [EVAL] key it reads. *)
Definition has_groups (c : CfgNode) : bool :=
  is_group "DATA" c && is_group "MODEL" c && is_group "TRAIN" c &&
  has_key "EVAL" c.

(** The state in which every assignment of [update_config] goes through:
    nothing frozen on the way to a field. *)
Definition ready (c : CfgNode) : bool :=
  negb (immutable c) &&
  mutable_group "DATA" c && mutable_group "MODEL" c && mutable_group "TRAIN" c &&
  has_key "EVAL" c.

(** [config.<group>.<name> = v] done, under the condition [cond]. *)
Definition put_if (cond : bool) (group name : string) (v : value)
  (c : CfgNode) : CfgNode :=
  if cond then
    match dict_get group (items c) with
    | Some (VCfg fl kvs) =>
        CN (immutable c) (dict_set group (VCfg fl (dict_set name v kvs)) (items c))
    | _ => c
    end
  else c.

(** [config.<name> = v] done, under the condition [cond]. *)
Definition put_top_if (cond : bool) (name : string) (v : value)
  (c : CfgNode) : CfgNode :=
  if cond then CN (immutable c) (dict_set name v (items c)) else c.

(** The value [config.AMP = not config.EVAL] stores. *)
Definition not_eval (c : CfgNode) : value :=
  match dict_get "EVAL" (items c) with
  | Some ev => VBool (negb (truthy ev))
  | None => VNone
  end.

(** The options whose value [update_config] stores as it is. *)
Definition stored_options (args : Namespace) : list value :=
  [ arg_dataset args; arg_batch_size args; arg_batch_size_eval args;
    arg_image_size args; arg_accum_iter args; arg_data_path args;
    arg_pretrained args; arg_resume args; arg_last_epoch args ].

(** Every option that is given has a value a [CfgNode] can hold. *)
Definition args_storable (args : Namespace) : bool :=
  forallb (fun v => negb (truthy v) || storable v) (stored_options args).

(** Every group of a configuration is open to assignment. *)
Definition groups_mutable (c : CfgNode) : Prop :=
  forall g, is_group g c = true -> mutable_group g c = true.

(** No option is a configuration node: the options are what the argument
    parser made of the command line. *)
Definition options_are_leaves (args : Namespace) : bool :=
  forallb (fun v => negb (is_cfg v)) (stored_options args).

(** The state [update_config] returns when no assignment raises: the
    assignments of lines 145 to 167, in source order. *)
Definition args_applied (args : Namespace) (c : CfgNode) : CfgNode :=
  let c := defrost c in
  let c := put_if (truthy (arg_dataset args)) "DATA" "DATASET" (arg_dataset args) c in
  let c := put_if (truthy (arg_batch_size args)) "DATA" "BATCH_SIZE" (arg_batch_size args) c in
  let c := put_if (truthy (arg_batch_size args)) "DATA" "BATCH_SIZE_EVAL" (arg_batch_size args) c in
  let c := put_if (truthy (arg_batch_size_eval args)) "DATA" "BATCH_SIZE_EVAL" (arg_batch_size_eval args) c in
  let c := put_if (truthy (arg_image_size args)) "DATA" "IMAGE_SIZE" (arg_image_size args) c in
  let c := put_if (truthy (arg_accum_iter args)) "TRAIN" "ACCUM_ITER" (arg_accum_iter args) c in
  let c := put_if (truthy (arg_data_path args)) "DATA" "DATA_PATH" (arg_data_path args) c in
  let c := put_top_if (truthy (arg_eval args)) "EVAL" (VBool true) c in
  let c := put_if (truthy (arg_pretrained args)) "MODEL" "PRETRAINED" (arg_pretrained args) c in
  let c := put_if (truthy (arg_resume args)) "MODEL" "RESUME" (arg_resume args) c in
  let c := put_if (truthy (arg_last_epoch args)) "TRAIN" "LAST_EPOCH" (arg_last_epoch args) c in
  put_top_if (truthy (arg_amp args)) "AMP" (not_eval c) c.

Definition same_shape (c d : CfgNode) : Prop :=
  shape_items (items c) = shape_items (items d).

(** No file of the file system has an entry on the key path. *)
Definition never_mentions (fs : string -> file) (path : list string) : Prop :=
  forall f doc kvs,
    fs f = Doc doc -> as_mapping doc = Some kvs -> mentions path kvs = false.

(** ** Concrete inputs for the examples *)

Definition digit_of (c : ascii) : option Z :=
  let n := Z.of_nat (nat_of_ascii c) in
  if (48 <=? n) && (n <=? 57) then Some (n - 48) else None.

Fixpoint digits (s : string) (acc : Z) : option Z :=
  match s with
  | EmptyString => Some acc
  | String c r =>
      match digit_of c with
      | Some d => digits r (10 * acc + d)
      | None => None
      end
  end.

(** [ast.literal_eval] on the texts [None], [True], [False] and the unsigned
    decimal integers (without a leading zero); every other text counts as
    not a literal.  It stands for [literal_eval] in the examples, none of
    which holds a string it reads differently from Python. *)
Definition literal_eval_atoms (s : string) : literal :=
  if (s =? "None")%string then Literal VNone
  else if (s =? "True")%string then Literal (VBool true)
  else if (s =? "False")%string then Literal (VBool false)
  else
    match s with
    | EmptyString => NotLiteral
    | String c r =>
        if Ascii.eqb c "0"%char && negb (r =? "")%string then NotLiteral
        else match digits s 0 with
             | Some n => Literal (VInt n)
             | None => NotLiteral
             end
    end.

Definition a_yaml : value :=
  VDict [ ("DATA", VDict [("BATCH_SIZE", VInt 8); ("IMAGE_SIZE", VInt 384)]);
          ("SEED", VInt 1) ].

Definition b_yaml : value :=
  VDict [ ("BASE", VList [VStr "a.yaml"]);
          ("DATA", VDict [("BATCH_SIZE", VInt 16)]);
          ("TRAIN", VDict [("NUM_EPOCHS", VInt 100)]) ].

Definition c_yaml : value :=
  VDict [ ("BASE", VList [VStr "b.yaml"]);
          ("DATA", VDict [("BATCH_SIZE", VInt 32)]);
          ("MODEL", VDict [("NAME", VStr "replknet_31l")]) ].

(** A file with a key the defaults do not have, after one they have. *)
Definition bad_yaml : value :=
  VDict [ ("SEED", VInt 7); ("FOO", VInt 1) ].

(** A file based on a.yaml that starts with a key the defaults do not
    have. *)
Definition bad_child_yaml : value :=
  VDict [ ("FOO", VInt 1); ("BASE", VList [VStr "a.yaml"]) ].

Definition resume_yaml : value :=
  VDict [ ("TRAIN", VDict [("LAST_EPOCH", VInt 5)]) ].

(** A file with two bases, the second of which has a base of its own. *)
Definition d_yaml : value :=
  VDict [ ("BASE", VList [VStr "resume.yaml"; VStr "b.yaml"]);
          ("SEED", VInt 3) ].

(** A file with a key the defaults do not have inside a group, after keys
    they have. *)
Definition nested_yaml : value :=
  VDict [ ("SEED", VInt 7);
          ("DATA", VDict [("BATCH_SIZE", VInt 8); ("FOO", VInt 1)]) ].

(** A file with a key the defaults do not have and a date, which YAML reads
    from a text such as 2024-01-01. *)
Definition date_yaml : value :=
  VDict [ ("SEED", VInt 7); ("FOO", VInt 1); ("SAVE", VOther "datetime.date") ].

Definition example_fs (path : string) : file :=
  if (path =? "/cfgs/a.yaml")%string then Doc a_yaml
  else if (path =? "/cfgs/b.yaml")%string then Doc b_yaml
  else if (path =? "/cfgs/c.yaml")%string then Doc c_yaml
  else if (path =? "/cfgs/bad.yaml")%string then Doc bad_yaml
  else if (path =? "/cfgs/bad_child.yaml")%string then Doc bad_child_yaml
  else if (path =? "/cfgs/resume.yaml")%string then Doc resume_yaml
  else if (path =? "/cfgs/d.yaml")%string then Doc d_yaml
  else if (path =? "/cfgs/nested.yaml")%string then Doc nested_yaml
  else if (path =? "/cfgs/date.yaml")%string then Doc date_yaml
  else if (path =? "/cfgs/bad.txt")%string then Doc bad_yaml
  else NoFile.

(** The parsed arguments of a run that gives no option. *)
Definition no_args : Namespace :=
  Args None VNone VNone VNone VNone VNone VNone (VBool false) VNone VNone VNone
       (VBool false).

Definition with_batch_size (bs bse : value) : Namespace :=
  Args None VNone bs bse VNone VNone VNone (VBool false) VNone VNone VNone
       (VBool false).

Definition with_flags (ev amp : value) : Namespace :=
  Args None VNone VNone VNone VNone VNone VNone ev VNone VNone VNone amp.

(** [-cfg /cfgs/resume.yaml -last_epoch 0] *)
Definition resume_from_zero : Namespace :=
  Args (Some "/cfgs/resume.yaml") VNone VNone VNone VNone VNone VNone
       (VBool false) VNone VNone (VInt 0) (VBool false).

(** The configuration [get_config("/cfgs/a.yaml")] returns, and what
    [update_config] makes of it without options. *)
Definition a_merged : CfgNode :=
  match _update_config_from_file literal_eval_atoms example_fs 1
          "/cfgs/a.yaml" (clone _C) with
  | Some (c, _) => c
  | None => _C
  end.

Definition a_updated : CfgNode :=
  match update_config literal_eval_atoms example_fs 0 a_merged no_args with
  | Some (c, _) => c
  | None => _C
  end.

(** ** A configuration written out as a YAML document *)



Section ReadsBack.

Variable literal_eval : string -> literal.


End ReadsBack.




Section ReadsBackDecided.

Variable literal_eval : string -> literal.


End ReadsBackDecided.


(** ** The objects behind a configuration *)

(** [clone()] is [copy.deepcopy]: what it promises is about objects, not
    values, so the nodes and lists of a configuration are placed in a store.
    A reference is the address of a mutable object (a list, a dictionary, a
    [CfgNode]); numbers, strings and tuples are immutable and are kept by
    value. *)
Module Store.

Definition loc : Type := nat.

Unset Elimination Schemes.
Inductive rvalue : Type :=
| RNone
| RBool (b : bool)
| RInt (n : Z)
| RFloat (m e : Z)
| RStr (s : string)
| ROther (py_type : string)
| RTuple (xs : list rvalue)
| RRef (l : loc).
Set Elimination Schemes.

Inductive object : Type :=
| OList (xs : list rvalue)
| ODict (kvs : list (string * rvalue))
| OCfg (frozen : bool) (kvs : list (string * rvalue)).

(** The store: the object at address [l] is the [l]-th one; a new object
    goes to the end. *)
Definition heap : Type := list object.

(** ** Putting a tree of values into the store *)

(** The objects lines 23 to 110 create for the default tree: one per node
    and per list. *)
Fixpoint alloc (h : heap) (v : value) {struct v} : heap * rvalue :=
  let elems :=
    fix elems (h : heap) (xs : list value) {struct xs} : heap * list rvalue :=
      match xs with
      | [] => (h, [])
      | x :: r =>
          let (h1, x') := alloc h x in
          let (h2, r') := elems h1 r in
          (h2, x' :: r')
      end in
  let entries :=
    fix entries (h : heap) (d : dict) {struct d}
      : heap * list (string * rvalue) :=
      match d with
      | [] => (h, [])
      | (k, x) :: r =>
          let (h1, x') := alloc h x in
          let (h2, r') := entries h1 r in
          (h2, (k, x') :: r')
      end in
  match v with
  | VNone => (h, RNone)
  | VBool b => (h, RBool b)
  | VInt n => (h, RInt n)
  | VFloat m e => (h, RFloat m e)
  | VStr s => (h, RStr s)
  | VOther t => (h, ROther t)
  | VTuple xs => let (h', xs') := elems h xs in (h', RTuple xs')
  | VList xs =>
      let (h', xs') := elems h xs in ((h' ++ [OList xs'])%list, RRef (List.length h'))
  | VDict kvs =>
      let (h', kvs') := entries h kvs in
      ((h' ++ [ODict kvs'])%list, RRef (List.length h'))
  | VCfg fl kvs =>
      let (h', kvs') := entries h kvs in
      ((h' ++ [OCfg fl kvs'])%list, RRef (List.length h'))
  end.

(** ** Reading a value back *)

Fixpoint all_some {A B : Type} (f : A -> option B) (l : list A)
  : option (list B) :=
  match l with
  | [] => Some []
  | x :: r =>
      match f x, all_some f r with
      | Some y, Some ys => Some (y :: ys)
      | _, _ => None
      end
  end.

(** A list holds its elements, a dictionary its entries: [item] is the
    reference an element or an entry carries, [with_item] puts another
    reference in its place, and [holding] is the element or entry of the
    tree of values once that reference is read. *)
Record container (A B : Type) : Type := Container {
  item : A -> rvalue;
  with_item : A -> rvalue -> A;
  holding : A -> value -> B
}.

Arguments item {A B} _ _.
Arguments with_item {A B} _ _ _.
Arguments holding {A B} _ _ _.

Definition elems : container rvalue value :=
  Container _ _ (fun x => x) (fun _ x' => x') (fun _ y => y).

Definition entries : container (string * rvalue) (string * value) :=
  Container _ _ snd (fun kv x' => (fst kv, x')) (fun kv y => (fst kv, y)).

Definition read_items {A B : Type} (c : container A B)
  (f : rvalue -> option value) (l : list A) : option (list B) :=
  all_some (fun x => option_map (holding c x) (f (item c x))) l.

Definition reach_items {A B : Type} (c : container A B)
  (f : rvalue -> list loc) (l : list A) : list loc :=
  flat_map (fun x => f (item c x)) l.

(** The tree of values a reference stands for.  The store may hold cycles,
    so the reading takes fuel for the depth. *)
Fixpoint read (fuel : nat) (h : heap) (r : rvalue) : option value :=
  match fuel with
  | O => None
  | S n =>
      match r with
      | RNone => Some VNone
      | RBool b => Some (VBool b)
      | RInt i => Some (VInt i)
      | RFloat m e => Some (VFloat m e)
      | RStr s => Some (VStr s)
      | ROther t => Some (VOther t)
      | RTuple xs => option_map VTuple (read_items elems (read n h) xs)
      | RRef l =>
          match nth_error h l with
          | Some (OList xs) => option_map VList (read_items elems (read n h) xs)
          | Some (ODict kvs) =>
              option_map VDict (read_items entries (read n h) kvs)
          | Some (OCfg fl kvs) =>
              option_map (VCfg fl) (read_items entries (read n h) kvs)
          | None => None
          end
      end
  end.

(** The addresses a reading goes through: the objects a value is made of. *)
Fixpoint reach (fuel : nat) (h : heap) (r : rvalue) : list loc :=
  match fuel with
  | O => []
  | S n =>
      match r with
      | RTuple xs => reach_items elems (reach n h) xs
      | RRef l =>
          l :: match nth_error h l with
               | Some (OList xs) => reach_items elems (reach n h) xs
               | Some (ODict kvs) | Some (OCfg _ kvs) =>
                   reach_items entries (reach n h) kvs
               | None => []
               end
      | _ => []
      end
  end.

(** ** [copy.deepcopy] *)

(** The copies of the items of a container, taken in order; each copy may
    add objects to the store. *)
Fixpoint copy_items {A B : Type} (c : container A B)
  (copy : heap -> rvalue -> option (heap * rvalue))
  (h : heap) (l : list A) : option (heap * list A) :=
  match l with
  | [] => Some (h, [])
  | x :: r =>
      match copy h (item c x) with
      | Some (h1, x') =>
          match copy_items c copy h1 r with
          | Some (h2, r') => Some (h2, with_item c x x' :: r')
          | None => None
          end
      | None => None
      end
  end.

(** [deepcopy(r)]: an immutable value is returned as it is; a tuple is
    rebuilt from the copies of its elements; a list, a dictionary or a
    [CfgNode] (with its flag) becomes a new object that holds the copies of
    what the old one holds, taken in order.  The memo table of [deepcopy],
    which makes an object referenced twice be copied once, is left out: it
    does not change the values read from the copy. *)
Fixpoint deepcopy (fuel : nat) (h : heap) (r : rvalue) : option (heap * rvalue) :=
  match fuel with
  | O => None
  | S n =>
      match r with
      | RTuple xs =>
          match copy_items elems (fun h x => deepcopy n h x) h xs with
          | Some (h', xs') => Some (h', RTuple xs')
          | None => None
          end
      | RRef l =>
          match nth_error h l with
          | Some (OList xs) =>
              match copy_items elems (fun h x => deepcopy n h x) h xs with
              | Some (h', xs') =>
                  Some ((h' ++ [OList xs'])%list, RRef (List.length h'))
              | None => None
              end
          | Some (ODict kvs) =>
              match copy_items entries (fun h x => deepcopy n h x) h kvs with
              | Some (h', kvs') =>
                  Some ((h' ++ [ODict kvs'])%list, RRef (List.length h'))
              | None => None
              end
          | Some (OCfg fl kvs) =>
              match copy_items entries (fun h x => deepcopy n h x) h kvs with
              | Some (h', kvs') =>
                  Some ((h' ++ [OCfg fl kvs'])%list, RRef (List.length h'))
              | None => None
              end
          | None => None
          end
      | _ => Some (h, r)
      end
  end.

(** What a deep copy gives: the store grows, the copy reads as the
    original, and every object of the copy is a new one. *)
Definition copied (n : nat) (h : heap) (t : value) (h' : heap) (r' : rvalue)
  : Prop :=
  (exists ext, h' = (h ++ ext)%list) /\
  read n h' r' = Some t /\
  (forall l, In l (reach n h' r') -> (List.length h <= l)%nat).

(** [node.clone()] for the node at address [l]. *)
Definition clone_at (fuel : nat) (h : heap) (l : loc) : option (heap * rvalue) :=
  deepcopy fuel h (RRef l).

(** The store after the module is loaded, and the address of [_C] in it. *)
Definition static_store : heap := fst (alloc [] (to_value _C)).

Definition static_root : loc := (List.length static_store - 1)%nat.

(** [config = _C.clone()], line 174. *)
Definition load_defaults (fuel : nat) (h : heap) : option (heap * rvalue) :=
  clone_at fuel h static_root.

(** Replacing the object at an address: any mutation of that object. *)
Fixpoint write (h : heap) (l : loc) (o : object) : heap :=
  match h, l with
  | [], _ => []
  | _ :: r, O => o :: r
  | x :: r, S l' => x :: write r l' o
  end.

End Store.

(** ** The fields [update_config] writes *)

(** The options [update_config] stores as they are, each with the path of
    its field (lines 145 to 165). *)
Definition stored_fields (args : Namespace) : list (value * list string) :=
  [ (arg_dataset args, ["DATA"; "DATASET"]);
    (arg_batch_size args, ["DATA"; "BATCH_SIZE"]);
    (arg_batch_size_eval args, ["DATA"; "BATCH_SIZE_EVAL"]);
    (arg_image_size args, ["DATA"; "IMAGE_SIZE"]);
    (arg_accum_iter args, ["TRAIN"; "ACCUM_ITER"]);
    (arg_data_path args, ["DATA"; "DATA_PATH"]);
    (arg_pretrained args, ["MODEL"; "PRETRAINED"]);
    (arg_resume args, ["MODEL"; "RESUME"]);
    (arg_last_epoch args, ["TRAIN"; "LAST_EPOCH"]) ].

(** The fields of the groups that [update_config] assigns to. *)
Definition written_fields : list (string * string) :=
  [ ("DATA", "DATASET"); ("DATA", "BATCH_SIZE"); ("DATA", "BATCH_SIZE_EVAL");
    ("DATA", "IMAGE_SIZE"); ("TRAIN", "ACCUM_ITER"); ("DATA", "DATA_PATH");
    ("MODEL", "PRETRAINED"); ("MODEL", "RESUME"); ("TRAIN", "LAST_EPOCH") ].

Definition written_field (group name : string) : bool :=
  existsb (fun f => (fst f =? group)%string && (snd f =? name)%string)
    written_fields.

(** No option is given: every one is falsy. *)
Definition no_option (args : Namespace) : bool :=
  forallb (fun v => negb (truthy v))
    (arg_eval args :: arg_amp args :: stored_options args).

(** [-cfg /cfgs/a.yaml -batch_size 32] *)
Definition a_with_batch_size : Namespace :=
  Args (Some "/cfgs/a.yaml") VNone (VInt 32) VNone VNone VNone VNone
       (VBool false) VNone VNone VNone (VBool false).

(** What [update_config] returns for [-cfg /cfgs/resume.yaml -last_epoch 0]
    on the defaults. *)
Definition resumed : CfgNode :=
  match update_config literal_eval_atoms example_fs 1 (clone _C)
          resume_from_zero with
  | Some (c, _) => c
  | None => _C
  end.

(** Files with a BASE that cannot be merged: a base that does not exist, the
    file itself, a string in place of the list, and nothing at all. *)
Definition orphan_yaml : value :=
  VDict [ ("BASE", VList [VStr ""; VStr "gone.yaml"]); ("SEED", VInt 7) ].

Definition loop_yaml : value :=
  VDict [ ("BASE", VList [VStr "loop.yaml"]); ("SEED", VInt 7) ].

Definition string_base_yaml : value :=
  VDict [ ("BASE", VStr "a.yaml"); ("SEED", VInt 7) ].

Definition null_base_yaml : value :=
  VDict [ ("BASE", VNone); ("SEED", VInt 7) ].

Definition broken_fs (path : string) : file :=
  if (path =? "/cfgs/a.yaml")%string then Doc a_yaml
  else if (path =? "/cfgs/orphan.yaml")%string then Doc orphan_yaml
  else if (path =? "/cfgs/loop.yaml")%string then Doc loop_yaml
  else if (path =? "/cfgs/string_base.yaml")%string then Doc string_base_yaml
  else if (path =? "/cfgs/null_base.yaml")%string then Doc null_base_yaml
  else NoFile.

(** What the failing file [bad_child.yaml], based on [a.yaml], leaves of the
    defaults. *)
Definition bad_child_left : CfgNode :=
  match _update_config_from_file literal_eval_atoms example_fs 2
          "/cfgs/bad_child.yaml" _C with
  | Some (c, _) => c
  | None => _C
  end.

Definition c_merged : CfgNode :=
  match _update_config_from_file literal_eval_atoms example_fs 3
          "/cfgs/c.yaml" _C with
  | Some (c, _) => c
  | None => _C
  end.

(** [-cfg /cfgs/bad.yaml -batch_size 32] *)
Definition bad_with_batch_size : Namespace :=
  Args (Some "/cfgs/bad.yaml") VNone (VInt 32) VNone VNone VNone VNone
       (VBool false) VNone VNone VNone (VBool false).

Definition bad_left : CfgNode :=
  match _update_config_from_file literal_eval_atoms example_fs 1
          "/cfgs/bad.yaml" _C with
  | Some (c, _) => c
  | None => _C
  end.

(** A file based on a.yaml that holds a date: yacs does not load it. *)
Definition date_child_yaml : value :=
  VDict [ ("BASE", VList [VStr "a.yaml"]); ("SAVE", VOther "datetime.date") ].

Definition dated_fs (path : string) : file :=
  if (path =? "/cfgs/date_child.yaml")%string then Doc date_child_yaml
  else example_fs path.

(** [-cfg path] *)
Definition with_cfg (path : string) : Namespace :=
  Args (Some path) VNone VNone VNone VNone VNone VNone (VBool false) VNone VNone
       VNone (VBool false).

(** ** The types of the leaves *)






(** * Properties *)

(** ** Induction over documents *)

(** Induction on a document: entry by entry, with the hypothesis also for
    the mapping an entry holds. *)
Lemma dict_nested_ind (P : dict -> Prop) :
  P [] ->
  (forall k v rest,
      (forall sub, as_mapping v = Some sub -> P sub) -> P rest ->
      P ((k, v) :: rest)) ->
  forall d, P d.
Proof.
  intros Hnil Hcons.
  assert (H : forall v, forall sub, as_mapping v = Some sub -> P sub).
  { induction v using value_ind; intros sub Hsub; try discriminate Hsub.
    - injection Hsub as <-. induction H as [| [k x] r Hx Hr IH]; auto.
    - injection Hsub as <-. induction H as [| [k x] r Hx Hr IH]; auto. }
  intros d. apply (H (VDict d)). reflexivity.
Qed.

(** ** Dictionaries *)

Lemma dict_get_set_same k v d : dict_get k (dict_set k v d) = Some v.
Proof.
  induction d as [| [k' v'] r IH]; simpl.
  - now rewrite String.eqb_refl.
  - destruct (k' =? k)%string eqn:E; simpl; rewrite E; auto.
Qed.

Lemma dict_get_set_other k k' v d :
  k <> k' -> dict_get k' (dict_set k v d) = dict_get k' d.
Proof.
  intros Hne. induction d as [| [k0 v0] r IH]; simpl.
  - destruct (k =? k')%string eqn:E; auto.
    apply String.eqb_eq in E. contradiction.
  - destruct (k0 =? k)%string eqn:E; simpl.
    + apply String.eqb_eq in E. subst k0.
      destruct (k =? k')%string eqn:E'; auto.
      apply String.eqb_eq in E'. contradiction.
    + now rewrite IH.
Qed.

Lemma dict_get_set k k' v d :
  dict_get k' (dict_set k v d) =
  if (k =? k')%string then Some v else dict_get k' d.
Proof.
  destruct (k =? k')%string eqn:E.
  - apply String.eqb_eq in E. subst. apply dict_get_set_same.
  - apply String.eqb_neq in E. now apply dict_get_set_other.
Qed.

Lemma dict_set_unchanged k v d : dict_get k d = Some v -> dict_set k v d = d.
Proof.
  induction d as [| [k' v'] r IH]; simpl; [discriminate |].
  destruct (k' =? k)%string eqn:E.
  - now intros [= ->].
  - intros H. now rewrite IH.
Qed.

Lemma keys_dict_set k v d :
  dict_get k d <> None -> keys (dict_set k v d) = keys d.
Proof.
  unfold keys. induction d as [| [k' v'] r IH]; simpl; [congruence |].
  destruct (k' =? k)%string eqn:E; simpl; auto.
  intros H. now rewrite IH.
Qed.

Lemma dict_get_in k v d : dict_get k d = Some v -> In (k, v) d.
Proof.
  induction d as [| [k' v'] r IH]; simpl; [discriminate |].
  destruct (k' =? k)%string eqn:E.
  - apply String.eqb_eq in E. subst. intros [= ->]. now left.
  - auto.
Qed.

Lemma dict_get_none k d : dict_get k d = None <-> ~ In k (keys d).
Proof.
  unfold keys. induction d as [| [k' v'] r IH]; simpl.
  - tauto.
  - destruct (k' =? k)%string eqn:E.
    + apply String.eqb_eq in E. subst. split; [discriminate | tauto].
    + apply String.eqb_neq in E. rewrite IH. tauto.
Qed.

Lemma dict_get_first k v d :
  NoDup (keys d) -> In (k, v) d -> dict_get k d = Some v.
Proof.
  unfold keys. induction d as [| [k' v'] r IH]; simpl; [tauto |].
  intros Hnd [Heq | Hin].
  - injection Heq as -> ->. now rewrite String.eqb_refl.
  - inversion Hnd as [| ? ? Hnotin Hnd']; subst.
    destruct (k' =? k)%string eqn:E; auto.
    apply String.eqb_eq in E. subst k'.
    exfalso. apply Hnotin. change k with (fst (k, v)). now apply in_map.
Qed.

(** ** Loading a document *)

Lemma cfg_node_cases d a :
  cfg_node d = inl a -> as_mapping d = Some a \/ a = [].
Proof.
  unfold cfg_node. destruct d; try discriminate.
  - intros [= <-]. now right.
  - destruct (invalid_leaf _ _) as [e |]; [discriminate |].
    intros [= <-]. now left.
  - destruct (invalid_leaf _ _) as [e |]; [discriminate |].
    intros [= <-]. now left.
Qed.

Lemma cfg_node_mapping d kvs a :
  as_mapping d = Some kvs -> cfg_node d = inl a -> a = kvs.
Proof.
  unfold cfg_node. destruct d; try discriminate; intros [= <-];
    destruct (invalid_leaf _ _) as [e |]; try discriminate; now intros [= <-].
Qed.

Section DecodeFacts.

Variable literal_eval : string -> literal.

Local Notation "'decode'" := (decode_cfg_value literal_eval).

Lemma decode_not_cfg v d : is_cfg v = false -> decode v = inl d -> is_cfg d = false.
Proof.
  destruct v; simpl; try (intros H [= <-]; exact H).
  intros _. destruct (literal_eval s) as [[] | |]; try discriminate;
    now intros [= <-].
Qed.

Lemma decode_leaf v d : as_mapping v = None -> decode v = inl d -> is_cfg d = false.
Proof. intros H. apply decode_not_cfg. destruct v; auto; discriminate. Qed.

End DecodeFacts.

(** ** The merge, entry by entry *)

Section MergeFacts.

Variable literal_eval : string -> literal.

Local Notation "'merge'" := (merge_a_into_b literal_eval).
Local Notation "'decode'" := (decode_cfg_value literal_eval).

Lemma merge_nil b kl : merge [] b kl = (b, Done).
Proof. reflexivity. Qed.

(** The loop body of [_merge_a_into_b], for the first entry of [a]. *)
Lemma merge_cons k v_ rest b kl :
  merge ((k, v_) :: rest) b kl =
  match decode v_ with
  | inr e => (b, Raise e)
  | inl v =>
      match dict_get k b with
      | None => (b, Raise (KeyError (full_key_of kl k)))
      | Some original =>
          match as_mapping v_ with
          | Some sub =>
              match original with
              | VCfg fl bsub =>
                  let (bsub', r) := merge sub bsub (kl ++ [k]) in
                  match r with
                  | Done => merge rest (dict_set k (VCfg fl bsub') b) kl
                  | Raise e => (dict_set k (VCfg fl bsub') b, Raise e)
                  end
              | _ => (b, Raise (ValueError (full_key_of kl k)))
              end
          | None =>
              match check_and_coerce v original (full_key_of kl k) with
              | inl v' => merge rest (dict_set k v' b) kl
              | inr e => (b, Raise e)
              end
          end
      end
  end.
Proof.
  unfold merge_a_into_b. cbn [merge_mapping].
  destruct (decode v_) as [v | e]; [| reflexivity].
  destruct (dict_get k b) as [original |]; [| reflexivity].
  destruct v_; try reflexivity.
Qed.


End MergeFacts.

(** ** Mapping a function over the values of a dictionary *)

Section MapValues.

Variable f : value -> value.

Local Notation "'mapv'" := (map (fun kv : string * value => (fst kv, f (snd kv)))).

Lemma dict_get_mapv k d : dict_get k (mapv d) = option_map f (dict_get k d).
Proof.
  induction d as [| [k' v'] r IH]; simpl; auto.
  destruct (k' =? k)%string; auto.
Qed.

Lemma dict_set_mapv k v d : dict_set k (f v) (mapv d) = mapv (dict_set k v d).
Proof.
  induction d as [| [k' v'] r IH]; simpl; auto.
  destruct (k' =? k)%string; simpl; auto. now rewrite IH.
Qed.

Lemma keys_mapv d : keys (mapv d) = keys d.
Proof. unfold keys. rewrite map_map. reflexivity. Qed.

End MapValues.

(** ** The frozen flag *)

Lemma set_immutable_cfg flag fl kvs :
  set_immutable flag (VCfg fl kvs) = VCfg flag (set_immutable_items flag kvs).
Proof.
  simpl. f_equal. induction kvs as [| [k x] r IH]; simpl; auto. now rewrite IH.
Qed.

Lemma set_immutable_leaf flag v : is_cfg v = false -> set_immutable flag v = v.
Proof. destruct v; simpl; auto; discriminate. Qed.

Lemma type_of_set_immutable flag v : type_of (set_immutable flag v) = type_of v.
Proof. destruct v; reflexivity. Qed.

Lemma set_immutable_idem f1 f2 v :
  set_immutable f1 (set_immutable f2 v) = set_immutable f1 v.
Proof.
  induction v using value_ind; try reflexivity.
  rewrite !set_immutable_cfg. f_equal.
  unfold set_immutable_items. rewrite map_map. simpl.
  induction H as [| [k x] r Hx Hr IH]; simpl; auto.
  simpl in Hx. now rewrite Hx, IH.
Qed.

Lemma set_immutable_items_idem f1 f2 d :
  set_immutable_items f1 (set_immutable_items f2 d) = set_immutable_items f1 d.
Proof.
  unfold set_immutable_items. rewrite map_map. simpl.
  induction d as [| [k x] r IH]; simpl; auto.
  now rewrite set_immutable_idem, IH.
Qed.

Lemma all_immutable_cfg flag fl kvs :
  all_immutable flag (VCfg fl kvs) =
  Bool.eqb fl flag && forallb (fun kv => all_immutable flag (snd kv)) kvs.
Proof.
  simpl. f_equal. induction kvs as [| [k x] r IH]; simpl; auto. now rewrite IH.
Qed.

Lemma all_immutable_set flag v : all_immutable flag (set_immutable flag v) = true.
Proof.
  induction v using value_ind; try reflexivity.
  rewrite set_immutable_cfg, all_immutable_cfg.
  rewrite Bool.eqb_reflx. simpl.
  unfold set_immutable_items. rewrite forallb_forall. intros kv Hin.
  apply in_map_iff in Hin. destruct Hin as [[k x] [<- Hin]]. simpl.
  rewrite Forall_forall in H. apply (H (k, x) Hin).
Qed.

Lemma freeze_all_immutable c : all_immutable true (to_value (freeze c)) = true.
Proof.
  unfold to_value, freeze. simpl immutable. simpl items.
  rewrite <- (set_immutable_cfg true (immutable c)). apply all_immutable_set.
Qed.

Lemma defrost_all_mutable c : all_immutable false (to_value (defrost c)) = true.
Proof.
  unfold to_value, defrost. simpl immutable. simpl items.
  rewrite <- (set_immutable_cfg false (immutable c)). apply all_immutable_set.
Qed.

Lemma defrost_idem c : defrost (defrost c) = defrost c.
Proof. unfold defrost. simpl. now rewrite set_immutable_items_idem. Qed.

Lemma defrost_freeze c : defrost (freeze c) = defrost c.
Proof. unfold defrost, freeze. simpl. now rewrite set_immutable_items_idem. Qed.

Lemma freeze_defrost c : freeze (defrost c) = freeze c.
Proof. unfold defrost, freeze. simpl. now rewrite set_immutable_items_idem. Qed.

Lemma set_immutable_items_get flag k d :
  dict_get k (set_immutable_items flag d) =
  option_map (set_immutable flag) (dict_get k d).
Proof. apply (dict_get_mapv (set_immutable flag)). Qed.

Lemma set_immutable_items_set flag k v d :
  set_immutable_items flag (dict_set k v d) =
  dict_set k (set_immutable flag v) (set_immutable_items flag d).
Proof. symmetry. apply (dict_set_mapv (set_immutable flag)). Qed.

(** ** The shape *)

Lemma shape_cfg fl kvs : shape (VCfg fl kvs) = VCfg false (shape_items kvs).
Proof.
  simpl. f_equal. induction kvs as [| [k x] r IH]; simpl; auto. now rewrite IH.
Qed.

Lemma shape_leaf v : is_cfg v = false -> shape v = VNone.
Proof. destruct v; simpl; auto; discriminate. Qed.

Lemma shape_set_immutable flag v : shape (set_immutable flag v) = shape v.
Proof.
  induction v using value_ind; try reflexivity.
  rewrite set_immutable_cfg, !shape_cfg. f_equal.
  unfold shape_items, set_immutable_items. rewrite map_map. simpl.
  induction H as [| [k x] r Hx Hr IH]; simpl; auto.
  simpl in Hx. now rewrite Hx, IH.
Qed.

Lemma shape_items_set_immutable flag d :
  shape_items (set_immutable_items flag d) = shape_items d.
Proof.
  unfold shape_items, set_immutable_items. rewrite map_map. simpl.
  induction d as [| [k x] r IH]; simpl; auto.
  now rewrite shape_set_immutable, IH.
Qed.

Lemma shape_items_dict_set k v original d :
  dict_get k d = Some original -> shape v = shape original ->
  shape_items (dict_set k v d) = shape_items d.
Proof.
  intros Hget Hsh. unfold shape_items.
  rewrite <- (dict_set_mapv shape). apply dict_set_unchanged.
  rewrite (dict_get_mapv shape), Hget. simpl. now rewrite Hsh.
Qed.

(** ** Type check and decoding *)

Lemma check_and_coerce_leaf v original fk v' :
  check_and_coerce v original fk = inl v' -> is_cfg v = false ->
  is_cfg v' = false /\ is_cfg original = false.
Proof.
  destruct v, original; simpl; intros H Hv; try discriminate;
    try (injection H as <-; auto; fail).
  unfold check_and_coerce in H. simpl in H.
  destruct (_ =? _)%string; [injection H as <-; auto | discriminate].
Qed.

Lemma check_and_coerce_set_immutable flag v original fk :
  check_and_coerce v (set_immutable flag original) fk =
  check_and_coerce v original fk.
Proof. destruct original; destruct v; reflexivity. Qed.

Lemma check_and_coerce_shape v original original' fk :
  is_cfg original = false -> is_cfg original' = false ->
  type_of original = type_of original' ->
  check_and_coerce v original fk = check_and_coerce v original' fk.
Proof.
  destruct original, original'; simpl; try discriminate; intros _ _ Ht;
    try (destruct v; reflexivity).
  injection Ht as ->. reflexivity.
Qed.

Lemma as_mapping_is_mapping v : as_mapping v = None <-> is_mapping v = false.
Proof. destruct v; simpl; split; congruence. Qed.

(** ** What a merge leaves alone *)

Section MergeInvariants.

Variable literal_eval : string -> literal.

Local Notation "'merge'" := (merge_a_into_b literal_eval).
Local Notation "'decode'" := (decode_cfg_value literal_eval).

(** A merge neither reads nor writes the frozen flags. *)
Lemma merge_set_immutable flag a : forall b kl,
  merge a (set_immutable_items flag b) kl =
  (set_immutable_items flag (fst (merge a b kl)), snd (merge a b kl)).
Proof.
  induction a as [| k v_ rest IHsub IHrest] using dict_nested_ind; intros b kl.
  - reflexivity.
  - rewrite !merge_cons, set_immutable_items_get.
    destruct (decode v_) as [d | e] eqn:Hdec; [| reflexivity].
    destruct (dict_get k b) as [original |]; simpl option_map; cbv iota;
      [| reflexivity].
    destruct (as_mapping v_) as [sub |] eqn:Hmap.
    + destruct original; try reflexivity.
      rewrite set_immutable_cfg, (IHsub sub eq_refl).
      destruct (merge sub kvs (kl ++ [k])) as [bsub' r]. simpl fst. simpl snd.
      replace (dict_set k (VCfg flag (set_immutable_items flag bsub'))
                 (set_immutable_items flag b))
        with (set_immutable_items flag (dict_set k (VCfg frozen bsub') b))
        by (now rewrite set_immutable_items_set, set_immutable_cfg).
      destruct r; [apply IHrest | reflexivity].
    + rewrite check_and_coerce_set_immutable.
      destruct (check_and_coerce d original (full_key_of kl k))
        as [v | e] eqn:Hc; [| reflexivity].
      destruct (check_and_coerce_leaf _ _ _ _ Hc
                  (decode_leaf literal_eval _ _ Hmap Hdec)) as [Hv _].
      replace (dict_set k v (set_immutable_items flag b))
        with (set_immutable_items flag (dict_set k v b))
        by (now rewrite set_immutable_items_set, (set_immutable_leaf flag v Hv)).
      apply IHrest.
Qed.

(** A merge keeps the shape of the tree it writes to, also when it raises. *)
Lemma merge_shape a : forall b kl,
  shape_items (fst (merge a b kl)) = shape_items b.
Proof.
  induction a as [| k v_ rest IHsub IHrest] using dict_nested_ind; intros b kl.
  - reflexivity.
  - rewrite merge_cons.
    destruct (decode v_) as [d | e] eqn:Hdec; [| reflexivity].
    destruct (dict_get k b) as [original |] eqn:Hget; [| reflexivity].
    destruct (as_mapping v_) as [sub |] eqn:Hmap.
    + destruct original; try reflexivity.
      specialize (IHsub sub eq_refl kvs (kl ++ [k])%list).
      destruct (merge sub kvs (kl ++ [k])) as [bsub' r]. simpl fst in IHsub.
      assert (E : shape_items (dict_set k (VCfg frozen bsub') b) = shape_items b).
      { apply (shape_items_dict_set _ _ _ _ Hget).
        now rewrite !shape_cfg, IHsub. }
      destruct r; [now rewrite IHrest | exact E].
    + destruct (check_and_coerce d original (full_key_of kl k))
        as [v | e] eqn:Hc; [| reflexivity].
      destruct (check_and_coerce_leaf _ _ _ _ Hc
                  (decode_leaf literal_eval _ _ Hmap Hdec)) as [Hv Ho].
      rewrite IHrest. apply (shape_items_dict_set _ _ _ _ Hget).
      now rewrite !shape_leaf.
Qed.

End MergeInvariants.

(** ** Key paths a tree does not have *)


Lemma shape_items_get k b b' :
  shape_items b = shape_items b' ->
  option_map shape (dict_get k b) = option_map shape (dict_get k b').
Proof.
  intros H. unfold shape_items in H.
  rewrite <- !(dict_get_mapv shape). now rewrite H.
Qed.


Section MergeRaises.

Variable literal_eval : string -> literal.

Local Notation "'merge'" := (merge_a_into_b literal_eval).




End MergeRaises.

(** ** One unfolding of [_update_config_from_file] *)

Section UpdateFromFile.

Variable literal_eval : string -> literal.
Variable fs : string -> file.

Local Notation "'update'" := (_update_config_from_file literal_eval fs).
Local Notation "'merge_file'" := (merge_from_file literal_eval fs).

Lemma update_unfold fuel cfg_file config :
  update (S fuel) cfg_file config =
  match fs cfg_file with
  | NoFile => Some (defrost config, Raise (IOError cfg_file))
  | Malformed => Some (defrost config, Raise (ParseError cfg_file))
  | Doc yaml_cfg =>
      match as_mapping yaml_cfg with
      | None => Some (defrost config, Raise (AttributeError "setdefault"))
      | Some kvs =>
          match base_entries kvs with
          | None => Some (defrost config, Raise TypeError)
          | Some entries =>
              match update_bases (update fuel) cfg_file entries
                      (defrost config) with
              | None => None
              | Some (config', Raise e) => Some (config', Raise e)
              | Some (config', Done) =>
                  match merge_file cfg_file config' with
                  | (config'', Done) => Some (freeze config'', Done)
                  | (config'', Raise e) => Some (config'', Raise e)
                  end
              end
          end
      end
  end.
Proof.
  simpl. destruct (fs cfg_file) as [| | yaml_cfg]; try reflexivity.
  destruct (as_mapping yaml_cfg) as [kvs |]; [| reflexivity].
  unfold base_entries.
  destruct (iterate _) as [entries |]; [| reflexivity].
  match goal with
  | |- match ?l with _ => _ end = match ?r with _ => _ end =>
      replace l with r; [reflexivity |]
  end.
  generalize (defrost config). induction entries as [| cfg rest IH]; intros c.
  - reflexivity.
  - simpl. destruct (truthy cfg); [| apply IH].
    destruct cfg; try reflexivity.
    destruct (update fuel _ c) as [[c' [| e]] |]; auto.
Qed.

(** Falsy entries of [BASE] are skipped. *)
Lemma update_bases_none rec cfg_file entries config :
  forallb (fun e => negb (truthy e)) entries = true ->
  update_bases rec cfg_file entries config = Some (config, Done).
Proof.
  induction entries as [| cfg rest IH]; simpl; [reflexivity |].
  intros H. apply andb_prop in H. destruct H as [Hc Hr].
  apply negb_true_iff in Hc. rewrite Hc. now apply IH.
Qed.

(** What yacs loads from a file is the document the file holds. *)
Lemma load_cfg_doc f a :
  load_cfg fs f = inl a -> exists d, fs f = Doc d /\ cfg_node d = inl a.
Proof.
  unfold load_cfg.
  destruct (existsb _ YAML_EXTS).
  - destruct (fs f) as [| | d]; try discriminate.
    destruct (safe_yaml d); [| discriminate]. intros H. now exists d.
  - destruct (existsb _ PY_EXTS); discriminate.
Qed.

Lemma load_cfg_mapping f doc kvs a :
  fs f = Doc doc -> as_mapping doc = Some kvs -> load_cfg fs f = inl a -> a = kvs.
Proof.
  intros Hfs Hmap Hl. destruct (load_cfg_doc f a Hl) as [d [Hd Hn]].
  rewrite Hfs in Hd. injection Hd as <-. now apply (cfg_node_mapping doc).
Qed.

(** [merge_from_file] raises before it merges, or merges what it loaded. *)
Lemma merge_file_cases f c :
  (exists e, merge_file f c = (c, Raise e)) \/
  (exists a, load_cfg fs f = inl a /\
             merge_file f c =
             (CN (immutable c) (fst (merge_a_into_b literal_eval a (items c) [])),
              snd (merge_a_into_b literal_eval a (items c) []))).
Proof.
  unfold merge_from_file.
  destruct (load_cfg fs f) as [a | e] eqn:Hl.
  - right. exists a. split; [reflexivity |].
    destruct (load_cfg_doc f a Hl) as [d [-> _]].
    now destruct (merge_a_into_b literal_eval a (items c) []).
  - left. destruct (fs f); eexists; reflexivity.
Qed.

Lemma merge_file_loaded f c a :
  load_cfg fs f = inl a ->
  merge_file f c =
  (CN (immutable c) (fst (merge_a_into_b literal_eval a (items c) [])),
   snd (merge_a_into_b literal_eval a (items c) [])).
Proof.
  intros Hl. unfold merge_from_file. rewrite Hl.
  destruct (load_cfg_doc f a Hl) as [d [-> _]].
  now destruct (merge_a_into_b literal_eval a (items c) []).
Qed.

Lemma merge_file_not_loaded f c e :
  fs f <> NoFile -> load_cfg fs f = inr e -> merge_file f c = (c, Raise e).
Proof.
  intros Hf Hl. unfold merge_from_file. rewrite Hl.
  destruct (fs f); [contradiction | reflexivity ..].
Qed.

(** A merge that is done has loaded the document of the file. *)
Lemma merge_file_done f doc kvs c c' :
  fs f = Doc doc -> as_mapping doc = Some kvs ->
  merge_file f c = (c', Done) ->
  load_cfg fs f = inl kvs /\
  merge_a_into_b literal_eval kvs (items c) [] = (items c', Done) /\
  immutable c' = immutable c.
Proof.
  intros Hfs Hmap Hm.
  destruct (merge_file_cases f c) as [[e He] | [a [Ha H]]]; [congruence |].
  pose proof (load_cfg_mapping f doc kvs a Hfs Hmap Ha) as ->.
  rewrite H in Hm. injection Hm as <- Hr. split; [exact Ha |].
  split; [| reflexivity]. simpl.
  destruct (merge_a_into_b literal_eval kvs (items c) []) as [b r].
  simpl in Hr |- *. now subst r.
Qed.

(** A file that names no base: what yacs loads from it is merged into the
    defrosted configuration, which is then frozen unless the merge raised;
    where yacs cannot load it, nothing is merged. *)
Lemma update_no_bases fuel cfg_file config yaml_cfg kvs :
  fs cfg_file = Doc yaml_cfg -> as_mapping yaml_cfg = Some kvs ->
  no_bases kvs = true ->
  update (S fuel) cfg_file config =
  Some (match load_cfg fs cfg_file with
        | inr e => (defrost config, Raise e)
        | inl a =>
            match merge_a_into_b literal_eval a (items (defrost config)) [] with
            | (b, Done) => (freeze (CN false b), Done)
            | (b, Raise e) => (CN false b, Raise e)
            end
        end).
Proof.
  intros Hfs Hmap Hnb. rewrite update_unfold, Hfs, Hmap.
  unfold no_bases in Hnb.
  destruct (base_entries kvs) as [entries |]; [| discriminate].
  rewrite (update_bases_none _ _ _ _ Hnb).
  destruct (load_cfg fs cfg_file) as [a | e] eqn:Hl.
  - rewrite (merge_file_loaded _ _ a Hl).
    destruct (merge_a_into_b literal_eval a (items (defrost config)) [])
      as [b [| e]]; reflexivity.
  - rewrite (merge_file_not_loaded _ _ e); [reflexivity | congruence | exact Hl].
Qed.

End UpdateFromFile.

(** ** Key paths a merge writes and key paths it leaves alone *)

Lemma lookup_cons k p d :
  p <> [] ->
  lookup (k :: p) d =
  match dict_get k d with
  | Some v => match as_mapping v with Some sub => lookup p sub | None => None end
  | None => None
  end.
Proof.
  intros Hp. destruct p as [| k' p']; [contradiction |].
  simpl. destruct (dict_get k d) as [[] |]; reflexivity.
Qed.

Lemma lookup_dict_set_other k k' p v d :
  k <> k' -> lookup (k' :: p) (dict_set k v d) = lookup (k' :: p) d.
Proof.
  intros Hne. destruct p as [| k2 p2].
  - simpl. now apply dict_get_set_other.
  - rewrite !lookup_cons by discriminate. now rewrite dict_get_set_other.
Qed.

Lemma check_and_coerce_coerced v original fk w :
  check_and_coerce v original fk = inl w -> coerced v w.
Proof.
  unfold check_and_coerce, coerced.
  repeat match goal with
         | |- context [if ?c then _ else _] => destruct c
         end; try (intros [= <-]; now left).
  destruct v, original; try discriminate; intros [= <-]; eauto.
Qed.

Lemma mentions_not_key k p a : ~ In k (keys a) -> mentions (k :: p) a = false.
Proof.
  intros Hk. simpl. apply not_true_iff_false. intros H.
  apply existsb_exists in H. destruct H as [[k' v] [Hin H]]. simpl in H.
  apply andb_prop in H. destruct H as [Hk' _]. apply String.eqb_eq in Hk'.
  subst k'. apply Hk. change k with (fst (k, v)). now apply in_map.
Qed.

Lemma unique_keys_dict a :
  unique_keys (VDict a) <->
  NoDup (keys a) /\ Forall (fun kv => unique_keys (snd kv)) a.
Proof.
  simpl. apply and_iff_compat_l.
  induction a as [| [k v] r IH]; simpl.
  - split; auto.
  - rewrite IH. split.
    + intros [Hv Hr]. now constructor.
    + intros H. inversion H; subst. auto.
Qed.

Lemma unique_keys_sub v sub :
  as_mapping v = Some sub -> unique_keys v -> unique_keys (VDict sub).
Proof. destruct v; simpl; try discriminate; now intros [= ->]. Qed.

Section MergePaths.

Variable literal_eval : string -> literal.

Local Notation "'merge'" := (merge_a_into_b literal_eval).
Local Notation "'decode'" := (decode_cfg_value literal_eval).

(** A key path the document has no entry on keeps its value, whether the
    merge ends or raises. *)
Lemma merge_frame a : forall path b kl,
  mentions path a = false ->
  lookup path (fst (merge a b kl)) = lookup path b.
Proof.
  induction a as [| k v_ rest IHsub IHrest] using dict_nested_ind;
    intros path b kl Hm.
  - reflexivity.
  - destruct path as [| k0 p]; [reflexivity |].
    assert (Hrest : mentions (k0 :: p) rest = false).
    { simpl in Hm. apply orb_false_elim in Hm. apply Hm. }
    assert (Hentry : ((k =? k0)%string &&
                      match p with
                      | [] => true
                      | _ => match as_mapping v_ with
                             | Some sub => mentions p sub
                             | None => true
                             end
                      end) = false).
    { simpl in Hm. apply orb_false_elim in Hm. apply Hm. }
    rewrite merge_cons.
    destruct (decode v_) as [d | e]; [| reflexivity].
    destruct (dict_get k b) as [original |] eqn:Hget; [| reflexivity].
    destruct (String.eqb_spec k k0) as [-> | Hne].
    + (* the entry is for the first key of the path *)
      simpl in Hentry.
      destruct p as [| k1 p1]; [discriminate |].
      destruct (as_mapping v_) as [sub |] eqn:Hmap; [| discriminate].
      destruct original; try reflexivity.
      specialize (IHsub sub eq_refl (k1 :: p1) kvs (kl ++ [k0])%list Hentry).
      destruct (merge sub kvs (kl ++ [k0])) as [bsub' r]. simpl fst in IHsub.
      assert (E : lookup (k0 :: k1 :: p1) (dict_set k0 (VCfg frozen bsub') b) =
                  lookup (k0 :: k1 :: p1) b).
      { rewrite !lookup_cons by discriminate.
        now rewrite dict_get_set_same, Hget. }
      destruct r; [| exact E]. now rewrite IHrest.
    + destruct (as_mapping v_) as [sub |] eqn:Hmap.
      * destruct original; try reflexivity.
        destruct (merge sub kvs (kl ++ [k])) as [bsub' r].
        destruct r; [rewrite IHrest by assumption |];
          now apply lookup_dict_set_other.
      * destruct (check_and_coerce _ original _) as [v | e]; [| reflexivity].
        rewrite IHrest by assumption. now apply lookup_dict_set_other.
Qed.

(** A leaf of the document ends up at its key path once the merge is
    done: the merged value wins over whatever was there. *)
Lemma merge_wins (a : dict) : forall path v b b' kl,
  unique_keys (VDict a) ->
  lookup path a = Some v -> is_mapping v = false ->
  merge a b kl = (b', Done) ->
  exists d w, decode v = inl d /\ lookup path b' = Some w /\ coerced d w.
Proof.
  induction a as [| k v_ rest IHsub IHrest] using dict_nested_ind;
    intros path v b b' kl Hu Hl Hleaf Hmerge.
  - destruct path as [| ? [|]]; discriminate.
  - apply unique_keys_dict in Hu. destruct Hu as [Hnd Hall].
    inversion Hnd as [| ? ? Hnotin Hnd']; subst.
    inversion Hall as [| ? ? Hv Hall']; subst. simpl in Hv.
    assert (Hurest : unique_keys (VDict rest))
      by (apply unique_keys_dict; auto).
    destruct path as [| k0 p]; [discriminate |].
    rewrite merge_cons in Hmerge.
    destruct (decode v_) as [d_ | e_] eqn:Hdec; [| discriminate].
    destruct (dict_get k b) as [original |] eqn:Hget; [| discriminate].
    destruct (String.eqb_spec k k0) as [-> | Hne].
    + (* the first entry is the one on the path *)
      pose proof (mentions_not_key k0 p rest Hnotin) as Hfree.
      destruct p as [| k1 p1].
      * simpl in Hl. rewrite String.eqb_refl in Hl. injection Hl as ->.
        rewrite (proj2 (as_mapping_is_mapping v) Hleaf) in Hmerge.
        destruct (check_and_coerce d_ original _) as [w | e] eqn:Hc;
          [| discriminate].
        exists d_, w. split; [exact Hdec |].
        split; [| now apply check_and_coerce_coerced in Hc].
        pose proof (merge_frame rest [k0] (dict_set k0 w b) kl Hfree) as Hf.
        rewrite Hmerge in Hf. simpl fst in Hf. rewrite Hf.
        simpl. apply dict_get_set_same.
      * rewrite lookup_cons in Hl by discriminate.
        simpl dict_get in Hl. rewrite String.eqb_refl in Hl.
        destruct (as_mapping v_) as [sub |] eqn:Hmap; [| discriminate].
        destruct original; try discriminate.
        destruct (merge sub kvs (kl ++ [k0])) as [bsub' r] eqn:Hsub.
        destruct r; [| discriminate].
        destruct (IHsub sub eq_refl (k1 :: p1) v kvs bsub' (kl ++ [k0])%list)
          as [d [w [Hd [Hw Hcw]]]]; auto.
        { now apply (unique_keys_sub v_). }
        exists d, w. split; [exact Hd |]. split; [| exact Hcw].
        pose proof (merge_frame rest (k0 :: k1 :: p1)
                      (dict_set k0 (VCfg frozen bsub') b) kl Hfree) as Hf.
        rewrite Hmerge in Hf. simpl fst in Hf. rewrite Hf.
        rewrite lookup_cons by discriminate.
        now rewrite dict_get_set_same.
    + assert (Hl' : lookup (k0 :: p) rest = Some v).
      { destruct p as [| k1 p1].
        - simpl in Hl. apply String.eqb_neq in Hne. now rewrite Hne in Hl.
        - rewrite lookup_cons in Hl by discriminate.
          rewrite lookup_cons by discriminate.
          simpl dict_get in Hl. apply String.eqb_neq in Hne.
          now rewrite Hne in Hl. }
      destruct (as_mapping v_) as [sub |] eqn:Hmap.
      * destruct original; try discriminate.
        destruct (merge sub kvs (kl ++ [k])) as [bsub' r].
        destruct r; [| discriminate].
        now apply (IHrest _ _ _ _ _ Hurest Hl' Hleaf Hmerge).
      * destruct (check_and_coerce _ original _) as [w | e]; [| discriminate].
        now apply (IHrest _ _ _ _ _ Hurest Hl' Hleaf Hmerge).
Qed.

End MergePaths.

(** ** The file update follows the order of the specification *)

Lemma same_keys_refl c : same_keys c c.
Proof. reflexivity. Qed.

Lemma same_keys_defrost c : same_keys (defrost c) c.
Proof. unfold same_keys. apply defrost_idem. Qed.

Lemma same_keys_freeze c : same_keys (freeze c) c.
Proof. unfold same_keys. apply defrost_freeze. Qed.

Lemma same_keys_trans c d e : same_keys c d -> same_keys d e -> same_keys c e.
Proof. unfold same_keys. congruence. Qed.

Lemma same_keys_freeze_eq c d : same_keys c d -> freeze c = freeze d.
Proof.
  unfold same_keys. intros H.
  rewrite <- (freeze_defrost c), <- (freeze_defrost d). now rewrite H.
Qed.

Lemma same_keys_items c d :
  same_keys c d ->
  set_immutable_items false (items c) = set_immutable_items false (items d).
Proof. unfold same_keys, defrost. now intros [= H]. Qed.

Lemma respects_skip : respects_keys skip.
Proof. intros c d H. split; [reflexivity | exact H]. Qed.

Lemma respects_seq s t :
  respects_keys s -> respects_keys t -> respects_keys (s ;; t).
Proof.
  intros Hs Ht c d H. unfold seq.
  destruct (Hs c d H) as [Ho Hk].
  destruct (s c) as [c1 o1], (s d) as [d1 o2]. simpl in Ho, Hk. subst o2.
  destruct o1; [now apply Ht | split; [reflexivity | exact Hk]].
Qed.

Section FollowsOrder.

Variable literal_eval : string -> literal.
Variable fs : string -> file.

Local Notation "'update'" := (_update_config_from_file literal_eval fs).
Local Notation "'merge_file'" := (merge_from_file literal_eval fs).
Local Notation "'order'" := (spec_merge_order fs).
Local Notation "'merge_files'" := (merge_all literal_eval fs).

Lemma respects_merge_file f : respects_keys (merge_file f).
Proof.
  intros c d H.
  destruct (load_cfg fs f) as [a | e] eqn:Hl.
  2:{ unfold merge_from_file. rewrite Hl.
      destruct (fs f); (split; [reflexivity | exact H]). }
  rewrite !(merge_file_loaded literal_eval fs f _ a Hl).
  pose proof (merge_set_immutable literal_eval false a (items c) []) as Hc.
  pose proof (merge_set_immutable literal_eval false a (items d) []) as Hd.
  rewrite (same_keys_items c d H) in Hc. rewrite Hc in Hd.
  destruct (merge_a_into_b literal_eval a (items c) []) as [b o].
  destruct (merge_a_into_b literal_eval a (items d) []) as [b' o'].
  simpl in Hd. injection Hd as Hb Ho. simpl.
  split; [exact Ho | unfold same_keys, defrost; simpl; now rewrite Hb].
Qed.

Lemma respects_merge_files l : respects_keys (merge_files l).
Proof.
  induction l as [| f r IH]; simpl.
  - apply respects_skip.
  - apply respects_seq; [apply respects_merge_file | exact IH].
Qed.

Lemma merge_files_app l1 l2 c :
  merge_files (l1 ++ l2)%list c = (merge_files l1 ;; merge_files l2) c.
Proof.
  revert c. induction l1 as [| f r IH]; intros c; simpl.
  - unfold seq, skip. reflexivity.
  - unfold seq in IH |- *. destruct (merge_file f c) as [c1 [| e]]; auto.
Qed.

(** The loop over the entries of [BASE], given that each recursive call
    follows the order computed for its file. *)
Lemma update_bases_follows fuel cfg_file :
  (forall f l c, order fuel f = Some l ->
                 follows_frozen (update fuel f c) (merge_files l c)) ->
  forall entries l c,
    order_bases (order fuel) cfg_file entries = Some l ->
    follows (update_bases (update fuel) cfg_file entries c) (merge_files l c).
Proof.
  intros IH entries.
  induction entries as [| cfg rest IHe]; intros l c Hord; simpl in Hord.
  - injection Hord as <-. exists c. split; [reflexivity | apply same_keys_refl].
  - simpl. destruct (truthy cfg); [| now apply IHe].
    destruct cfg; try discriminate.
    destruct (order fuel _) as [first |] eqn:Hfirst; [| discriminate].
    destruct (order_bases _ _ rest) as [others |] eqn:Hothers; [| discriminate].
    injection Hord as <-.
    destruct (IH _ _ c Hfirst) as [c1 [Hrun [Hk _]]].
    rewrite Hrun, merge_files_app. unfold seq.
    destruct (merge_files first c) as [s1 o1]. simpl in Hk |- *.
    destruct o1.
    + destruct (IHe _ c1 eq_refl) as [c2 [Hrun2 Hk2]].
      destruct (respects_merge_files others c1 s1 Hk) as [Ho Hks].
      exists c2. split; [now rewrite Hrun2, Ho |].
      now apply (same_keys_trans _ _ _ Hk2).
    + exists c1. split; [reflexivity | exact Hk].
Qed.

(** [_update_config_from_file] merges the files in the order of the
    specification: every base, depth first and from left to right, then
    the file itself. *)
Lemma update_follows_order fuel : forall cfg_file l c,
  order fuel cfg_file = Some l ->
  follows_frozen (update fuel cfg_file c) (merge_files l c).
Proof.
  induction fuel as [| fuel IH]; intros cfg_file l c Hord; [discriminate |].
  rewrite update_unfold. simpl in Hord.
  destruct (fs cfg_file) as [| | doc] eqn:Hfs; try discriminate.
  destruct (as_mapping doc) as [kvs |] eqn:Hmap; [| discriminate].
  destruct (base_entries kvs) as [entries |]; [| discriminate].
  destruct (order_bases _ cfg_file entries) as [bases |] eqn:Hb;
    [| discriminate].
  injection Hord as <-.
  destruct (update_bases_follows fuel cfg_file IH entries bases (defrost c) Hb)
    as [c1 [Hrun Hk]].
  rewrite Hrun, merge_files_app. unfold seq.
  destruct (respects_merge_files bases (defrost c) c (same_keys_defrost c))
    as [Ho Hks].
  rewrite Ho. pose proof (same_keys_trans _ _ _ Hk Hks) as Hk1.
  destruct (merge_files bases c) as [s1 o1]. simpl in Hk1 |- *.
  destruct o1.
  - simpl. unfold seq, skip.
    destruct (respects_merge_file cfg_file c1 s1 Hk1) as [Ho2 Hk2].
    destruct (merge_file cfg_file c1) as [c2 o2].
    destruct (merge_file cfg_file s1) as [s2 o2']. simpl in Ho2, Hk2.
    subst o2'. destruct o2; simpl.
    + exists (freeze c2). split; [reflexivity |]. split.
      * apply (same_keys_trans _ c2); [apply same_keys_freeze | exact Hk2].
      * intros _. now apply same_keys_freeze_eq.
    + exists c2. split; [reflexivity |]. split; [exact Hk2 | discriminate].
  - exists c1. split; [reflexivity |]. split; [exact Hk1 | discriminate].
Qed.

End FollowsOrder.

Lemma lookup_set_immutable flag path : forall d w,
  lookup path d = Some w -> is_cfg w = false ->
  lookup path (set_immutable_items flag d) = Some w.
Proof.
  induction path as [| k p IH]; intros d w Hl Hw; [discriminate |].
  destruct p as [| k1 p1].
  - simpl in Hl |- *. rewrite set_immutable_items_get, Hl. simpl.
    now rewrite set_immutable_leaf.
  - rewrite lookup_cons in Hl |- * by discriminate.
    rewrite set_immutable_items_get.
    destruct (dict_get k d) as [v |]; [| discriminate]. simpl option_map.
    destruct v; try discriminate; simpl as_mapping in Hl.
    + exact Hl.
    + rewrite set_immutable_cfg. simpl as_mapping. now apply IH.
Qed.

Lemma coerced_not_cfg v w : is_cfg v = false -> coerced v w -> is_cfg w = false.
Proof.
  intros Hv [-> | [[xs [_ ->]] | [xs [_ ->]]]]; auto.
Qed.

Section ChainOrder.

Variable literal_eval : string -> literal.
Variable fs : string -> file.

Local Notation "'order'" := (spec_merge_order fs).

Lemma order_bases_none rec cfg_file entries :
  forallb (fun e => negb (truthy e)) entries = true ->
  order_bases rec cfg_file entries = Some [].
Proof.
  induction entries as [| cfg rest IH]; simpl; [reflexivity |].
  intros H. apply andb_prop in H. destruct H as [Hc Hr].
  apply negb_true_iff in Hc. rewrite Hc. now apply IH.
Qed.

Lemma order_no_bases fuel cfg_file doc kvs :
  fs cfg_file = Doc doc -> as_mapping doc = Some kvs -> no_bases kvs = true ->
  order (S fuel) cfg_file = Some [cfg_file].
Proof.
  intros Hfs Hmap Hnb. simpl. rewrite Hfs, Hmap. unfold no_bases in Hnb.
  destruct (base_entries kvs) as [entries |]; [| discriminate].
  now rewrite order_bases_none.
Qed.

Lemma order_one_base fuel cfg_file doc kvs name l :
  fs cfg_file = Doc doc -> as_mapping doc = Some kvs ->
  base_entries kvs = Some [VStr name] -> truthy (VStr name) = true ->
  order fuel (os_path_join (os_path_dirname cfg_file) name) = Some l ->
  order (S fuel) cfg_file = Some (l ++ [cfg_file])%list.
Proof.
  intros Hfs Hmap Hb Ht Hl. simpl. rewrite Hfs, Hmap, Hb.
  unfold order_bases. rewrite Ht, Hl. now rewrite app_nil_r.
Qed.

(** A key path on which the document of a file has no entry keeps its
    value through [merge_from_file], however that ends. *)
Lemma merge_file_frame f c path :
  (forall doc kvs,
      fs f = Doc doc -> as_mapping doc = Some kvs -> mentions path kvs = false) ->
  lookup path (items (fst (merge_from_file literal_eval fs f c))) =
  lookup path (items c).
Proof.
  intros Hnm.
  destruct (merge_file_cases literal_eval fs f c) as [[e ->] | [a [Ha ->]]];
    [reflexivity |].
  destruct (load_cfg_doc fs f a Ha) as [d [Hd Hn]].
  simpl. apply merge_frame.
  destruct (cfg_node_cases d a Hn) as [Hmap | ->].
  - apply (Hnm d a Hd Hmap).
  - now destruct path.
Qed.

Lemma merge_files_frame l : forall c path,
  (forall g doc kvs,
      In g l -> fs g = Doc doc -> as_mapping doc = Some kvs ->
      mentions path kvs = false) ->
  lookup path (items (fst (merge_all literal_eval fs l c))) =
  lookup path (items c).
Proof.
  induction l as [| f rest IH]; intros c path Hnm; [reflexivity |].
  simpl merge_all. unfold seq.
  pose proof (merge_file_frame f c path
                (fun doc kvs => Hnm f doc kvs (or_introl eq_refl))) as Hf.
  destruct (merge_from_file literal_eval fs f c) as [c1 [| e]];
    simpl fst in Hf; [| exact Hf].
  rewrite IH; [exact Hf |].
  intros g doc kvs Hin. apply Hnm. now right.
Qed.

(** In a sequence of merges that is done, a leaf of a file is the value at
    its key path in the end, unless a later file has an entry there. *)
Lemma merge_files_wins earlier f later doc kvs path v c c_end :
  fs f = Doc doc -> as_mapping doc = Some kvs -> unique_keys doc ->
  lookup path kvs = Some v -> is_mapping v = false ->
  (forall g d k,
      In g later -> fs g = Doc d -> as_mapping d = Some k ->
      mentions path k = false) ->
  merge_all literal_eval fs (earlier ++ f :: later) c = (c_end, Done) ->
  exists d w,
    decode_cfg_value literal_eval v = inl d /\
    lookup path (items c_end) = Some w /\ coerced d w.
Proof.
  intros Hfs Hmap Hu Hl Hleaf Hlater Hrun.
  rewrite merge_files_app in Hrun. unfold seq in Hrun.
  destruct (merge_all literal_eval fs earlier c) as [c1 [| e1]];
    [| discriminate].
  simpl merge_all in Hrun. unfold seq in Hrun.
  destruct (merge_from_file literal_eval fs f c1) as [c2 [| e2]] eqn:Hf;
    [| discriminate].
  destruct (merge_file_done literal_eval fs f doc kvs c1 c2 Hfs Hmap Hf)
    as (_ & Hm & _).
  destruct (merge_wins literal_eval kvs path v (items c1) (items c2) []
              (unique_keys_sub doc kvs Hmap Hu) Hl Hleaf Hm)
    as [d [w [Hd [Hw Hc]]]].
  exists d, w. split; [exact Hd |]. split; [| exact Hc].
  pose proof (merge_files_frame later c2 path Hlater) as Hk.
  rewrite Hrun in Hk. simpl fst in Hk. now rewrite Hk.
Qed.

End ChainOrder.

(** C1.  BASE chaining is sequential merging.  For every file, the order
    the specification prescribes (for each entry of BASE that names a file,
    from left to right, that file with its own bases first, and the file
    itself last) is the order [_update_config_from_file] merges in: it ends
    the way merging the own keys of the files of that order, one after the
    other, ends, with the same value under every key, and frozen when the
    merges are done.  A later file wins: a leaf of a file of the order is
    the value at its key path in the end, unless a file after it has an
    entry there.  For files A (whose BASE names no file), B (BASE = [A]) and
    C (BASE = [B]) the order of C is A, B, C. *)
Theorem base_chain_is_sequential_merge
  (literal_eval : string -> literal) (fs : string -> file)
  (fuel : nat) (cfg_file : string) (files : list string) (config : CfgNode) :
  spec_merge_order fs fuel cfg_file = Some files ->
  let sequential := merge_all literal_eval fs files config in
  (exists c',
     _update_config_from_file literal_eval fs fuel cfg_file config =
       Some (c', snd sequential) /\
     same_keys c' (fst sequential) /\
     (snd sequential = Done ->
      c' = freeze (fst sequential) /\
      forall earlier f later doc kvs path v,
        files = (earlier ++ f :: later)%list ->
        fs f = Doc doc -> as_mapping doc = Some kvs -> unique_keys doc ->
        lookup path kvs = Some v -> is_mapping v = false ->
        (forall g d k,
            In g later -> fs g = Doc d -> as_mapping d = Some k ->
            mentions path k = false) ->
        exists d w,
          decode_cfg_value literal_eval v = inl d /\
          lookup path (items c') = Some w /\ coerced d w)) /\
  (forall n pa pb pc na nb da db dc ka kb kc,
      fs pa = Doc da -> as_mapping da = Some ka -> no_bases ka = true ->
      fs pb = Doc db -> as_mapping db = Some kb ->
      base_entries kb = Some [VStr na] -> truthy (VStr na) = true ->
      os_path_join (os_path_dirname pb) na = pa ->
      fs pc = Doc dc -> as_mapping dc = Some kc ->
      base_entries kc = Some [VStr nb] -> truthy (VStr nb) = true ->
      os_path_join (os_path_dirname pc) nb = pb ->
      cfg_file = pc -> fuel = (3 + n)%nat ->
      files = [pa; pb; pc]).
Proof.
  intros Hord sequential. split.
  - destruct (update_follows_order literal_eval fs _ _ _ config Hord)
      as [c' [Hrun [Hk Hfrozen]]].
    exists c'. split; [exact Hrun |]. split; [exact Hk |].
    intros Hdone. specialize (Hfrozen Hdone). split; [exact Hfrozen |].
    intros earlier f later doc kvs path v -> Hfs Hmap Hu Hl Hleaf Hlater.
    subst sequential.
    destruct (merge_all literal_eval fs (earlier ++ f :: later) config)
      as [c_end o] eqn:Hseq.
    simpl in Hdone, Hfrozen. subst o c'.
    destruct (merge_files_wins literal_eval fs earlier f later doc kvs path v
                config c_end Hfs Hmap Hu Hl Hleaf Hlater Hseq)
      as [d [w [Hd [Hw Hc]]]].
    exists d, w. split; [exact Hd |]. split; [| exact Hc].
    unfold freeze. simpl items. apply lookup_set_immutable; [exact Hw |].
    apply (coerced_not_cfg d w); [| exact Hc].
    apply (decode_not_cfg literal_eval v d); [| exact Hd].
    destruct v; auto; discriminate.
  - intros n pa pb pc na nb da db dc ka kb kc
      Ha Hma Hna Hb Hmb Heb Htb Hjb Hc Hmc Hec Htc Hjc -> ->.
    assert (H : spec_merge_order fs (3 + n) pc = Some [pa; pb; pc]).
    { change (3 + n)%nat with (S (S (S n))).
      apply (order_one_base fs _ pc dc kc nb [pa; pb] Hc Hmc Hec Htc).
      rewrite Hjc.
      apply (order_one_base fs _ pb db kb na [pa] Hb Hmb Heb Htb).
      rewrite Hjb. apply (order_no_bases fs _ pa da ka Ha Hma Hna). }
    rewrite H in Hord. now injection Hord as <-.
Qed.

(** ** The file update keeps the shape of the configuration *)

Section UpdateShape.

Variable literal_eval : string -> literal.
Variable fs : string -> file.

Local Notation "'update'" := (_update_config_from_file literal_eval fs).
Local Notation "'merge_file'" := (merge_from_file literal_eval fs).

Lemma same_shape_defrost c : same_shape (defrost c) c.
Proof. apply shape_items_set_immutable. Qed.

Lemma same_shape_freeze c : same_shape (freeze c) c.
Proof. apply shape_items_set_immutable. Qed.

Lemma merge_file_shape f c : same_shape (fst (merge_file f c)) c.
Proof.
  unfold same_shape.
  destruct (merge_file_cases literal_eval fs f c) as [[e ->] | [a [Ha ->]]];
    [reflexivity |].
  apply merge_shape.
Qed.

Lemma update_bases_shape fuel cfg_file :
  (forall f c c' o, update fuel f c = Some (c', o) -> same_shape c' c) ->
  forall entries c c' o,
    update_bases (update fuel) cfg_file entries c = Some (c', o) ->
    same_shape c' c.
Proof.
  intros IH entries.
  induction entries as [| cfg rest IHe]; intros c c' o; simpl.
  - now intros [= <- <-].
  - destruct (truthy cfg); [| apply IHe].
    destruct cfg; try (now intros [= <- <-]).
    destruct (update fuel _ c) as [[c1 [| e]] |] eqn:Hrun; try discriminate.
    + intros H. apply IHe in H. apply IH in Hrun.
      unfold same_shape in *. congruence.
    + intros [= <- <-]. now apply IH in Hrun.
Qed.

Lemma update_shape fuel : forall cfg_file c c' o,
  update fuel cfg_file c = Some (c', o) -> same_shape c' c.
Proof.
  induction fuel as [| fuel IH]; intros cfg_file c c' o; [discriminate |].
  rewrite update_unfold.
  pose proof (same_shape_defrost c) as Hd.
  destruct (fs cfg_file) as [| | doc]; try (now intros [= <- <-]).
  destruct (as_mapping doc) as [kvs |]; [| now intros [= <- <-]].
  destruct (base_entries kvs) as [entries |]; [| now intros [= <- <-]].
  destruct (update_bases _ _ entries (defrost c)) as [[c1 [| e]] |] eqn:Hb;
    try discriminate.
  - apply (update_bases_shape fuel cfg_file IH) in Hb.
    pose proof (merge_file_shape cfg_file c1) as Hm.
    destruct (merge_file cfg_file c1) as [c2 [| e]]; simpl in Hm;
      intros [= <- <-]; unfold same_shape in *;
      try rewrite (same_shape_freeze c2); congruence.
  - apply (update_bases_shape fuel cfg_file IH) in Hb.
    intros [= <- <-]. unfold same_shape in *. congruence.
Qed.




End UpdateShape.


(** ** The assignments of [update_config] *)

Lemma seq_done (f g : step) c c1 : f c = (c1, Done) -> (f ;; g) c = g c1.
Proof. unfold seq. now intros ->. Qed.

Lemma seq_done_inv (f g : step) c c' :
  (f ;; g) c = (c', Done) -> exists c1, f c = (c1, Done) /\ g c1 = (c', Done).
Proof.
  unfold seq. destruct (f c) as [c1 [| e]]; [| discriminate].
  intros H. now exists c1.
Qed.

Lemma ready_mutable c : ready c = true -> immutable c = false.
Proof.
  unfold ready. intros H. repeat (apply andb_prop in H; destruct H as [H ?]).
  now apply negb_true_iff in H.
Qed.

Lemma mutable_group_is_group g c : mutable_group g c = true -> is_group g c = true.
Proof.
  unfold mutable_group, is_group.
  destruct (dict_get g (items c)) as [[] |]; auto.
Qed.

(** An assignment to a field of a group, done: the state is the one
    [put_if] gives. *)
Lemma setattr_in_done_inv g n v c c' :
  setattr_in g n v c = (c', Done) -> c' = put_if true g n v c.
Proof.
  unfold setattr_in, put_if, setattr, is_frozen, to_value.
  destruct (dict_get g (items c)) as [[] |]; try discriminate.
  simpl. destruct frozen; [discriminate |].
  destruct (internal n); [discriminate |].
  destruct (_ || _); [| discriminate]. simpl. now intros [= <-].
Qed.

Lemma setattr_in_done g n v c :
  mutable_group g c = true -> internal n = false -> storable v = true ->
  setattr_in g n v c = (put_if true g n v c, Done).
Proof.
  unfold setattr_in, put_if, setattr, is_frozen, to_value, mutable_group, storable.
  destruct (dict_get g (items c)) as [[] |]; try discriminate.
  destruct frozen; [discriminate |]. intros _ -> ->. reflexivity.
Qed.

Lemma setattr_done_inv n v c c' :
  setattr n v c = (c', Done) -> c' = put_top_if true n v c.
Proof.
  unfold setattr, put_top_if, is_frozen.
  destruct (immutable c); [discriminate |].
  destruct (internal n); [discriminate |].
  destruct (_ || _); [| discriminate]. now intros [= <-].
Qed.

Lemma setattr_done n v c :
  immutable c = false -> internal n = false -> storable v = true ->
  setattr n v c = (put_top_if true n v c, Done).
Proof.
  unfold setattr, put_top_if, is_frozen, storable. now intros -> -> ->.
Qed.

Lemma set_amp_done_inv c c' :
  set_amp c = (c', Done) -> c' = put_top_if true "AMP" (not_eval c) c.
Proof.
  unfold set_amp, getattr, not_eval.
  destruct (dict_get "EVAL" (items c)); [| discriminate].
  apply setattr_done_inv.
Qed.

Lemma set_amp_done c :
  immutable c = false -> has_key "EVAL" c = true ->
  set_amp c = (put_top_if true "AMP" (not_eval c) c, Done).
Proof.
  unfold set_amp, getattr, not_eval, has_key. intros Hm.
  destruct (dict_get "EVAL" (items c)); [| discriminate].
  intros _. now apply setattr_done.
Qed.

(** What [put_if] and [put_top_if] keep. *)

Lemma immutable_put_if cond g n v c : immutable (put_if cond g n v c) = immutable c.
Proof.
  unfold put_if. destruct cond; auto.
  destruct (dict_get g (items c)) as [[] |]; auto.
Qed.

Lemma immutable_put_top_if cond n v c :
  immutable (put_top_if cond n v c) = immutable c.
Proof. unfold put_top_if. now destruct cond. Qed.

Lemma dict_get_put_if cond g n v c k :
  dict_get k (items (put_if cond g n v c)) =
  match dict_get g (items c) with
  | Some (VCfg fl kvs) =>
      if cond && (g =? k)%string then Some (VCfg fl (dict_set n v kvs))
      else dict_get k (items c)
  | _ => dict_get k (items c)
  end.
Proof.
  unfold put_if. destruct cond; simpl.
  - destruct (dict_get g (items c)) as [[] |]; auto.
    simpl. apply dict_get_set.
  - destruct (dict_get g (items c)) as [[] |]; auto.
Qed.

Lemma dict_get_put_top_if cond n v c k :
  dict_get k (items (put_top_if cond n v c)) =
  if cond && (n =? k)%string then Some v else dict_get k (items c).
Proof.
  unfold put_top_if. destruct cond; simpl; auto. apply dict_get_set.
Qed.

Lemma mutable_group_put_if cond g n v c g' :
  mutable_group g' (put_if cond g n v c) = mutable_group g' c.
Proof.
  unfold mutable_group. rewrite dict_get_put_if.
  destruct (dict_get g (items c)) as [[] |] eqn:Hg; auto.
  destruct (cond && (g =? g')%string) eqn:E; auto.
  apply andb_prop in E. destruct E as [_ E]. apply String.eqb_eq in E.
  subst g'. now rewrite Hg.
Qed.

Lemma is_group_put_if cond g n v c g' :
  is_group g' (put_if cond g n v c) = is_group g' c.
Proof.
  unfold is_group. rewrite dict_get_put_if.
  destruct (dict_get g (items c)) as [[] |] eqn:Hg; auto.
  destruct (cond && (g =? g')%string) eqn:E; auto.
  apply andb_prop in E. destruct E as [_ E]. apply String.eqb_eq in E.
  subst g'. now rewrite Hg.
Qed.

Lemma has_key_put_if cond g n v c k :
  has_key k (put_if cond g n v c) = has_key k c.
Proof.
  unfold has_key. rewrite dict_get_put_if.
  destruct (dict_get g (items c)) as [[] |] eqn:Hg; auto.
  destruct (cond && (g =? k)%string) eqn:E; auto.
  apply andb_prop in E. destruct E as [_ E]. apply String.eqb_eq in E.
  subst k. now rewrite Hg.
Qed.

Lemma ready_put_if cond g n v c : ready (put_if cond g n v c) = ready c.
Proof.
  unfold ready.
  now rewrite immutable_put_if, !mutable_group_put_if, has_key_put_if.
Qed.

Lemma mutable_group_put_top_if cond n v c g :
  (n =? g)%string = false ->
  mutable_group g (put_top_if cond n v c) = mutable_group g c.
Proof.
  intros H. unfold mutable_group.
  now rewrite dict_get_put_top_if, H, andb_false_r.
Qed.

Lemma is_group_put_top_if cond n v c g :
  (n =? g)%string = false ->
  is_group g (put_top_if cond n v c) = is_group g c.
Proof.
  intros H. unfold is_group.
  now rewrite dict_get_put_top_if, H, andb_false_r.
Qed.

Lemma has_key_put_top_if cond n v c k :
  has_key k (put_top_if cond n v c) = (cond && (n =? k)%string) || has_key k c.
Proof.
  unfold has_key. rewrite dict_get_put_top_if.
  now destruct (cond && (n =? k)%string).
Qed.

Lemma ready_put_top_if cond n v c :
  (n =? "DATA")%string = false -> (n =? "MODEL")%string = false ->
  (n =? "TRAIN")%string = false ->
  ready c = true -> ready (put_top_if cond n v c) = true.
Proof.
  intros H1 H2 H3. unfold ready.
  rewrite immutable_put_top_if, !mutable_group_put_top_if, has_key_put_top_if
    by assumption.
  intros H. apply andb_prop in H. destruct H as [H He].
  rewrite H, He. now rewrite orb_true_r.
Qed.

(** The fields after an assignment. *)

Lemma lookup_field_put_if cond g n v c g' n' :
  lookup [g'; n'] (items (put_if cond g n v c)) =
  if cond && is_group g c && (g =? g')%string && (n =? n')%string
  then Some v else lookup [g'; n'] (items c).
Proof.
  unfold lookup, is_group. rewrite dict_get_put_if.
  destruct (dict_get g (items c)) as [[] |] eqn:Hg;
    rewrite ?andb_false_r; simpl; auto.
  rewrite andb_true_r.
  destruct (cond && (g =? g')%string) eqn:E; simpl; auto.
  apply andb_prop in E. destruct E as [_ E]. apply String.eqb_eq in E.
  subst g'. rewrite Hg, dict_get_set. reflexivity.
Qed.

Lemma lookup_top_put_if cond g n v c k :
  (g =? k)%string = false ->
  lookup [k] (items (put_if cond g n v c)) = lookup [k] (items c).
Proof.
  intros H. simpl. rewrite dict_get_put_if, H, andb_false_r.
  destruct (dict_get g (items c)) as [[] |]; auto.
Qed.

Lemma lookup_top_put_top_if cond n v c k :
  lookup [k] (items (put_top_if cond n v c)) =
  if cond && (n =? k)%string then Some v else lookup [k] (items c).
Proof. simpl. apply dict_get_put_top_if. Qed.

Lemma lookup_field_put_top_if cond n v c g' n' :
  (n =? g')%string = false ->
  lookup [g'; n'] (items (put_top_if cond n v c)) = lookup [g'; n'] (items c).
Proof.
  intros H. unfold lookup. now rewrite dict_get_put_top_if, H, andb_false_r.
Qed.

Lemma not_eval_put_if cond g n v c :
  (g =? "EVAL")%string = false -> not_eval (put_if cond g n v c) = not_eval c.
Proof.
  intros H. unfold not_eval. rewrite dict_get_put_if, H, andb_false_r.
  destruct (dict_get g (items c)) as [[] |]; auto.
Qed.

(** Conditional statements. *)

Lemma when_setattr_in_done_inv cond g n v c c' :
  when cond (setattr_in g n v) c = (c', Done) -> c' = put_if cond g n v c.
Proof.
  destruct cond; simpl.
  - apply setattr_in_done_inv.
  - unfold skip. now intros [= <-].
Qed.

Lemma when_setattr_in_done cond g n v c :
  mutable_group g c = true -> internal n = false ->
  (negb cond || storable v) = true ->
  when cond (setattr_in g n v) c = (put_if cond g n v c, Done).
Proof.
  destruct cond; simpl; [apply setattr_in_done | reflexivity].
Qed.

Lemma when_batch_size_done_inv cond v c c' :
  when cond (setattr_in "DATA" "BATCH_SIZE" v ;;
             setattr_in "DATA" "BATCH_SIZE_EVAL" v) c = (c', Done) ->
  c' = put_if cond "DATA" "BATCH_SIZE_EVAL" v (put_if cond "DATA" "BATCH_SIZE" v c).
Proof.
  destruct cond; simpl.
  - intros H. apply seq_done_inv in H. destruct H as [c1 [H1 H2]].
    apply setattr_in_done_inv in H1, H2. now subst.
  - unfold skip. now intros [= <-].
Qed.

Lemma when_batch_size_done cond v c :
  mutable_group "DATA" c = true -> (negb cond || storable v) = true ->
  when cond (setattr_in "DATA" "BATCH_SIZE" v ;;
             setattr_in "DATA" "BATCH_SIZE_EVAL" v) c =
  (put_if cond "DATA" "BATCH_SIZE_EVAL" v (put_if cond "DATA" "BATCH_SIZE" v c),
   Done).
Proof.
  destruct cond; simpl; [| reflexivity]. intros Hg Hv.
  rewrite (seq_done _ _ _ _
             (setattr_in_done "DATA" "BATCH_SIZE" v c Hg eq_refl Hv)).
  apply setattr_in_done;
    [now rewrite mutable_group_put_if | reflexivity | exact Hv].
Qed.

Lemma when_setattr_done_inv cond n v c c' :
  when cond (setattr n v) c = (c', Done) -> c' = put_top_if cond n v c.
Proof.
  destruct cond; simpl.
  - apply setattr_done_inv.
  - unfold skip. now intros [= <-].
Qed.

Lemma when_setattr_done cond n v c :
  immutable c = false -> internal n = false -> storable v = true ->
  when cond (setattr n v) c = (put_top_if cond n v c, Done).
Proof.
  destruct cond; simpl; [apply setattr_done | reflexivity].
Qed.

Lemma when_set_amp_done_inv cond c c' :
  when cond set_amp c = (c', Done) -> c' = put_top_if cond "AMP" (not_eval c) c.
Proof.
  destruct cond; simpl.
  - apply set_amp_done_inv.
  - unfold skip. now intros [= <-].
Qed.

Lemma when_set_amp_done cond c :
  immutable c = false -> has_key "EVAL" c = true ->
  when cond set_amp c = (put_top_if cond "AMP" (not_eval c) c, Done).
Proof.
  destruct cond; simpl; [apply set_amp_done | reflexivity].
Qed.

Lemma ready_defrost c : has_groups c = true -> ready (defrost c) = true.
Proof.
  unfold has_groups, ready, is_group, mutable_group, has_key, defrost.
  simpl. rewrite !set_immutable_items_get.
  intros H. repeat (apply andb_prop in H; destruct H as [H ?]).
  destruct (dict_get "DATA" (items c)) as [[] |]; try discriminate.
  destruct (dict_get "MODEL" (items c)) as [[] |]; try discriminate.
  destruct (dict_get "TRAIN" (items c)) as [[] |]; try discriminate.
  destruct (dict_get "EVAL" (items c)); try discriminate.
  reflexivity.
Qed.

Lemma ready_group c :
  ready c = true ->
  mutable_group "DATA" c = true /\ mutable_group "MODEL" c = true /\
  mutable_group "TRAIN" c = true /\ has_key "EVAL" c = true.
Proof.
  unfold ready. intros H. repeat (apply andb_prop in H; destruct H as [H ?]).
  auto.
Qed.

(** If [update_config] gets through its assignments, the configuration is
    the one [args_applied] describes. *)
Lemma apply_args_done_inv args c c' :
  apply_args args c = (c', Done) -> c' = args_applied args c.
Proof.
  unfold apply_args, args_applied. intros H.
  repeat match type of H with
         | (_ ;; _) _ = (_, Done) =>
             apply seq_done_inv in H;
             let c1 := fresh "c" in
             let H1 := fresh "H" in
             destruct H as [c1 [H1 H]]
         end.
  injection H0 as <-.
  apply when_setattr_in_done_inv in H1.
  apply when_batch_size_done_inv in H2.
  apply when_setattr_in_done_inv in H3, H4, H5, H6, H8, H9, H10.
  apply when_setattr_done_inv in H7.
  apply when_set_amp_done_inv in H.
  now subst.
Qed.

(** ... and it does get through them when the configuration has the groups
    and every option given can be stored. *)
Ltac run_assignment R Hv :=
  let E := fresh "E" in
  let R' := fresh "R" in
  match goal with
  | |- (when ?cond (setattr_in ?g ?n ?v) ;; ?rest) ?c = _ =>
      assert (E : when cond (setattr_in g n v) c = (put_if cond g n v c, Done))
        by (apply when_setattr_in_done;
            [apply (ready_group _ R) | reflexivity | exact Hv]);
      rewrite (seq_done _ rest c _ E); clear E;
      assert (R' : ready (put_if cond g n v c) = true)
        by (rewrite ready_put_if; exact R)
  | |- (when ?cond (setattr_in ?g ?n ?v ;; setattr_in ?g ?m ?v) ;; ?rest) ?c = _ =>
      assert (E : when cond (setattr_in g n v ;; setattr_in g m v) c =
                  (put_if cond g m v (put_if cond g n v c), Done))
        by (apply when_batch_size_done; [apply (ready_group _ R) | exact Hv]);
      rewrite (seq_done _ rest c _ E); clear E;
      assert (R' : ready (put_if cond g m v (put_if cond g n v c)) = true)
        by (rewrite ready_put_if, ready_put_if; exact R)
  end;
  clear R; rename R' into R.

Lemma apply_args_done args c :
  has_groups c = true -> args_storable args = true ->
  apply_args args c = (args_applied args c, Done).
Proof.
  intros R Hs. apply ready_defrost in R.
  unfold args_storable, stored_options in Hs. simpl forallb in Hs.
  repeat (apply andb_prop in Hs; let H := fresh "Hv" in destruct Hs as [H Hs]).
  unfold apply_args, args_applied.
  rewrite (seq_done _ _ c (defrost c) eq_refl).
  run_assignment R Hv. run_assignment R Hv0. run_assignment R Hv1.
  run_assignment R Hv2. run_assignment R Hv3. run_assignment R Hv4.
  rewrite (seq_done _ _ _ _
             (when_setattr_done _ "EVAL" (VBool true) _ (ready_mutable _ R)
                eq_refl eq_refl)).
  apply (ready_put_top_if (truthy (arg_eval args)) "EVAL" (VBool true))
    in R; try reflexivity.
  run_assignment R Hv5. run_assignment R Hv6. run_assignment R Hv7.
  apply when_set_amp_done; [apply (ready_mutable _ R) | apply (ready_group _ R)].
Qed.

Lemma lookup_field_put_if_same cond g n v c :
  lookup [g; n] (items (put_if cond g n v c)) =
  if cond && is_group g c then Some v else lookup [g; n] (items c).
Proof. now rewrite lookup_field_put_if, !String.eqb_refl, !andb_true_r. Qed.

Lemma lookup_field_put_if_other cond g n v c g' n' :
  ((g =? g') && (n =? n'))%string = false ->
  lookup [g'; n'] (items (put_if cond g n v c)) = lookup [g'; n'] (items c).
Proof.
  intros H. rewrite lookup_field_put_if, <- !andb_assoc, H.
  now rewrite !andb_false_r.
Qed.

Lemma is_group_defrost g c : is_group g (defrost c) = is_group g c.
Proof.
  unfold is_group, defrost. simpl. rewrite set_immutable_items_get.
  destruct (dict_get g (items c)) as [[] |]; reflexivity.
Qed.

Lemma has_groups_group c :
  has_groups c = true ->
  is_group "DATA" c = true /\ is_group "MODEL" c = true /\
  is_group "TRAIN" c = true /\ has_key "EVAL" c = true.
Proof.
  unfold has_groups. intros H.
  repeat (apply andb_prop in H; destruct H as [H ?]). auto.
Qed.

Lemma lookup_top_put_top_if_same cond n v c :
  lookup [n] (items (put_top_if cond n v c)) =
  if cond then Some v else lookup [n] (items c).
Proof. now rewrite lookup_top_put_top_if, String.eqb_refl, andb_true_r. Qed.

Lemma lookup_top_put_top_if_other cond n v c k :
  (n =? k)%string = false ->
  lookup [k] (items (put_top_if cond n v c)) = lookup [k] (items c).
Proof. intros H. now rewrite lookup_top_put_top_if, H, andb_false_r. Qed.

Lemma not_eval_lookup c :
  not_eval c = match lookup ["EVAL"] (items c) with
               | Some ev => VBool (negb (truthy ev))
               | None => VNone
               end.
Proof. reflexivity. Qed.

Ltac field_of_args_applied Hg :=
  unfold args_applied;
  repeat first
    [ rewrite lookup_field_put_if_other by reflexivity
    | rewrite lookup_field_put_if_same
    | rewrite lookup_field_put_top_if by reflexivity
    | rewrite lookup_top_put_top_if_other by reflexivity
    | rewrite lookup_top_put_top_if_same
    | rewrite lookup_top_put_if by reflexivity
    | rewrite not_eval_lookup
    | rewrite is_group_put_if
    | rewrite is_group_put_top_if by reflexivity
    | rewrite is_group_defrost ];
  rewrite ?(proj1 (has_groups_group _ Hg)),
          ?(proj1 (proj2 (has_groups_group _ Hg))),
          ?(proj1 (proj2 (proj2 (has_groups_group _ Hg))));
  rewrite ?andb_true_r.

(** The fields [update_config] writes, in the state it returns: each option
    is stored where it is truthy, and the field keeps the value of the
    defrosted configuration where it is not. *)
Lemma args_applied_fields args c :
  has_groups c = true ->
  let old path := lookup path (items (defrost c)) in
  let new path := lookup path (items (args_applied args c)) in
  let stored (option : value) path :=
    new path = if truthy option then Some option else old path in
  stored (arg_dataset args) ["DATA"; "DATASET"] /\
  stored (arg_batch_size args) ["DATA"; "BATCH_SIZE"] /\
  new ["DATA"; "BATCH_SIZE_EVAL"] =
    (if truthy (arg_batch_size_eval args) then Some (arg_batch_size_eval args)
     else if truthy (arg_batch_size args) then Some (arg_batch_size args)
     else old ["DATA"; "BATCH_SIZE_EVAL"]) /\
  stored (arg_image_size args) ["DATA"; "IMAGE_SIZE"] /\
  stored (arg_accum_iter args) ["TRAIN"; "ACCUM_ITER"] /\
  stored (arg_data_path args) ["DATA"; "DATA_PATH"] /\
  new ["EVAL"] =
    (if truthy (arg_eval args) then Some (VBool true) else old ["EVAL"]) /\
  stored (arg_pretrained args) ["MODEL"; "PRETRAINED"] /\
  stored (arg_resume args) ["MODEL"; "RESUME"] /\
  stored (arg_last_epoch args) ["TRAIN"; "LAST_EPOCH"] /\
  new ["AMP"] =
    (if truthy (arg_amp args)
     then match new ["EVAL"] with
          | Some ev => Some (VBool (negb (truthy ev)))
          | None => Some VNone
          end
     else old ["AMP"]).
Proof.
  intros Hg old new stored. subst old new stored. cbv beta.
  repeat split; try (field_of_args_applied Hg; reflexivity).
  field_of_args_applied Hg.
  destruct (truthy (arg_amp args)); [| reflexivity].
  destruct (truthy (arg_eval args)); [reflexivity |].
  now destruct (lookup ["EVAL"] (items (defrost c))).
Qed.

(** ** [update_config] *)

Section UpdateConfig.

Variable literal_eval : string -> literal.
Variable fs : string -> file.

Lemma update_config_no_file fuel config args :
  truthy_path (arg_cfg args) = false ->
  update_config literal_eval fs fuel config args =
  Some (apply_args args config).
Proof.
  unfold update_config. intros H.
  destruct (arg_cfg args) as [path |].
  - rewrite H. now destruct (apply_args args config) as [c [| e]].
  - now destruct (apply_args args config) as [c [| e]].
Qed.

Lemma update_config_done fuel config args :
  has_groups config = true -> args_storable args = true ->
  truthy_path (arg_cfg args) = false ->
  update_config literal_eval fs fuel config args =
  Some (args_applied args config, Done).
Proof.
  intros Hg Hs Hcfg. rewrite update_config_no_file by exact Hcfg.
  now rewrite apply_args_done.
Qed.

(** Where [update_config] returns, it returns what [args_applied] gives
    for the configuration the file left (the given one, without a file). *)
Lemma update_config_done_inv fuel config args c' :
  update_config literal_eval fs fuel config args = Some (c', Done) ->
  exists merged,
    c' = args_applied args merged /\
    (truthy_path (arg_cfg args) = false -> merged = config) /\
    (forall path, arg_cfg args = Some path -> truthy_path (Some path) = true ->
       _update_config_from_file literal_eval fs fuel path config
       = Some (merged, Done)).
Proof.
  unfold update_config.
  destruct (arg_cfg args) as [path |].
  - destruct (truthy_path (Some path)) eqn:Hp.
    + destruct (_update_config_from_file _ _ _ _ _) as [[m [| e]] |] eqn:Hu;
        try discriminate.
      intros [= H]. apply apply_args_done_inv in H. exists m.
      split; [exact H |]. split; [discriminate |]. now intros ? [= <-] _.
    + intros [= H]. apply apply_args_done_inv in H. exists config.
      split; [exact H |]. split; [reflexivity |].
      intros ? [= <-]. congruence.
  - intros [= H]. apply apply_args_done_inv in H. exists config.
    split; [exact H |]. split; [reflexivity | discriminate].
Qed.

End UpdateConfig.

Lemma immutable_args_applied args c : immutable (args_applied args c) = false.
Proof.
  unfold args_applied.
  repeat (rewrite immutable_put_top_if || rewrite immutable_put_if).
  reflexivity.
Qed.

(** C3.  CLI batch-size precedence.  On a configuration that has the groups,
    without a cfg file, [update_config] with batch_size = 32 returns with
    DATA.BATCH_SIZE = 32, and with DATA.BATCH_SIZE_EVAL = 32 when
    batch_size_eval is absent and = 16 when batch_size_eval = 16:
    batch_size is stored in both fields before batch_size_eval overwrites
    the second. *)
Theorem batch_size_precedence
  (literal_eval : string -> literal) (fs : string -> file)
  (fuel : nat) (config : CfgNode) (args : Namespace) :
  has_groups config = true -> args_storable args = true ->
  truthy_path (arg_cfg args) = false ->
  arg_batch_size args = VInt 32 ->
  exists c',
    update_config literal_eval fs fuel config args = Some (c', Done) /\
    lookup ["DATA"; "BATCH_SIZE"] (items c') = Some (VInt 32) /\
    (arg_batch_size_eval args = VNone ->
     lookup ["DATA"; "BATCH_SIZE_EVAL"] (items c') = Some (VInt 32)) /\
    (arg_batch_size_eval args = VInt 16 ->
     lookup ["DATA"; "BATCH_SIZE_EVAL"] (items c') = Some (VInt 16)).
Proof.
  intros Hg Hs Hcfg Hbs. exists (args_applied args config).
  split; [now apply update_config_done |].
  destruct (args_applied_fields args config Hg)
    as (_ & Hb & Hbe & _). cbv beta in Hb, Hbe.
  rewrite Hb, Hbe, Hbs. simpl truthy. cbv iota.
  split; [reflexivity |]. split; intros ->; reflexivity.
Qed.

(** C4.  AMP gating.  On a configuration that has the groups, without a cfg
    file, [update_config] with amp given returns with AMP = not EVAL, for
    the EVAL it has after the eval flag is applied: EVAL = true and
    AMP = false when eval is given; AMP = true when eval is not given and
    the configuration has EVAL = false. *)
Theorem amp_gating
  (literal_eval : string -> literal) (fs : string -> file)
  (fuel : nat) (config : CfgNode) (args : Namespace) :
  has_groups config = true -> args_storable args = true ->
  truthy_path (arg_cfg args) = false ->
  truthy (arg_amp args) = true ->
  exists c',
    update_config literal_eval fs fuel config args = Some (c', Done) /\
    (exists ev, lookup ["EVAL"] (items c') = Some ev /\
                lookup ["AMP"] (items c') = Some (VBool (negb (truthy ev)))) /\
    (truthy (arg_eval args) = true ->
     lookup ["EVAL"] (items c') = Some (VBool true) /\
     lookup ["AMP"] (items c') = Some (VBool false)) /\
    (truthy (arg_eval args) = false ->
     lookup ["EVAL"] (items config) = Some (VBool false) ->
     lookup ["EVAL"] (items c') = Some (VBool false) /\
     lookup ["AMP"] (items c') = Some (VBool true)).
Proof.
  intros Hg Hs Hcfg Hamp. exists (args_applied args config).
  split; [now apply update_config_done |].
  destruct (args_applied_fields args config Hg)
    as (_ & _ & _ & _ & _ & _ & He & _ & _ & _ & Ha). cbv beta in He, Ha.
  rewrite Hamp in Ha. rewrite Ha, He.
  assert (Hold : exists ev, lookup ["EVAL"] (items (defrost config)) = Some ev).
  { destruct (has_groups_group _ Hg) as (_ & _ & _ & Hk).
    unfold has_key in Hk. simpl. rewrite set_immutable_items_get.
    destruct (dict_get "EVAL" (items config)) as [ev |]; [| discriminate].
    now exists (set_immutable false ev). }
  split; [| split].
  - destruct (truthy (arg_eval args)).
    + now exists (VBool true).
    + destruct Hold as [ev Hev]. rewrite Hev. now exists ev.
  - intros ->. now split.
  - intros -> Hev.
    change (items (defrost config))
      with (set_immutable_items false (items config)).
    rewrite (lookup_set_immutable false ["EVAL"] _ _ Hev eq_refl). now split.
Qed.

(** C5 (as amended).  On a configuration that has the groups, without a cfg
    file and with options a configuration can hold, [update_config] returns,
    and each option is stored on its path exactly when it is truthy: an
    option that is None, zero, empty or False leaves its field as it was.
    BATCH_SIZE_EVAL takes batch_size_eval, else batch_size, else stays;
    EVAL becomes True; AMP becomes the negation of the new EVAL. *)
Theorem options_applied_when_truthy
  (literal_eval : string -> literal) (fs : string -> file)
  (fuel : nat) (config : CfgNode) (args : Namespace) :
  has_groups config = true -> args_storable args = true ->
  truthy_path (arg_cfg args) = false ->
  exists c',
    update_config literal_eval fs fuel config args = Some (c', Done) /\
    let old path := lookup path (items (defrost config)) in
    let new path := lookup path (items c') in
    let stored (option : value) path :=
      new path = if truthy option then Some option else old path in
    stored (arg_dataset args) ["DATA"; "DATASET"] /\
    stored (arg_batch_size args) ["DATA"; "BATCH_SIZE"] /\
    new ["DATA"; "BATCH_SIZE_EVAL"] =
      (if truthy (arg_batch_size_eval args) then Some (arg_batch_size_eval args)
       else if truthy (arg_batch_size args) then Some (arg_batch_size args)
       else old ["DATA"; "BATCH_SIZE_EVAL"]) /\
    stored (arg_image_size args) ["DATA"; "IMAGE_SIZE"] /\
    stored (arg_accum_iter args) ["TRAIN"; "ACCUM_ITER"] /\
    stored (arg_data_path args) ["DATA"; "DATA_PATH"] /\
    new ["EVAL"] =
      (if truthy (arg_eval args) then Some (VBool true) else old ["EVAL"]) /\
    stored (arg_pretrained args) ["MODEL"; "PRETRAINED"] /\
    stored (arg_resume args) ["MODEL"; "RESUME"] /\
    stored (arg_last_epoch args) ["TRAIN"; "LAST_EPOCH"] /\
    new ["AMP"] =
      (if truthy (arg_amp args)
       then match new ["EVAL"] with
            | Some ev => Some (VBool (negb (truthy ev)))
            | None => Some VNone
            end
       else old ["AMP"]).
Proof.
  intros Hg Hs Hcfg. exists (args_applied args config).
  split; [now apply update_config_done |].
  exact (args_applied_fields args config Hg).
Qed.

(** ** The flags after [update_config] *)

Lemma leaf_all_immutable flag v : is_cfg v = false -> all_immutable flag v = true.
Proof. destruct v; auto; discriminate. Qed.

Lemma all_immutable_dict_set flag k v d :
  forallb (fun kv => all_immutable flag (snd kv)) d = true ->
  all_immutable flag v = true ->
  forallb (fun kv => all_immutable flag (snd kv)) (dict_set k v d) = true.
Proof.
  intros Hd Hv. induction d as [| [k' v'] r IH]; simpl in *.
  - now rewrite Hv.
  - apply andb_prop in Hd. destruct Hd as [Hv' Hr].
    destruct (k' =? k)%string; simpl.
    + now rewrite Hv, Hr.
    + now rewrite Hv', IH.
Qed.

Lemma all_immutable_put_top_if flag cond n v c :
  all_immutable flag (to_value c) = true -> all_immutable flag v = true ->
  all_immutable flag (to_value (put_top_if cond n v c)) = true.
Proof.
  unfold put_top_if. destruct cond; [| auto].
  unfold to_value. simpl immutable. simpl items.
  rewrite !all_immutable_cfg. intros H Hv.
  apply andb_prop in H. destruct H as [Hf Hd]. rewrite Hf. simpl.
  now apply all_immutable_dict_set.
Qed.

Lemma all_immutable_put_if flag cond g n v c :
  all_immutable flag (to_value c) = true -> all_immutable flag v = true ->
  all_immutable flag (to_value (put_if cond g n v c)) = true.
Proof.
  unfold put_if. destruct cond; [| auto].
  destruct (dict_get g (items c)) as [[] |] eqn:Hg; auto.
  intros H Hv.
  apply (all_immutable_put_top_if flag true g _ c H).
  unfold to_value in H. rewrite all_immutable_cfg in H.
  apply andb_prop in H. destruct H as [_ Hd].
  rewrite forallb_forall in Hd.
  pose proof (Hd _ (dict_get_in _ _ _ Hg)) as Hgroup. cbn [snd] in Hgroup.
  rewrite all_immutable_cfg in Hgroup |- *.
  apply andb_prop in Hgroup. destruct Hgroup as [Hf Hk]. rewrite Hf. simpl.
  now apply all_immutable_dict_set.
Qed.

(** Where no option is a node, the configuration [update_config] returns
    has no frozen node. *)
Lemma args_applied_all_mutable args c :
  options_are_leaves args = true ->
  all_immutable false (to_value (args_applied args c)) = true.
Proof.
  unfold options_are_leaves, stored_options. simpl forallb. intros H.
  repeat (apply andb_prop in H; let Hv := fresh "Hv" in destruct H as [Hv H]).
  repeat match goal with
         | Hv : negb (is_cfg _) = true |- _ =>
             apply negb_true_iff, (leaf_all_immutable false) in Hv
         end.
  unfold args_applied.
  apply all_immutable_put_top_if;
    [| unfold not_eval; now destruct (dict_get "EVAL" _)].
  repeat first [ apply all_immutable_put_top_if; [| reflexivity]
               | apply all_immutable_put_if; [| assumption] ].
  apply defrost_all_mutable.
Qed.

Lemma groups_mutable_defrost c : groups_mutable (defrost c).
Proof.
  intros g. unfold is_group, mutable_group, defrost. simpl items.
  rewrite set_immutable_items_get.
  destruct (dict_get g (items c)) as [v |]; [| discriminate].
  destruct v; simpl; auto.
Qed.

Lemma groups_mutable_put_if cond g n v c :
  groups_mutable c -> groups_mutable (put_if cond g n v c).
Proof.
  intros H g'. rewrite is_group_put_if, mutable_group_put_if. apply H.
Qed.

Lemma groups_mutable_put_top_if cond n v c :
  is_cfg v = false -> groups_mutable c -> groups_mutable (put_top_if cond n v c).
Proof.
  intros Hv H g. unfold is_group, mutable_group.
  rewrite dict_get_put_top_if.
  destruct (cond && (n =? g)%string).
  - destruct v; try discriminate.
  - apply H.
Qed.

Lemma args_applied_groups_mutable args c : groups_mutable (args_applied args c).
Proof.
  unfold args_applied.
  apply groups_mutable_put_top_if;
    [unfold not_eval; now destruct (dict_get "EVAL" _) |].
  repeat first [ apply groups_mutable_put_top_if; [reflexivity |]
               | apply groups_mutable_put_if ].
  apply groups_mutable_defrost.
Qed.

(** C9.  Freeze-state asymmetry.  A call of [_update_config_from_file] that
    returns leaves every node of the configuration frozen: an assignment to
    it raises.  A call of [update_config] that returns leaves the
    configuration and every group of it unfrozen: an assignment to a field
    of a group goes through; and no node at all is frozen, the options
    being values of the command line and not nodes. *)
Theorem freeze_state_asymmetry
  (literal_eval : string -> literal) (fs : string -> file) :
  (forall fuel cfg_file config merged,
      _update_config_from_file literal_eval fs fuel cfg_file config
        = Some (merged, Done) ->
      is_frozen merged = true /\ all_immutable true (to_value merged) = true /\
      (forall name v,
          setattr name v merged = (merged, Raise (AttributeError name)))) /\
  (forall fuel config args updated,
      update_config literal_eval fs fuel config args = Some (updated, Done) ->
      is_frozen updated = false /\
      (forall group, is_group group updated = true ->
                     mutable_group group updated = true) /\
      (forall group name v,
          is_group group updated = true -> internal name = false ->
          storable v = true ->
          setattr_in group name v updated
          = (put_if true group name v updated, Done)) /\
      (options_are_leaves args = true ->
       all_immutable false (to_value updated) = true)).
Proof.
  split.
  - intros fuel cfg_file config merged Hm.
    assert (Hf : is_frozen merged = true /\
                 all_immutable true (to_value merged) = true).
    { destruct fuel as [| fuel]; [discriminate |].
      rewrite update_unfold in Hm.
      destruct (fs cfg_file) as [| | doc]; try discriminate.
      destruct (as_mapping doc) as [kvs |]; [| discriminate].
      destruct (base_entries kvs) as [entries |]; [| discriminate].
      destruct (update_bases _ _ entries _) as [[c1 [| e]] |]; try discriminate.
      destruct (merge_from_file literal_eval fs cfg_file c1) as [c2 [| e]];
        try discriminate.
      injection Hm as <-. split; [reflexivity | apply freeze_all_immutable]. }
    destruct Hf as [Hf Hall]. split; [exact Hf |]. split; [exact Hall |].
    intros name v. unfold setattr. now rewrite Hf.
  - intros fuel config args updated Hu.
    apply update_config_done_inv in Hu. destruct Hu as [m [-> _]].
    split; [apply immutable_args_applied |].
    split; [apply args_applied_groups_mutable |].
    split; [| apply args_applied_all_mutable].
    intros group name v Hg Hn Hv.
    apply setattr_in_done; [| exact Hn | exact Hv].
    now apply args_applied_groups_mutable.
Qed.

(** ** The theorems at concrete inputs *)

Lemma unique_keys_c_yaml : unique_keys c_yaml.
Proof.
  simpl. repeat split; repeat constructor; simpl; intuition discriminate.
Qed.

Lemma unique_keys_d_yaml : unique_keys d_yaml.
Proof.
  simpl. repeat split; repeat constructor; simpl; intuition discriminate.
Qed.

Lemma unique_keys_b_yaml : unique_keys b_yaml.
Proof.
  simpl. repeat split; repeat constructor; simpl; intuition discriminate.
Qed.

Lemma coerced_int n w : coerced (VInt n) w -> w = VInt n.
Proof. intros [-> | [[xs [H _]] | [xs [H _]]]]; [reflexivity | discriminate ..]. Qed.

(** d.yaml over the defaults, with the bases resume.yaml and b.yaml, which
    is based on a.yaml: the files are merged in the order resume.yaml,
    a.yaml, b.yaml, d.yaml.  The batch size is that of b.yaml, which is
    merged after a.yaml; the last epoch of resume.yaml and the seed of
    d.yaml are what no later file sets. *)
Lemma base_chain_witness :
  spec_merge_order example_fs 3 "/cfgs/d.yaml"
    = Some ["/cfgs/resume.yaml"; "/cfgs/a.yaml"; "/cfgs/b.yaml"; "/cfgs/d.yaml"] /\
  lookup ["DATA"; "BATCH_SIZE"] [("DATA", VDict [("BATCH_SIZE", VInt 8)])]
    = Some (VInt 8) /\
  (exists c',
      _update_config_from_file literal_eval_atoms example_fs 3 "/cfgs/d.yaml" _C
        = Some (c', Done) /\
      lookup ["DATA"; "BATCH_SIZE"] (items c') = Some (VInt 16) /\
      lookup ["SEED"] (items c') = Some (VInt 3)) /\
  spec_merge_order example_fs 3 "/cfgs/c.yaml"
    = Some ["/cfgs/a.yaml"; "/cfgs/b.yaml"; "/cfgs/c.yaml"] /\
  exists c',
    _update_config_from_file literal_eval_atoms example_fs 3 "/cfgs/c.yaml" _C
      = Some (c', Done) /\
    lookup ["DATA"; "BATCH_SIZE"] (items c') = Some (VInt 32).
Proof.
  split; [reflexivity |]. split; [reflexivity |].
  split; [| split; [reflexivity |]].
  2:{ assert (H := base_chain_is_sequential_merge literal_eval_atoms example_fs
                     3 "/cfgs/c.yaml"
                     ["/cfgs/a.yaml"; "/cfgs/b.yaml"; "/cfgs/c.yaml"] _C
                     eq_refl).
      cbv zeta in H. destruct H as [[c' (Hrun & _ & Hdone)] _].
      assert (Hseq : snd (merge_all literal_eval_atoms example_fs
                            ["/cfgs/a.yaml"; "/cfgs/b.yaml"; "/cfgs/c.yaml"] _C)
                     = Done) by (vm_compute; reflexivity).
      rewrite Hseq in Hrun. destruct (Hdone Hseq) as [_ Hwins].
      exists c'. split; [exact Hrun |].
      destruct (Hwins ["/cfgs/a.yaml"; "/cfgs/b.yaml"] "/cfgs/c.yaml" []
                  c_yaml _ ["DATA"; "BATCH_SIZE"] (VInt 32)
                  eq_refl eq_refl eq_refl unique_keys_c_yaml eq_refl eq_refl)
        as (d & w & Hd & Hw & Hc).
      - intros g d0 k [].
      - injection Hd as <-. apply coerced_int in Hc. now subst w. }
  assert (H := base_chain_is_sequential_merge literal_eval_atoms example_fs 3
                 "/cfgs/d.yaml"
                 ["/cfgs/resume.yaml"; "/cfgs/a.yaml"; "/cfgs/b.yaml";
                  "/cfgs/d.yaml"] _C eq_refl).
  cbv zeta in H. destruct H as [[c' (Hrun & _ & Hdone)] _].
  assert (Hseq : snd (merge_all literal_eval_atoms example_fs
                        ["/cfgs/resume.yaml"; "/cfgs/a.yaml"; "/cfgs/b.yaml";
                         "/cfgs/d.yaml"] _C) = Done)
    by (vm_compute; reflexivity).
  rewrite Hseq in Hrun. destruct (Hdone Hseq) as [_ Hwins].
  exists c'. split; [exact Hrun |]. split.
  - destruct (Hwins ["/cfgs/resume.yaml"; "/cfgs/a.yaml"] "/cfgs/b.yaml"
                ["/cfgs/d.yaml"] b_yaml _ ["DATA"; "BATCH_SIZE"] (VInt 16)
                eq_refl eq_refl eq_refl unique_keys_b_yaml eq_refl eq_refl)
      as (d & w & Hd & Hw & Hc).
    + intros g d0 k [<- | []] Hd0 Hk. vm_compute in Hd0.
      injection Hd0 as <-. injection Hk as <-. reflexivity.
    + injection Hd as <-. apply coerced_int in Hc. now subst w.
  - destruct (Hwins ["/cfgs/resume.yaml"; "/cfgs/a.yaml"; "/cfgs/b.yaml"]
                "/cfgs/d.yaml" [] d_yaml _ ["SEED"] (VInt 3)
                eq_refl eq_refl eq_refl unique_keys_d_yaml eq_refl eq_refl)
      as (d & w & Hd & Hw & Hc).
    + intros g d0 k [].
    + injection Hd as <-. apply coerced_int in Hc. now subst w.
Defined.



Lemma batch_size_precedence_witness :
  (exists c',
     update_config literal_eval_atoms example_fs 0 _C
       (with_batch_size (VInt 32) VNone) = Some (c', Done) /\
     lookup ["DATA"; "BATCH_SIZE"] (items c') = Some (VInt 32) /\
     lookup ["DATA"; "BATCH_SIZE_EVAL"] (items c') = Some (VInt 32)) /\
  (exists c',
     update_config literal_eval_atoms example_fs 0 _C
       (with_batch_size (VInt 32) (VInt 16)) = Some (c', Done) /\
     lookup ["DATA"; "BATCH_SIZE"] (items c') = Some (VInt 32) /\
     lookup ["DATA"; "BATCH_SIZE_EVAL"] (items c') = Some (VInt 16)).
Proof.
  split.
  - destruct (batch_size_precedence literal_eval_atoms example_fs 0 _C
                (with_batch_size (VInt 32) VNone)
                eq_refl eq_refl eq_refl eq_refl) as [c' (H1 & H2 & H3 & _)].
    exists c'. repeat split; auto.
  - destruct (batch_size_precedence literal_eval_atoms example_fs 0 _C
                (with_batch_size (VInt 32) (VInt 16))
                eq_refl eq_refl eq_refl eq_refl) as [c' (H1 & H2 & _ & H4)].
    exists c'. repeat split; auto.
Defined.

Lemma amp_gating_witness :
  (exists c',
     update_config literal_eval_atoms example_fs 0 _C
       (with_flags (VBool true) (VBool true)) = Some (c', Done) /\
     lookup ["EVAL"] (items c') = Some (VBool true) /\
     lookup ["AMP"] (items c') = Some (VBool false)) /\
  (exists c',
     update_config literal_eval_atoms example_fs 0 _C
       (with_flags (VBool false) (VBool true)) = Some (c', Done) /\
     lookup ["AMP"] (items c') = Some (VBool true)).
Proof.
  split.
  - destruct (amp_gating literal_eval_atoms example_fs 0 _C
                (with_flags (VBool true) (VBool true))
                eq_refl eq_refl eq_refl eq_refl) as [c' (H1 & _ & H2 & _)].
    exists c'. destruct (H2 eq_refl). auto.
  - destruct (amp_gating literal_eval_atoms example_fs 0 _C
                (with_flags (VBool false) (VBool true))
                eq_refl eq_refl eq_refl eq_refl) as [c' (H1 & _ & _ & H3)].
    exists c'. destruct (H3 eq_refl eq_refl). auto.
Defined.

(** C5, counterexample.  [-cfg /cfgs/resume.yaml -last_epoch 0]: the file
    sets TRAIN.LAST_EPOCH = 5, the option last_epoch is present with the
    value 0, and the run returns with TRAIN.LAST_EPOCH = 5: the option was
    not applied. *)
Lemma last_epoch_zero_is_not_applied :
  arg_last_epoch resume_from_zero = VInt 0 /\
  exists c',
    update_config literal_eval_atoms example_fs 1 (clone _C) resume_from_zero
      = Some (c', Done) /\
    lookup ["TRAIN"; "LAST_EPOCH"] (items c') = Some (VInt 5).
Proof.
  split; [reflexivity |]. eexists. split; reflexivity.
Qed.

Lemma options_applied_when_truthy_witness :
  exists c',
    update_config literal_eval_atoms example_fs 0 _C
      (with_batch_size (VInt 32) (VInt 0)) = Some (c', Done) /\
    lookup ["DATA"; "BATCH_SIZE"] (items c') = Some (VInt 32) /\
    lookup ["DATA"; "BATCH_SIZE_EVAL"] (items c') = Some (VInt 32) /\
    lookup ["TRAIN"; "LAST_EPOCH"] (items c') = Some (VInt 0).
Proof.
  destruct (options_applied_when_truthy literal_eval_atoms example_fs 0 _C
              (with_batch_size (VInt 32) (VInt 0)) eq_refl eq_refl eq_refl)
    as [c' [H1 H2]].
  cbv zeta in H2.
  destruct H2 as (_ & Hb & Hbe & _ & _ & _ & _ & _ & _ & Hl & _).
  exists c'. repeat split; assumption.
Defined.

Lemma freeze_state_asymmetry_witness :
  _update_config_from_file literal_eval_atoms example_fs 1 "/cfgs/a.yaml" _C
    = Some (a_merged, Done) /\
  update_config literal_eval_atoms example_fs 0 a_merged no_args
    = Some (a_updated, Done) /\
  all_immutable true (to_value a_merged) = true /\
  all_immutable false (to_value a_updated) = true /\
  mutable_group "DATA" a_updated = true.
Proof.
  assert (H1 : _update_config_from_file literal_eval_atoms example_fs 1
                 "/cfgs/a.yaml" _C = Some (a_merged, Done)) by reflexivity.
  assert (H2 : update_config literal_eval_atoms example_fs 0 a_merged no_args
               = Some (a_updated, Done)) by reflexivity.
  destruct (freeze_state_asymmetry literal_eval_atoms example_fs) as [Hm Hu].
  destruct (Hm _ _ _ _ H1) as (_ & Hfrozen & _).
  destruct (Hu _ _ _ _ H2) as (_ & Hgroups & _ & Hall).
  split; [exact H1 |]. split; [exact H2 |]. split; [exact Hfrozen |].
  split; [exact (Hall eq_refl) | exact (Hgroups "DATA" eq_refl)].
Defined.

(** ** Fields no file and no option sets *)

Section KeptFields.

Variable literal_eval : string -> literal.
Variable fs : string -> file.

Local Notation "'update'" := (_update_config_from_file literal_eval fs).

Lemma merge_file_keeps f c path :
  never_mentions fs path ->
  lookup path (items (fst (merge_from_file literal_eval fs f c))) =
  lookup path (items c).
Proof.
  intros Hnm. apply merge_file_frame. intros doc kvs. apply Hnm.
Qed.

(** A leaf on a key path that no file has an entry on is still there when
    [_update_config_from_file] ends, however it ends. *)
Lemma update_keeps_leaf path w :
  never_mentions fs path -> is_cfg w = false ->
  forall fuel f c c' o,
    lookup path (items c) = Some w ->
    update fuel f c = Some (c', o) -> lookup path (items c') = Some w.
Proof.
  intros Hnm Hw. induction fuel as [| fuel IH]; intros f c c' o Hl;
    [discriminate |].
  rewrite update_unfold.
  assert (Hd : lookup path (items (defrost c)) = Some w)
    by (now apply lookup_set_immutable).
  destruct (fs f) as [| | doc]; try (now intros [= <- <-]).
  destruct (as_mapping doc) as [kvs |]; [| now intros [= <- <-]].
  destruct (base_entries kvs) as [entries |]; [| now intros [= <- <-]].
  assert (Hb : forall c1 c2 o2,
             lookup path (items c1) = Some w ->
             update_bases (update fuel) f entries c1 = Some (c2, o2) ->
             lookup path (items c2) = Some w).
  { clear Hl Hd. induction entries as [| cfg rest IHe]; intros c1 c2 o2 Hl1;
      simpl.
    - now intros [= <- <-].
    - destruct (truthy cfg); [| now apply IHe].
      destruct cfg; try (now intros [= <- <-]).
      destruct (update fuel _ c1) as [[c3 [| e]] |] eqn:Hrun; try discriminate.
      + apply (IH _ _ _ _ Hl1) in Hrun. now apply IHe.
      + intros [= <- <-]. now apply (IH _ _ _ _ Hl1) in Hrun. }
  destruct (update_bases _ _ entries (defrost c)) as [[c1 [| e]] |] eqn:Hrun;
    try discriminate.
  - apply (Hb _ _ _ Hd) in Hrun.
    pose proof (merge_file_keeps f c1 path Hnm) as Hm.
    destruct (merge_from_file literal_eval fs f c1) as [c2 [| e]];
      simpl in Hm; intros [= <- <-].
    + apply lookup_set_immutable; congruence.
    + congruence.
  - intros [= <- <-]. now apply (Hb _ _ _ Hd) in Hrun.
Qed.

End KeptFields.

Lemma put_if_false g n v c : put_if false g n v c = c.
Proof. reflexivity. Qed.

Lemma args_applied_keeps_batch_size_eval args c :
  truthy (arg_batch_size args) = false ->
  truthy (arg_batch_size_eval args) = false ->
  lookup ["DATA"; "BATCH_SIZE_EVAL"] (items (args_applied args c)) =
  lookup ["DATA"; "BATCH_SIZE_EVAL"] (items (defrost c)).
Proof.
  intros Hbs Hbse. unfold args_applied. rewrite Hbs, Hbse, !put_if_false.
  repeat first [ rewrite lookup_field_put_if_other by reflexivity
               | rewrite lookup_field_put_top_if by reflexivity ].
  reflexivity.
Qed.

Lemma args_applied_keeps_batch_size args c :
  truthy (arg_batch_size args) = false ->
  lookup ["DATA"; "BATCH_SIZE"] (items (args_applied args c)) =
  lookup ["DATA"; "BATCH_SIZE"] (items (defrost c)).
Proof.
  intros Hbs. unfold args_applied. rewrite Hbs, !put_if_false.
  repeat first [ rewrite lookup_field_put_if_other by reflexivity
               | rewrite lookup_field_put_top_if by reflexivity ].
  reflexivity.
Qed.

(** What a run leaves of a default leaf that no file has an entry on and no
    option writes: [get_config], then [update_config]. *)
Lemma run_keeps_default literal_eval fs fuel fuel' cfg_file args config c' path w :
  never_mentions fs path -> is_cfg w = false ->
  lookup path (items _C) = Some w ->
  (forall merged,
      lookup path (items (args_applied args merged)) =
      lookup path (items (defrost merged))) ->
  get_config literal_eval fs fuel cfg_file = Some (config, Done) ->
  update_config literal_eval fs fuel' config args = Some (c', Done) ->
  lookup path (items c') = Some w.
Proof.
  intros Hnm Hw Hdef Hargs Hget Hupd.
  assert (Hconfig : lookup path (items config) = Some w).
  { unfold get_config, clone in Hget. destruct cfg_file as [p |].
    - destruct (truthy_path (Some p)).
      + now apply (update_keeps_leaf literal_eval fs path w Hnm Hw _ _ _ _ _ Hdef)
          in Hget.
      + now injection Hget as <-.
    - now injection Hget as <-. }
  apply update_config_done_inv in Hupd.
  destruct Hupd as [merged [-> [Hnone Hsome]]].
  rewrite Hargs. apply lookup_set_immutable; [| exact Hw].
  destruct (arg_cfg args) as [p |] eqn:Hcfg.
  - destruct (truthy_path (Some p)) eqn:Hp.
    + specialize (Hsome p eq_refl Hp).
      now apply (update_keeps_leaf literal_eval fs path w Hnm Hw _ _ _ _ _ Hconfig)
        in Hsome.
    + now rewrite (Hnone eq_refl).
  - now rewrite (Hnone eq_refl).
Qed.

(** C10.  DATA.BATCH_SIZE_EVAL defaults to None, not to the train batch
    size of 64.  In every run ([get_config], then [update_config]) that
    returns, where no file has an entry for DATA.BATCH_SIZE_EVAL and neither
    batch_size nor batch_size_eval is given, the final configuration has
    DATA.BATCH_SIZE_EVAL = None; it has DATA.BATCH_SIZE = 64 where no file
    sets that either.  Without files such a run does return. *)
Theorem default_batch_size_eval_is_none
  (literal_eval : string -> literal) (fs : string -> file)
  (fuel fuel' : nat) (cfg_file : option string) (args : Namespace)
  (config final : CfgNode) :
  never_mentions fs ["DATA"; "BATCH_SIZE_EVAL"] ->
  truthy (arg_batch_size args) = false ->
  truthy (arg_batch_size_eval args) = false ->
  get_config literal_eval fs fuel cfg_file = Some (config, Done) ->
  update_config literal_eval fs fuel' config args = Some (final, Done) ->
  lookup ["DATA"; "BATCH_SIZE_EVAL"] (items _C) = Some VNone /\
  lookup ["DATA"; "BATCH_SIZE"] (items _C) = Some (VInt 64) /\
  lookup ["DATA"; "BATCH_SIZE_EVAL"] (items final) = Some VNone /\
  (never_mentions fs ["DATA"; "BATCH_SIZE"] ->
   lookup ["DATA"; "BATCH_SIZE"] (items final) = Some (VInt 64)) /\
  (truthy_path cfg_file = false -> truthy_path (arg_cfg args) = false ->
   args_storable args = true ->
   config = clone _C /\ final = args_applied args (clone _C)).
Proof.
  intros Hnm Hbs Hbse Hget Hupd.
  split; [reflexivity |]. split; [reflexivity |]. split; [| split].
  - apply (run_keeps_default literal_eval fs fuel fuel' cfg_file args config
             final ["DATA"; "BATCH_SIZE_EVAL"] VNone Hnm eq_refl eq_refl);
      auto using args_applied_keeps_batch_size_eval.
  - intros Hnm'.
    apply (run_keeps_default literal_eval fs fuel fuel' cfg_file args config
             final ["DATA"; "BATCH_SIZE"] (VInt 64) Hnm' eq_refl eq_refl);
      auto using args_applied_keeps_batch_size.
  - intros Hf Ha Hs.
    assert (Hc : config = clone _C).
    { unfold get_config in Hget. destruct cfg_file as [p |].
      - rewrite Hf in Hget. now injection Hget as <-.
      - now injection Hget as <-. }
    split; [exact Hc |]. subst config.
    rewrite update_config_done in Hupd by (auto; reflexivity).
    now injection Hupd as <-.
Qed.

Lemma example_fs_never_sets_batch_size_eval :
  never_mentions example_fs ["DATA"; "BATCH_SIZE_EVAL"].
Proof.
  intros f doc kvs. unfold example_fs.
  repeat match goal with
         | |- context [if ?b then _ else _] => destruct b
         end; try discriminate; intros [= <-] [= <-]; reflexivity.
Qed.

Lemma default_batch_size_eval_witness :
  get_config literal_eval_atoms example_fs 1 (Some "/cfgs/a.yaml")
    = Some (a_merged, Done) /\
  update_config literal_eval_atoms example_fs 0 a_merged no_args
    = Some (a_updated, Done) /\
  lookup ["DATA"; "BATCH_SIZE"] (items a_updated) = Some (VInt 8) /\
  lookup ["DATA"; "BATCH_SIZE_EVAL"] (items a_updated) = Some VNone.
Proof.
  assert (H1 : get_config literal_eval_atoms example_fs 1 (Some "/cfgs/a.yaml")
               = Some (a_merged, Done)) by reflexivity.
  assert (H2 : update_config literal_eval_atoms example_fs 0 a_merged no_args
               = Some (a_updated, Done)) by reflexivity.
  split; [exact H1 |]. split; [exact H2 |]. split; [reflexivity |].
  exact (proj1 (proj2 (proj2
    (default_batch_size_eval_is_none literal_eval_atoms example_fs 1 0
       (Some "/cfgs/a.yaml") no_args a_merged a_updated
       example_fs_never_sets_batch_size_eval eq_refl eq_refl H1 H2)))).
Defined.

(** ** [get_config] *)

Section GetConfig.

Variable literal_eval : string -> literal.
Variable fs : string -> file.

(** Where [_update_config_from_file] returns, line 131 has frozen every
    node. *)
Lemma update_done_frozen fuel cfg_file config merged :
  _update_config_from_file literal_eval fs fuel cfg_file config
    = Some (merged, Done) ->
  is_frozen merged = true /\ all_immutable true (to_value merged) = true.
Proof.
  intros Hm. destruct fuel as [| fuel]; [discriminate |].
  rewrite update_unfold in Hm.
  destruct (fs cfg_file) as [| | doc]; try discriminate.
  destruct (as_mapping doc) as [kvs |]; [| discriminate].
  destruct (base_entries kvs) as [entries |]; [| discriminate].
  destruct (update_bases _ _ entries _) as [[c1 [| e]] |]; try discriminate.
  destruct (merge_from_file literal_eval fs cfg_file c1) as [c2 [| e]];
    try discriminate.
  injection Hm as <-. split; [reflexivity | apply freeze_all_immutable].
Qed.


End GetConfig.




(** ** Merging a configuration's own values *)











(** The types of the leaves *)





Section RoundTrip.

Variable literal_eval : string -> literal.

Local Notation "'merge'" := (merge_a_into_b literal_eval).
Local Notation "'decode'" := (decode_cfg_value literal_eval).






End RoundTrip.






(** ** Clones in the store *)

Module StoreFacts.

Import Store.
Local Open Scope nat_scope.

Lemma all_some_ext {A B : Type} (f g : A -> option B) l :
  (forall x, In x l -> f x = g x) -> all_some f l = all_some g l.
Proof.
  induction l as [| x r IH]; simpl; intros H; [reflexivity |].
  rewrite (H x (or_introl eq_refl)), IH; auto.
Qed.

Lemma all_some_in {A B : Type} (f : A -> option B) l ys :
  all_some f l = Some ys -> forall x, In x l -> exists y, f x = Some y.
Proof.
  revert ys. induction l as [| x r IH]; simpl; intros ys H z Hz; [contradiction |].
  destruct (f x) as [y |] eqn:Hx; [| discriminate].
  destruct (all_some f r) as [ys' |]; [| discriminate].
  destruct Hz as [<- | Hz]; eauto.
Qed.

Lemma flat_map_ext_in {A B : Type} (f g : A -> list B) l :
  (forall x, In x l -> f x = g x) -> flat_map f l = flat_map g l.
Proof.
  induction l as [| x r IH]; simpl; intros H; [reflexivity |].
  rewrite (H x (or_introl eq_refl)), IH; auto.
Qed.

Section Items.

Context {A B : Type} (c : container A B).

Lemma read_items_ext f g l :
  (forall x, In x l -> f (item c x) = g (item c x)) ->
  read_items c f l = read_items c g l.
Proof.
  intros H. apply all_some_ext. intros x Hx. now rewrite (H x Hx).
Qed.

Lemma read_items_in f l ts :
  read_items c f l = Some ts ->
  forall x, In x l -> exists t, f (item c x) = Some t.
Proof.
  intros H x Hx. destruct (all_some_in _ _ _ H x Hx) as [y Hy].
  destruct (f (item c x)) as [t |]; [now exists t | discriminate].
Qed.

Lemma reach_items_in f l a :
  In a (reach_items c f l) <-> exists x, In x l /\ In a (f (item c x)).
Proof. apply in_flat_map. Qed.

Lemma reach_items_ext f g l :
  (forall x, In x l -> f (item c x) = g (item c x)) ->
  reach_items c f l = reach_items c g l.
Proof. intros H. now apply flat_map_ext_in. Qed.

End Items.

(** The value read from a reference depends on the objects the reading goes
    through, and on nothing else in the store. *)
Lemma read_agree n : forall h h' r,
  (forall l, In l (reach n h r) -> nth_error h' l = nth_error h l) ->
  read n h' r = read n h r.
Proof.
  induction n as [| n IH]; intros h h' r H; [reflexivity |].
  destruct r; simpl; try reflexivity.
  - f_equal. apply read_items_ext. intros x Hx. apply IH.
    intros l Hl. apply H. simpl. apply reach_items_in. eauto.
  - simpl in H. rewrite (H l (or_introl eq_refl)).
    destruct (nth_error h l) as [[xs | kvs | fl kvs] |]; auto; f_equal;
      apply read_items_ext; intros x Hx; apply IH;
      intros a Ha; apply H; right; apply reach_items_in; eauto.
Qed.

Lemma reach_agree n : forall h h' r,
  (forall l, In l (reach n h r) -> nth_error h' l = nth_error h l) ->
  reach n h' r = reach n h r.
Proof.
  induction n as [| n IH]; intros h h' r H; [reflexivity |].
  destruct r; simpl; try reflexivity.
  - apply reach_items_ext. intros x Hx. apply IH.
    intros l Hl. apply H. simpl. apply reach_items_in. eauto.
  - simpl in H. rewrite (H l (or_introl eq_refl)). f_equal.
    destruct (nth_error h l) as [[xs | kvs | fl kvs] |]; auto;
      apply reach_items_ext; intros x Hx; apply IH;
      intros a Ha; apply H; right; apply reach_items_in; eauto.
Qed.

(** A reading that gives a value stays within the store. *)
Lemma reach_bound n : forall h r t,
  read n h r = Some t -> forall l, In l (reach n h r) -> l < List.length h.
Proof.
  induction n as [| n IH]; intros h r t Hr l Hl; [contradiction |].
  assert (Hitems : forall A B (c : container A B) (xs : list A) ts,
             read_items c (read n h) xs = Some ts ->
             In l (reach_items c (reach n h) xs) -> l < List.length h).
  { intros A B c xs ts Hts Hin. apply reach_items_in in Hin.
    destruct Hin as [x [Hx Hlx]].
    destruct (read_items_in c _ _ _ Hts x Hx) as [u Hu]. eauto. }
  destruct r; simpl in Hr, Hl; try contradiction.
  - destruct (read_items elems (read n h) xs) eqn:E; [eauto | discriminate].
  - destruct (nth_error h l0) as [o |] eqn:Hn; [| discriminate].
    destruct Hl as [<- | Hl].
    + apply nth_error_Some. congruence.
    + destruct o as [xs | kvs | fl kvs].
      * destruct (read_items elems (read n h) xs) eqn:E; [eauto | discriminate].
      * destruct (read_items entries (read n h) kvs) eqn:E; [eauto | discriminate].
      * destruct (read_items entries (read n h) kvs) eqn:E; [eauto | discriminate].
Qed.

(** New objects change no value that could be read before. *)
Lemma read_extend n h ext r t :
  read n h r = Some t -> read n (h ++ ext)%list r = Some t.
Proof.
  intros H. rewrite <- H. apply read_agree. intros l Hl.
  apply nth_error_app1. now apply (reach_bound n h r t).
Qed.

Lemma reach_extend n h ext r t :
  read n h r = Some t -> reach n (h ++ ext)%list r = reach n h r.
Proof.
  intros H. apply reach_agree. intros l Hl.
  apply nth_error_app1. now apply (reach_bound n h r t).
Qed.

Section CopyItems.

Context {A B : Type} (c : container A B).

Hypothesis item_with_item : forall x x', item c (with_item c x x') = x'.
Hypothesis holding_with_item :
  forall x x' y, holding c (with_item c x x') y = holding c x y.

Variable n : nat.

Hypothesis deepcopy_copied : forall h r t,
  read n h r = Some t ->
  exists h' r', deepcopy n h r = Some (h', r') /\ copied n h t h' r'.

Lemma copy_items_copied : forall (l : list A) h ts,
  read_items c (read n h) l = Some ts ->
  exists h' l',
    copy_items c (fun h x => deepcopy n h x) h l = Some (h', l') /\
    (exists ext, h' = (h ++ ext)%list) /\
    read_items c (read n h') l' = Some ts /\
    (forall a, In a (reach_items c (reach n h') l') -> List.length h <= a).
Proof.
  induction l as [| x r IH]; intros h ts Hts.
  - exists h, []. simpl. split; [reflexivity |]. split.
    + exists []. now rewrite app_nil_r.
    + split; [exact Hts | contradiction].
  - unfold read_items in Hts. simpl in Hts.
    destruct (read n h (item c x)) as [t |] eqn:Hx; [| discriminate].
    simpl in Hts.
    destruct (all_some _ r) as [ts' |] eqn:Hr; [| discriminate].
    injection Hts as <-.
    destruct (deepcopy_copied h (item c x) t Hx)
      as [h1 [x' [Hcopy [[e1 ->] [Hread1 Hnew1]]]]].
    assert (Hr1 : read_items c (read n (h ++ e1)%list) r = Some ts').
    { unfold read_items. rewrite <- Hr. apply all_some_ext. intros y Hy.
      destruct (all_some_in _ _ _ Hr y Hy) as [u Hu].
      destruct (read n h (item c y)) as [v |] eqn:Hv; [| discriminate].
      now rewrite (read_extend n h e1 _ v Hv). }
    destruct (IH (h ++ e1)%list ts' Hr1)
      as [h2 [r' [Hcopies [[e2 ->] [Hread2 Hnew2]]]]].
    exists ((h ++ e1) ++ e2)%list, (with_item c x x' :: r').
    simpl. rewrite Hcopy, Hcopies. split; [reflexivity |]. split.
    + exists (e1 ++ e2)%list. now rewrite app_assoc.
    + split.
      * unfold read_items. simpl. rewrite item_with_item.
        rewrite (read_extend n _ e2 _ t Hread1). simpl.
        unfold read_items in Hread2. rewrite Hread2.
        now rewrite holding_with_item.
      * intros a Ha. unfold reach_items in Ha. simpl in Ha.
        apply in_app_or in Ha. destruct Ha as [Ha | Ha].
        -- rewrite item_with_item in Ha.
           rewrite (reach_extend n _ e2 _ t Hread1) in Ha. auto.
        -- apply Hnew2 in Ha. rewrite length_app in Ha. lia.
Qed.

End CopyItems.

Lemma nth_error_last {A : Type} (l : list A) (x : A) :
  nth_error (l ++ [x]) (List.length l) = Some x.
Proof.
  rewrite nth_error_app2 by lia. now rewrite Nat.sub_diag.
Qed.

Lemma read_tuple n h xs :
  read (S n) h (RTuple xs) = option_map VTuple (read_items elems (read n h) xs).
Proof. reflexivity. Qed.

Lemma read_ref n h l :
  read (S n) h (RRef l) =
  match nth_error h l with
  | Some (OList xs) => option_map VList (read_items elems (read n h) xs)
  | Some (ODict kvs) => option_map VDict (read_items entries (read n h) kvs)
  | Some (OCfg fl kvs) => option_map (VCfg fl) (read_items entries (read n h) kvs)
  | None => None
  end.
Proof. reflexivity. Qed.

Lemma reach_tuple n h xs :
  reach (S n) h (RTuple xs) = reach_items elems (reach n h) xs.
Proof. reflexivity. Qed.

Lemma reach_ref n h l :
  reach (S n) h (RRef l) =
  l :: match nth_error h l with
       | Some (OList xs) => reach_items elems (reach n h) xs
       | Some (ODict kvs) | Some (OCfg _ kvs) =>
           reach_items entries (reach n h) kvs
       | None => []
       end.
Proof. reflexivity. Qed.

Lemma deepcopy_tuple n h xs :
  deepcopy (S n) h (RTuple xs) =
  match copy_items elems (fun h x => deepcopy n h x) h xs with
  | Some (h', xs') => Some (h', RTuple xs')
  | None => None
  end.
Proof. reflexivity. Qed.

Lemma deepcopy_ref n h l :
  deepcopy (S n) h (RRef l) =
  match nth_error h l with
  | Some (OList xs) =>
      match copy_items elems (fun h x => deepcopy n h x) h xs with
      | Some (h', xs') => Some ((h' ++ [OList xs'])%list, RRef (List.length h'))
      | None => None
      end
  | Some (ODict kvs) =>
      match copy_items entries (fun h x => deepcopy n h x) h kvs with
      | Some (h', kvs') => Some ((h' ++ [ODict kvs'])%list, RRef (List.length h'))
      | None => None
      end
  | Some (OCfg fl kvs) =>
      match copy_items entries (fun h x => deepcopy n h x) h kvs with
      | Some (h', kvs') => Some ((h' ++ [OCfg fl kvs'])%list, RRef (List.length h'))
      | None => None
      end
  | None => None
  end.
Proof. reflexivity. Qed.

(** The object that holds the copies of the items, put at the end of the
    store, is a copy of the object that held the items. *)
Lemma new_object_copied {A B : Type} (c : container A B)
  (make : list A -> object) (tag : list B -> value) n h ext items' ts :
  (forall h0 l, nth_error h0 l = Some (make items') ->
     read (S n) h0 (RRef l) = option_map tag (read_items c (read n h0) items')) ->
  (forall h0 l, nth_error h0 l = Some (make items') ->
     reach (S n) h0 (RRef l) = l :: reach_items c (reach n h0) items') ->
  read_items c (read n (h ++ ext)%list) items' = Some ts ->
  (forall a, In a (reach_items c (reach n (h ++ ext)%list) items') ->
             List.length h <= a) ->
  copied (S n) h (tag ts) ((h ++ ext) ++ [make items'])%list
    (RRef (List.length (h ++ ext)%list)).
Proof.
  intros Hread_new Hreach_new Hread Hfresh.
  pose proof (nth_error_last (h ++ ext)%list (make items')) as Hlast.
  split; [exists (ext ++ [make items'])%list; now rewrite app_assoc |].
  split.
  - rewrite (Hread_new _ _ Hlast).
    rewrite (read_items_ext c _ (read n (h ++ ext)%list)).
    + now rewrite Hread.
    + intros x Hx. destruct (read_items_in c _ _ _ Hread x Hx) as [u Hu].
      now rewrite (read_extend n _ _ _ u Hu).
  - intros a Ha. rewrite (Hreach_new _ _ Hlast) in Ha.
    destruct Ha as [<- | Ha]; [rewrite length_app; lia |].
    apply Hfresh. apply reach_items_in in Ha. destruct Ha as [x [Hx Ha]].
    apply reach_items_in. exists x. split; [exact Hx |].
    destruct (read_items_in c _ _ _ Hread x Hx) as [u Hu].
    now rewrite (reach_extend n _ _ _ u Hu) in Ha.
Qed.

(** A deep copy of a value that can be read ends, reads as the original,
    and is made of new objects only. *)
Lemma deepcopy_copied n : forall h r t,
  read n h r = Some t ->
  exists h' r', deepcopy n h r = Some (h', r') /\ copied n h t h' r'.
Proof.
  induction n as [| n IH]; intros h r t Hr; [discriminate |].
  assert (Hatom : forall a, read (S n) h a = Some t -> reach (S n) h a = [] ->
                            copied (S n) h t h a).
  { intros a Ha He. split; [exists []; now rewrite app_nil_r |].
    split; [exact Ha |]. rewrite He. contradiction. }
  destruct r as [| b | i | m e | s | ty | xs | l];
    try (eexists h, _; split; [reflexivity | now apply Hatom]).
  - (* a tuple *)
    rewrite read_tuple in Hr.
    destruct (read_items elems (read n h) xs) as [ts |] eqn:Hts; [| discriminate].
    injection Hr as <-.
    destruct (copy_items_copied elems (fun _ _ => eq_refl) (fun _ _ _ => eq_refl)
                n IH xs h ts Hts) as [h' [xs' [Hc [Hext [Hread Hfresh]]]]].
    exists h', (RTuple xs'). rewrite deepcopy_tuple, Hc. split; [reflexivity |].
    split; [exact Hext |]. rewrite read_tuple, reach_tuple, Hread. now split.
  - (* a reference *)
    rewrite read_ref in Hr. rewrite deepcopy_ref.
    destruct (nth_error h l) as [o |] eqn:Hn; [| discriminate].
    destruct o as [xs | kvs | fl kvs].
    + destruct (read_items elems (read n h) xs) as [ts |] eqn:Hts;
        [| discriminate].
      injection Hr as <-.
      destruct (copy_items_copied elems (fun _ _ => eq_refl) (fun _ _ _ => eq_refl)
                  n IH xs h ts Hts)
        as [h' [xs' [Hc [[ext ->] [Hread Hfresh]]]]].
      rewrite Hc. eexists. eexists. split; [reflexivity |].
      apply (new_object_copied elems OList VList); auto;
        intros h0 l0 H0; [rewrite read_ref | rewrite reach_ref]; now rewrite H0.
    + destruct (read_items entries (read n h) kvs) as [ts |] eqn:Hts;
        [| discriminate].
      injection Hr as <-.
      destruct (copy_items_copied entries (fun _ _ => eq_refl)
                  (fun _ _ _ => eq_refl) n IH kvs h ts Hts)
        as [h' [kvs' [Hc [[ext ->] [Hread Hfresh]]]]].
      rewrite Hc. eexists. eexists. split; [reflexivity |].
      apply (new_object_copied entries ODict VDict); auto;
        intros h0 l0 H0; [rewrite read_ref | rewrite reach_ref]; now rewrite H0.
    + destruct (read_items entries (read n h) kvs) as [ts |] eqn:Hts;
        [| discriminate].
      injection Hr as <-.
      destruct (copy_items_copied entries (fun _ _ => eq_refl)
                  (fun _ _ _ => eq_refl) n IH kvs h ts Hts)
        as [h' [kvs' [Hc [[ext ->] [Hread Hfresh]]]]].
      rewrite Hc. eexists. eexists. split; [reflexivity |].
      apply (new_object_copied entries (OCfg fl) (VCfg fl)); auto;
        intros h0 l0 H0; [rewrite read_ref | rewrite reach_ref]; now rewrite H0.
Qed.

Lemma nth_error_write h : forall l o l',
  l <> l' -> nth_error (write h l o) l' = nth_error h l'.
Proof.
  induction h as [| x r IH]; intros l o l' Hne; [reflexivity |].
  destruct l as [| l]; destruct l' as [| l']; simpl; try reflexivity.
  - congruence.
  - apply IH. congruence.
Qed.

(** Replacing an object changes no value whose reading does not go through
    it. *)
Lemma read_write n h l o r :
  ~ In l (reach n h r) -> read n (write h l o) r = read n h r.
Proof.
  intros H. apply read_agree. intros a Ha. apply nth_error_write.
  intros ->. contradiction.
Qed.

(** [clone()] of a node that can be read: the clone reads as the node, is
    made of new objects, and leaves every value of the store as it was. *)
Lemma clone_copied n h l t :
  read n h (RRef l) = Some t ->
  exists h' c, clone_at n h l = Some (h', c) /\ copied n h t h' c.
Proof. apply deepcopy_copied. Qed.

(** C8.  [loadDefaults] is [_C.clone()].  In any store in which the static
    defaults read as the default tree, it returns a clone that reads as the
    default tree too, key by key, and that is made of new objects only.
    Every value the store held before (the static defaults, the clones
    returned earlier, in whatever state they are) reads as before;
    replacing any object of the new clone by whatever object changes none of
    those values, and replacing any object that existed before leaves the
    new clone as it is. *)
Theorem load_defaults_is_independent_clone (fuel : nat) (h : heap) :
  read fuel h (RRef static_root) = Some (to_value _C) ->
  exists h' c,
    load_defaults fuel h = Some (h', c) /\
    read fuel h' c = Some (to_value (clone _C)) /\
    (forall l, In l (reach fuel h' c) -> List.length h <= l < List.length h') /\
    (forall r u, read fuel h r = Some u -> read fuel h' r = Some u) /\
    (forall l o r u,
        In l (reach fuel h' c) -> read fuel h r = Some u ->
        read fuel (write h' l o) r = Some u) /\
    (forall l o,
        l < List.length h ->
        read fuel (write h' l o) c = Some (to_value _C)).
Proof.
  intros Hstatic.
  destruct (clone_copied fuel h static_root _ Hstatic)
    as [h' [c [Hclone [[ext ->] [Hread Hfresh]]]]].
  exists (h ++ ext)%list, c. split; [exact Hclone |]. split; [exact Hread |].
  split; [| split; [| split]].
  - intros l Hl. split; [now apply Hfresh |].
    now apply (reach_bound fuel _ c _ Hread).
  - intros r u Hu. now apply read_extend.
  - intros l o r u Hl Hu. rewrite read_write; [now apply read_extend |].
    rewrite (reach_extend fuel h ext r u Hu). intros Hin.
    apply (reach_bound fuel h r u Hu) in Hin. apply Hfresh in Hl. lia.
  - intros l o Hl. rewrite read_write; [exact Hread |].
    intros Hin. apply Hfresh in Hin. lia.
Qed.

(** The first call of [get_config()] after the module is loaded, and the
    second: both clones read as the defaults, and they share no object with
    each other or with the defaults. *)
Lemma load_defaults_witness :
  exists h1 c1 h2 c2,
    load_defaults 5 static_store = Some (h1, c1) /\
    load_defaults 5 h1 = Some (h2, c2) /\
    read 5 h2 c1 = Some (to_value _C) /\
    read 5 h2 c2 = Some (to_value _C) /\
    read 5 h2 (RRef static_root) = Some (to_value _C) /\
    (forall l, In l (reach 5 h2 c1) -> ~ In l (reach 5 h2 c2)) /\
    (forall l o, In l (reach 5 h2 c2) ->
                 read 5 (write h2 l o) c1 = Some (to_value _C) /\
                 read 5 (write h2 l o) (RRef static_root) = Some (to_value _C)).
Proof.
  destruct (load_defaults_is_independent_clone 5 static_store eq_refl)
    as [h1 [c1 (L1 & R1 & F1 & K1 & _)]].
  pose proof (K1 _ _ (eq_refl : read 5 static_store (RRef static_root)
                                = Some (to_value _C))) as S1.
  destruct (load_defaults_is_independent_clone 5 h1 S1)
    as [h2 [c2 (L2 & R2 & F2 & K2 & W2 & _)]].
  exists h1, c1, h2, c2.
  split; [exact L1 |]. split; [exact L2 |].
  split; [exact (K2 _ _ R1) |]. split; [exact R2 |].
  split; [exact (K2 _ _ S1) |]. split.
  - intros l Hl1 Hl2. apply F2 in Hl2.
    pose proof (reach_bound 5 h1 c1 _ R1) as B1.
    destruct (clone_copied 5 h1 static_root _ S1)
      as [h2' [c2' [Hc [[ext E] _]]]].
    unfold load_defaults in L2. rewrite Hc in L2. injection L2 as <- <-.
    subst h2'. rewrite (reach_extend 5 h1 ext c1 _ R1) in Hl1.
    apply B1 in Hl1. lia.
  - intros l o Hl. split; [exact (W2 l o c1 _ Hl R1) | exact (W2 l o _ _ Hl S1)].
Defined.

End StoreFacts.

(** * Further properties of the resolver *)

(** ** The schema through a run *)

Lemma is_cfg_shape v : is_cfg (shape v) = is_cfg v.
Proof. destruct v; reflexivity. Qed.

Lemma is_group_same_shape g c d :
  same_shape c d -> is_group g c = is_group g d.
Proof.
  intros H. pose proof (shape_items_get g _ _ H) as Hg. unfold is_group.
  destruct (dict_get g (items c)) as [x |], (dict_get g (items d)) as [y |];
    simpl in Hg; try discriminate; [| reflexivity].
  injection Hg as Hg. apply (f_equal is_cfg) in Hg.
  rewrite !is_cfg_shape in Hg. destruct x, y; simpl in Hg; congruence.
Qed.

Lemma has_key_same_shape k c d :
  same_shape c d -> has_key k c = has_key k d.
Proof.
  intros H. pose proof (shape_items_get k _ _ H) as Hk. unfold has_key.
  destruct (dict_get k (items c)), (dict_get k (items d));
    simpl in Hk; congruence.
Qed.

Lemma has_groups_same_shape c d :
  same_shape c d -> has_groups c = has_groups d.
Proof.
  intros H. unfold has_groups.
  now rewrite !(is_group_same_shape _ c d H), (has_key_same_shape _ c d H).
Qed.

Lemma keys_same_shape c d :
  same_shape c d -> keys (items c) = keys (items d).
Proof.
  intros H. unfold same_shape, shape_items in H.
  rewrite <- (keys_mapv shape (items c)), <- (keys_mapv shape (items d)).
  now rewrite H.
Qed.

Lemma get_config_same_shape literal_eval fs fuel cfg_file config o :
  get_config literal_eval fs fuel cfg_file = Some (config, o) ->
  same_shape config _C.
Proof.
  unfold get_config, clone. destruct cfg_file as [p |].
  - destruct (truthy_path (Some p)).
    + apply update_shape.
    + now intros [= <- <-].
  - now intros [= <- <-].
Qed.

(** X1.  Merging files never changes the schema.  However
    [_update_config_from_file] ends (done or with an exception, after any
    chain of bases), the configuration has the keys it had, in the same
    order, the same nodes under them and the same keys in every node; so a
    configuration [get_config] returns has the schema of the defaults. *)
Theorem file_merge_keeps_schema
  (literal_eval : string -> literal) (fs : string -> file)
  (fuel : nat) (cfg_file : string) (config merged : CfgNode) (o : outcome) :
  _update_config_from_file literal_eval fs fuel cfg_file config
    = Some (merged, o) ->
  shape_items (items merged) = shape_items (items config) /\
  keys (items merged) = keys (items config) /\
  (forall group, is_group group merged = is_group group config) /\
  (forall fuel' cfg returned o',
      get_config literal_eval fs fuel' cfg = Some (returned, o') ->
      shape_items (items returned) = shape_items (items _C) /\
      has_groups returned = true).
Proof.
  intros H. apply update_shape in H. split; [exact H |].
  split; [now apply keys_same_shape |].
  split; [intros g; now apply is_group_same_shape |].
  intros fuel' cfg returned o' Hget. apply get_config_same_shape in Hget.
  split; [exact Hget |]. now rewrite (has_groups_same_shape _ _ Hget).
Qed.

Lemma file_merge_keeps_schema_witness :
  exists merged,
    _update_config_from_file literal_eval_atoms example_fs 1 "/cfgs/bad.yaml" _C
      = Some (merged, Raise (KeyError "FOO")) /\
    keys (items merged) = keys (items _C) /\
    is_group "DATA" merged = true.
Proof.
  eexists. split; [reflexivity |].
  destruct (file_merge_keeps_schema literal_eval_atoms example_fs 1
              "/cfgs/bad.yaml" _C _ _ eq_refl) as (_ & Hk & Hg & _).
  split; [exact Hk | exact (Hg "DATA")].
Defined.

(** ** The whole run *)

Lemma ready_args_applied args c :
  has_groups c = true -> ready (args_applied args c) = true.
Proof.
  intros Hg. apply ready_defrost in Hg. unfold args_applied.
  repeat first [ rewrite ready_put_if
               | apply ready_put_top_if; [reflexivity .. |] ].
  exact Hg.
Qed.

(** X2.  The run does not get stuck on the frozen flag.  Whatever
    configuration [get_config] returns (frozen, when it merged a file),
    [update_config] without a cfg file and with options a configuration can
    hold returns: it defrosts before it writes.  What it returns is not
    frozen, and neither are its groups: a further assignment to a field of
    DATA, MODEL or TRAIN goes through, under any name but the four of the
    internal state of a node, which raise an AssertionError. *)
Theorem update_config_returns_after_get_config
  (literal_eval : string -> literal) (fs : string -> file)
  (fuel fuel' : nat) (cfg_file : option string) (config : CfgNode)
  (args : Namespace) :
  get_config literal_eval fs fuel cfg_file = Some (config, Done) ->
  args_storable args = true ->
  truthy_path (arg_cfg args) = false ->
  exists final,
    update_config literal_eval fs fuel' config args = Some (final, Done) /\
    is_frozen final = false /\
    (forall group name v,
        In group ["DATA"; "MODEL"; "TRAIN"] -> internal name = false ->
        storable v = true ->
        setattr_in group name v final = (put_if true group name v final, Done)) /\
    (forall group name v,
        In group ["DATA"; "MODEL"; "TRAIN"] -> internal name = true ->
        snd (setattr_in group name v final) = Raise (AssertionError name)).
Proof.
  intros Hget Hs Hcfg.
  assert (Hg : has_groups config = true).
  { apply get_config_same_shape in Hget.
    now rewrite (has_groups_same_shape _ _ Hget). }
  exists (args_applied args config).
  split; [now apply update_config_done |].
  split; [apply immutable_args_applied |].
  pose proof (ready_group _ (ready_args_applied args config Hg))
    as (Hd & Hm & Ht & _).
  assert (Hopen : forall group,
             In group ["DATA"; "MODEL"; "TRAIN"] ->
             mutable_group group (args_applied args config) = true).
  { intros group Hin. simpl in Hin.
    destruct Hin as [<- | [<- | [<- | []]]]; assumption. }
  split.
  - intros group name v Hin Hn Hv.
    apply setattr_in_done; [now apply Hopen | exact Hn | exact Hv].
  - intros group name v Hin Hn. apply Hopen in Hin.
    unfold mutable_group in Hin. unfold setattr_in, setattr, is_frozen.
    destruct (dict_get group (items (args_applied args config)))
      as [[] |]; try discriminate.
    destruct frozen; [discriminate |]. simpl immutable. now rewrite Hn.
Qed.

Lemma update_config_returns_witness :
  exists final,
    update_config literal_eval_atoms example_fs 0 a_merged
      (with_batch_size (VInt 32) VNone) = Some (final, Done) /\
    is_frozen a_merged = true /\ is_frozen final = false /\
    snd (setattr_in "DATA" "NUM_WORKERS" (VInt 4) final) = Done /\
    snd (setattr_in "DATA" "__immutable__" (VBool true) final)
    = Raise (AssertionError "__immutable__").
Proof.
  destruct (update_config_returns_after_get_config literal_eval_atoms
              example_fs 1 0 (Some "/cfgs/a.yaml") a_merged
              (with_batch_size (VInt 32) VNone) eq_refl eq_refl eq_refl)
    as [final (H1 & H2 & H3 & H4)].
  exists final. split; [exact H1 |]. split; [reflexivity |].
  split; [exact H2 |]. split.
  - now rewrite (H3 "DATA" "NUM_WORKERS" (VInt 4) (or_introl eq_refl)
                   eq_refl eq_refl).
  - apply (H4 "DATA" "__immutable__" (VBool true) (or_introl eq_refl) eq_refl).
Defined.

(** ** Options over files *)

Lemma update_config_with_file literal_eval fs fuel config args path merged :
  arg_cfg args = Some path -> truthy_path (Some path) = true ->
  _update_config_from_file literal_eval fs fuel path config
    = Some (merged, Done) ->
  update_config literal_eval fs fuel config args
    = Some (apply_args args merged).
Proof.
  intros Hcfg Hp Hu. unfold update_config. rewrite Hcfg, Hp, Hu.
  now destruct (apply_args args merged) as [c [| e]].
Qed.

(** X3.  Options win over the cfg file.  When [update_config] is given a
    cfg file that merges and options a configuration can hold, it returns;
    every option that is truthy is what its field then holds, whatever the
    file set, and where an option is not given the field keeps the leaf the
    file merge left (DATA.BATCH_SIZE_EVAL apart, which batch_size also
    writes). *)
Theorem options_override_the_file
  (literal_eval : string -> literal) (fs : string -> file)
  (fuel : nat) (config merged : CfgNode) (args : Namespace) (path : string) :
  has_groups config = true -> args_storable args = true ->
  arg_cfg args = Some path -> truthy_path (Some path) = true ->
  _update_config_from_file literal_eval fs fuel path config
    = Some (merged, Done) ->
  exists final,
    update_config literal_eval fs fuel config args = Some (final, Done) /\
    (forall option field,
        In (option, field) (stored_fields args) -> truthy option = true ->
        lookup field (items final) = Some option) /\
    (forall option field w,
        In (option, field) (stored_fields args) -> truthy option = false ->
        field <> ["DATA"; "BATCH_SIZE_EVAL"] ->
        lookup field (items merged) = Some w -> is_cfg w = false ->
        lookup field (items final) = Some w).
Proof.
  intros Hg Hs Hcfg Hp Hu.
  assert (Hg' : has_groups merged = true).
  { rewrite <- Hg. apply has_groups_same_shape.
    exact (update_shape literal_eval fs fuel path config merged Done Hu). }
  exists (args_applied args merged). split.
  - rewrite (update_config_with_file _ _ _ _ _ _ _ Hcfg Hp Hu).
    now rewrite apply_args_done.
  - pose proof (args_applied_fields args merged Hg') as F. cbv zeta in F.
    destruct F as (F1 & F2 & F3 & F4 & F5 & F6 & _ & F8 & F9 & F10 & _).
    split.
    + intros option field Hin Ht. simpl in Hin.
      repeat (destruct Hin as [[= <- <-] | Hin];
              [ first [ rewrite F1 | rewrite F2 | rewrite F3 | rewrite F4
                      | rewrite F5 | rewrite F6 | rewrite F8 | rewrite F9
                      | rewrite F10 ]; now rewrite Ht |]).
      contradiction.
    + intros option field w Hin Hf Hne Hw Hleaf.
      assert (Hold : lookup field (items (defrost merged)) = Some w)
        by (now apply lookup_set_immutable).
      simpl in Hin.
      destruct Hin as [[= <- <-] | Hin]; [now rewrite F1, Hf |].
      destruct Hin as [[= <- <-] | Hin]; [now rewrite F2, Hf |].
      destruct Hin as [[= <- <-] | Hin]; [now contradiction Hne |].
      destruct Hin as [[= <- <-] | Hin]; [now rewrite F4, Hf |].
      destruct Hin as [[= <- <-] | Hin]; [now rewrite F5, Hf |].
      destruct Hin as [[= <- <-] | Hin]; [now rewrite F6, Hf |].
      destruct Hin as [[= <- <-] | Hin]; [now rewrite F8, Hf |].
      destruct Hin as [[= <- <-] | Hin]; [now rewrite F9, Hf |].
      destruct Hin as [[= <- <-] | Hin]; [now rewrite F10, Hf |].
      contradiction.
Qed.

(** X4.  [update_config] writes nowhere else.  In what it returns, with or
    without a cfg file, every field of a group that is not one of the nine
    it assigns to, and every top-level key other than EVAL, AMP and the
    three groups, has the value of the defrosted configuration it started
    to write to (the given one, or the one the cfg file left). *)
Theorem update_config_leaves_other_fields
  (literal_eval : string -> literal) (fs : string -> file)
  (fuel : nat) (config final : CfgNode) (args : Namespace) :
  update_config literal_eval fs fuel config args = Some (final, Done) ->
  exists merged,
    (truthy_path (arg_cfg args) = false -> merged = config) /\
    (forall path, arg_cfg args = Some path -> truthy_path (Some path) = true ->
       _update_config_from_file literal_eval fs fuel path config
       = Some (merged, Done)) /\
    (forall group name,
        written_field group name = false ->
        group <> "EVAL" -> group <> "AMP" ->
        lookup [group; name] (items final) =
        lookup [group; name] (items (defrost merged))) /\
    (forall key,
        ~ In key ["EVAL"; "AMP"; "DATA"; "MODEL"; "TRAIN"] ->
        lookup [key] (items final) = lookup [key] (items (defrost merged))).
Proof.
  intros Hu. apply update_config_done_inv in Hu.
  destruct Hu as [merged [-> [Hnone Hsome]]].
  exists merged. split; [exact Hnone |]. split; [exact Hsome |]. split.
  - intros group name Hw He Ha.
    unfold written_field, written_fields in Hw. cbn [existsb fst snd] in Hw.
    repeat (apply orb_false_elim in Hw;
            let H := fresh "Hf" in destruct Hw as [H Hw]).
    assert (He' : ("EVAL" =? group)%string = false)
      by (apply String.eqb_neq; congruence).
    assert (Ha' : ("AMP" =? group)%string = false)
      by (apply String.eqb_neq; congruence).
    unfold args_applied.
    repeat first [ rewrite lookup_field_put_if_other by assumption
                 | rewrite lookup_field_put_top_if by assumption ].
    reflexivity.
  - intros key Hk. simpl in Hk.
    assert (He : ("EVAL" =? key)%string = false)
      by (apply String.eqb_neq; intros <-; tauto).
    assert (Ha : ("AMP" =? key)%string = false)
      by (apply String.eqb_neq; intros <-; tauto).
    assert (Hd : ("DATA" =? key)%string = false)
      by (apply String.eqb_neq; intros <-; tauto).
    assert (Hm : ("MODEL" =? key)%string = false)
      by (apply String.eqb_neq; intros <-; tauto).
    assert (Ht : ("TRAIN" =? key)%string = false)
      by (apply String.eqb_neq; intros <-; tauto).
    unfold args_applied.
    repeat first [ rewrite lookup_top_put_if by assumption
                 | rewrite lookup_top_put_top_if_other by assumption ].
    reflexivity.
Qed.

(** X5.  Without a cfg file and without options [update_config] does one
    thing: it defrosts.  It returns the defrosted configuration for every
    configuration, also one that lacks the groups, since no attribute is
    read or written. *)
Theorem update_config_without_options_defrosts
  (literal_eval : string -> literal) (fs : string -> file)
  (fuel : nat) (config : CfgNode) (args : Namespace) :
  truthy_path (arg_cfg args) = false -> no_option args = true ->
  update_config literal_eval fs fuel config args = Some (defrost config, Done) /\
  all_immutable false (to_value (defrost config)) = true /\
  same_keys (defrost config) config.
Proof.
  intros Hcfg Hno.
  split; [| split; [apply defrost_all_mutable | apply same_keys_defrost]].
  rewrite update_config_no_file by exact Hcfg.
  unfold no_option, stored_options in Hno. simpl forallb in Hno.
  repeat (apply andb_prop in Hno;
          let H := fresh "Hv" in destruct Hno as [H Hno];
          apply negb_true_iff in H).
  unfold apply_args. rewrite Hv, Hv0, Hv1, Hv2, Hv3, Hv4, Hv5, Hv6, Hv7, Hv8, Hv9.
  reflexivity.
Qed.

Lemma options_override_the_file_witness :
  exists final,
    update_config literal_eval_atoms example_fs 1 _C a_with_batch_size
      = Some (final, Done) /\
    lookup ["DATA"; "BATCH_SIZE"] (items a_merged) = Some (VInt 8) /\
    lookup ["DATA"; "BATCH_SIZE"] (items final) = Some (VInt 32) /\
    lookup ["DATA"; "IMAGE_SIZE"] (items final) = Some (VInt 384).
Proof.
  destruct (options_override_the_file literal_eval_atoms example_fs 1 _C
              a_merged a_with_batch_size "/cfgs/a.yaml"
              eq_refl eq_refl eq_refl eq_refl eq_refl)
    as [final (H1 & H2 & H3)].
  exists final. split; [exact H1 |]. split; [reflexivity |]. split.
  - apply (H2 (VInt 32) ["DATA"; "BATCH_SIZE"]); [| reflexivity].
    right. left. reflexivity.
  - apply (H3 VNone ["DATA"; "IMAGE_SIZE"] (VInt 384));
      try reflexivity; [| discriminate].
    right. right. right. left. reflexivity.
Defined.

Lemma update_config_leaves_other_fields_witness :
  update_config literal_eval_atoms example_fs 1 _C resume_from_zero
    = Some (resumed, Done) /\
  lookup ["TRAIN"; "NUM_EPOCHS"] (items resumed) = Some (VInt 300) /\
  lookup ["SEED"] (items resumed) = Some (VInt 42).
Proof.
  assert (H : update_config literal_eval_atoms example_fs 1 _C resume_from_zero
              = Some (resumed, Done)) by reflexivity.
  split; [exact H |].
  destruct (update_config_leaves_other_fields literal_eval_atoms example_fs 1
              _C resumed resume_from_zero H) as [merged (_ & Hm & Hf & Hk)].
  specialize (Hm "/cfgs/resume.yaml" eq_refl eq_refl).
  injection Hm as <-. split.
  - rewrite (Hf "TRAIN" "NUM_EPOCHS" eq_refl); [reflexivity | discriminate ..].
  - rewrite (Hk "SEED"); [reflexivity |].
    simpl. intuition discriminate.
Defined.

Lemma update_config_without_options_witness :
  update_config literal_eval_atoms example_fs 0 a_merged no_args
    = Some (defrost a_merged, Done) /\
  is_frozen a_merged = true /\ is_frozen (defrost a_merged) = false.
Proof.
  split; [| split; reflexivity].
  apply (update_config_without_options_defrosts literal_eval_atoms example_fs 0
           a_merged no_args eq_refl eq_refl).
Defined.

(** ** Merging a file again *)

Lemma check_and_coerce_again v original fk w fk' :
  check_and_coerce v original fk = inl w -> check_and_coerce v w fk' = inl w.
Proof.
  destruct v, original; simpl; intros H; try discriminate;
    try (injection H as <-; reflexivity).
  unfold check_and_coerce in H |- *. simpl in H |- *.
  destruct (_ =? _)%string; [| discriminate].
  injection H as <-. simpl. now rewrite String.eqb_refl.
Qed.

Section MergeAgain.

Variable literal_eval : string -> literal.

(** A document that merged merges again, into what the first merge gave,
    and changes nothing. *)
Lemma merge_again (a : dict) : forall b b' kl,
  unique_keys (VDict a) ->
  merge_a_into_b literal_eval a b kl = (b', Done) ->
  merge_a_into_b literal_eval a b' kl = (b', Done).
Proof.
  induction a as [| k v_ rest IHsub IHrest] using dict_nested_ind;
    intros b b' kl Hu Hm.
  - reflexivity.
  - apply unique_keys_dict in Hu. destruct Hu as [Hnd Hall].
    inversion Hnd as [| ? ? Hnotin Hnd']; subst.
    inversion Hall as [| ? ? Hv Hall']; subst. simpl in Hv.
    assert (Hurest : unique_keys (VDict rest))
      by (apply unique_keys_dict; auto).
    pose proof (mentions_not_key k [] rest Hnotin) as Hfree.
    rewrite merge_cons in Hm. rewrite merge_cons.
    destruct (decode_cfg_value literal_eval v_) as [d | e0]; [| discriminate].
    destruct (dict_get k b) as [original |] eqn:Hget; [| discriminate].
    destruct (as_mapping v_) as [sub |] eqn:Hmap.
    + destruct original; try discriminate.
      destruct (merge_a_into_b literal_eval sub kvs (kl ++ [k]))
        as [bsub' [| e]] eqn:Hsub; [| discriminate].
      pose proof (merge_frame literal_eval rest [k]
                    (dict_set k (VCfg frozen bsub') b) kl Hfree) as Hf.
      rewrite Hm in Hf. simpl in Hf. rewrite dict_get_set_same in Hf.
      rewrite Hf.
      rewrite (IHsub sub eq_refl kvs bsub' _ (unique_keys_sub v_ sub Hmap Hv) Hsub).
      rewrite (dict_set_unchanged _ _ _ Hf).
      now apply (IHrest _ _ _ Hurest Hm).
    + destruct (check_and_coerce _ original _) as [w | e] eqn:Hc;
        [| discriminate].
      pose proof (merge_frame literal_eval rest [k] (dict_set k w b) kl Hfree)
        as Hf.
      rewrite Hm in Hf. simpl in Hf. rewrite dict_get_set_same in Hf.
      rewrite Hf, (check_and_coerce_again _ _ _ _ _ Hc).
      rewrite (dict_set_unchanged _ _ _ Hf).
      now apply (IHrest _ _ _ Hurest Hm).
Qed.

End MergeAgain.

(** X6.  Merging a file is idempotent.  When a file that names no base has
    been merged to the end, merging the same file again into the result
    ends too and returns the very same configuration, frozen as it was. *)
Theorem merging_a_file_again_changes_nothing
  (literal_eval : string -> literal) (fs : string -> file)
  (fuel fuel' : nat) (cfg_file : string) (doc : value) (kvs : dict)
  (config merged : CfgNode) :
  fs cfg_file = Doc doc -> as_mapping doc = Some kvs ->
  no_bases kvs = true -> unique_keys doc ->
  _update_config_from_file literal_eval fs (S fuel) cfg_file config
    = Some (merged, Done) ->
  _update_config_from_file literal_eval fs (S fuel') cfg_file merged
    = Some (merged, Done).
Proof.
  intros Hfs Hmap Hnb Hu Hfirst.
  rewrite (update_no_bases literal_eval fs fuel cfg_file config doc kvs
             Hfs Hmap Hnb) in Hfirst.
  rewrite (update_no_bases literal_eval fs fuel' cfg_file merged doc kvs
             Hfs Hmap Hnb).
  destruct (load_cfg fs cfg_file) as [a | e] eqn:Hl; [| discriminate].
  pose proof (load_cfg_mapping fs cfg_file doc kvs a Hfs Hmap Hl) as ->.
  destruct (merge_a_into_b literal_eval kvs (items (defrost config)) [])
    as [b [| e]] eqn:Hm; [| discriminate].
  injection Hfirst as <-.
  pose proof (merge_set_immutable literal_eval false kvs (items (defrost config)) [])
    as Hflag.
  rewrite Hm in Hflag. simpl fst in Hflag. simpl snd in Hflag.
  unfold defrost in Hflag at 1. simpl items in Hflag.
  rewrite set_immutable_items_idem in Hflag.
  change (set_immutable_items false (items config))
    with (items (defrost config)) in Hflag.
  rewrite Hm in Hflag. injection Hflag as Hb.
  assert (Hitems : items (defrost (freeze (CN false b))) = b).
  { unfold defrost, freeze. simpl. rewrite set_immutable_items_idem.
    now symmetry. }
  rewrite Hitems.
  now rewrite (merge_again literal_eval kvs _ b []
                 (unique_keys_sub doc kvs Hmap Hu) Hm).
Qed.

Lemma unique_keys_a_yaml : unique_keys a_yaml.
Proof.
  simpl. repeat split; repeat constructor; simpl; intuition discriminate.
Qed.

Lemma merging_a_file_again_witness :
  _update_config_from_file literal_eval_atoms example_fs 1 "/cfgs/a.yaml" _C
    = Some (a_merged, Done) /\
  _update_config_from_file literal_eval_atoms example_fs 1 "/cfgs/a.yaml" a_merged
    = Some (a_merged, Done).
Proof.
  assert (H : _update_config_from_file literal_eval_atoms example_fs 1
                "/cfgs/a.yaml" _C = Some (a_merged, Done)) by reflexivity.
  split; [exact H |].
  exact (merging_a_file_again_changes_nothing literal_eval_atoms example_fs 0 0
           "/cfgs/a.yaml" a_yaml _ _C a_merged eq_refl eq_refl eq_refl
           unique_keys_a_yaml H).
Defined.

(** ** Bases that cannot be merged *)

Section BadBases.

Variable literal_eval : string -> literal.
Variable fs : string -> file.

Local Notation "'update'" := (_update_config_from_file literal_eval fs).

Lemma update_bases_skip rec cfg_file skipped entries config :
  forallb (fun e => negb (truthy e)) skipped = true ->
  update_bases rec cfg_file (skipped ++ entries)%list config =
  update_bases rec cfg_file entries config.
Proof.
  induction skipped as [| cfg rest IH]; simpl; [reflexivity |].
  intros H. apply andb_prop in H. destruct H as [Hc Hr].
  apply negb_true_iff in Hc. rewrite Hc. now apply IH.
Qed.

(** The first base that is named and has no file: the call raises its
    IOError before anything is merged. *)
Lemma update_first_base_missing fuel cfg_file doc kvs skipped name rest config :
  fs cfg_file = Doc doc -> as_mapping doc = Some kvs ->
  base_entries kvs = Some (skipped ++ VStr name :: rest)%list ->
  forallb (fun e => negb (truthy e)) skipped = true ->
  truthy (VStr name) = true ->
  fs (os_path_join (os_path_dirname cfg_file) name) = NoFile ->
  update (S (S fuel)) cfg_file config =
  Some (defrost config,
        Raise (IOError (os_path_join (os_path_dirname cfg_file) name))).
Proof.
  intros Hfs Hmap Hb Hskip Ht Hno.
  rewrite update_unfold, Hfs, Hmap, Hb, (update_bases_skip _ _ _ _ _ Hskip).
  cbn [update_bases]. rewrite Ht, update_unfold, Hno.
  now rewrite defrost_idem.
Qed.

End BadBases.

(** X7.  A base that is missing stops the merge before it starts.  When the
    first entry of BASE that names a file names one that does not exist,
    [_update_config_from_file] raises the IOError of the joined path; no key
    of the file is applied, the configuration has the values it had, and it
    is left defrosted, also if it was frozen before the call. *)
Theorem missing_base_stops_the_merge
  (literal_eval : string -> literal) (fs : string -> file)
  (fuel : nat) (cfg_file : string) (doc : value) (kvs : dict)
  (skipped rest : list value) (name : string) (config : CfgNode) :
  fs cfg_file = Doc doc -> as_mapping doc = Some kvs ->
  base_entries kvs = Some (skipped ++ VStr name :: rest)%list ->
  forallb (fun e => negb (truthy e)) skipped = true ->
  truthy (VStr name) = true ->
  fs (os_path_join (os_path_dirname cfg_file) name) = NoFile ->
  exists left,
    _update_config_from_file literal_eval fs (S (S fuel)) cfg_file config
      = Some (left, Raise (IOError (os_path_join (os_path_dirname cfg_file) name)))
    /\ same_keys left config /\ all_immutable false (to_value left) = true.
Proof.
  intros Hfs Hmap Hb Hskip Ht Hno. exists (defrost config).
  split; [now apply (update_first_base_missing literal_eval fs fuel cfg_file
                       doc kvs skipped name rest) |].
  split; [apply same_keys_defrost | apply defrost_all_mutable].
Qed.

(** X8.  The recursion over BASE has no guard against a cycle.  For a file
    whose BASE names the file itself, [_update_config_from_file] ends at no
    depth of the recursion: it returns no configuration and raises none of
    the errors of a merge. *)
Theorem self_based_file_never_ends
  (literal_eval : string -> literal) (fs : string -> file)
  (cfg_file : string) (doc : value) (kvs : dict)
  (skipped rest : list value) (name : string) :
  fs cfg_file = Doc doc -> as_mapping doc = Some kvs ->
  base_entries kvs = Some (skipped ++ VStr name :: rest)%list ->
  forallb (fun e => negb (truthy e)) skipped = true ->
  truthy (VStr name) = true ->
  os_path_join (os_path_dirname cfg_file) name = cfg_file ->
  forall fuel config,
    _update_config_from_file literal_eval fs fuel cfg_file config = None.
Proof.
  intros Hfs Hmap Hb Hskip Ht Hself.
  induction fuel as [| fuel IH]; intros config; [reflexivity |].
  rewrite update_unfold, Hfs, Hmap, Hb, (update_bases_skip _ _ _ _ _ Hskip).
  cbn [update_bases]. now rewrite Ht, Hself, IH.
Qed.

(** X9.  BASE must be a list.  Line 125 iterates over whatever the file
    gives for BASE: for a value that cannot be iterated (an empty entry,
    a number, a boolean) the call raises a TypeError with nothing merged;
    a string is iterated character by character, so that [BASE: a.yaml]
    looks for a file named [a] beside the file, and raises its IOError when
    there is none. *)
Theorem base_that_is_not_a_list
  (literal_eval : string -> literal) (fs : string -> file)
  (fuel : nat) (cfg_file : string) (doc : value) (kvs : dict)
  (base : value) (config : CfgNode) :
  fs cfg_file = Doc doc -> as_mapping doc = Some kvs ->
  dict_get "BASE" kvs = Some base ->
  (iterate base = None ->
   _update_config_from_file literal_eval fs (S fuel) cfg_file config
     = Some (defrost config, Raise TypeError)) /\
  (forall ch more,
      base = VStr (String ch more) ->
      let first := os_path_join (os_path_dirname cfg_file) (String ch "") in
      fs first = NoFile ->
      _update_config_from_file literal_eval fs (S (S fuel)) cfg_file config
        = Some (defrost config, Raise (IOError first))).
Proof.
  intros Hfs Hmap Hbase. split.
  - intros Hit. rewrite update_unfold, Hfs, Hmap.
    unfold base_entries. now rewrite Hbase, Hit.
  - intros ch more -> first Hno.
    apply (update_first_base_missing literal_eval fs fuel cfg_file doc kvs
             [] (String ch "") (chars more)); auto.
    unfold base_entries. now rewrite Hbase.
Qed.

Lemma missing_base_witness :
  exists left,
    _update_config_from_file literal_eval_atoms broken_fs 2 "/cfgs/orphan.yaml"
      a_merged = Some (left, Raise (IOError "/cfgs/gone.yaml")) /\
    same_keys left a_merged /\ all_immutable false (to_value left) = true.
Proof.
  exact (missing_base_stops_the_merge literal_eval_atoms broken_fs 0
           "/cfgs/orphan.yaml" orphan_yaml _ [VStr ""] [] "gone.yaml" a_merged
           eq_refl eq_refl eq_refl eq_refl eq_refl eq_refl).
Defined.

Lemma self_based_file_witness :
  _update_config_from_file literal_eval_atoms broken_fs 1000 "/cfgs/loop.yaml" _C
    = None.
Proof.
  exact (self_based_file_never_ends literal_eval_atoms broken_fs
           "/cfgs/loop.yaml" loop_yaml _ [] [] "loop.yaml"
           eq_refl eq_refl eq_refl eq_refl eq_refl eq_refl 1000%nat _C).
Defined.

Lemma base_that_is_not_a_list_witness :
  _update_config_from_file literal_eval_atoms broken_fs 1
    "/cfgs/null_base.yaml" _C = Some (defrost _C, Raise TypeError) /\
  _update_config_from_file literal_eval_atoms broken_fs 2
    "/cfgs/string_base.yaml" _C = Some (defrost _C, Raise (IOError "/cfgs/a")).
Proof.
  split.
  - apply (proj1 (base_that_is_not_a_list literal_eval_atoms broken_fs 0
                    "/cfgs/null_base.yaml" null_base_yaml _ VNone _C
                    eq_refl eq_refl eq_refl)).
    reflexivity.
  - apply (proj2 (base_that_is_not_a_list literal_eval_atoms broken_fs 0
                    "/cfgs/string_base.yaml" string_base_yaml _
                    (VStr "a.yaml") _C eq_refl eq_refl eq_refl)
             "a"%char ".yaml" eq_refl).
    reflexivity.
Defined.

(** ** The state a failure leaves behind a merged base *)

Lemma all_immutable_fixed flag v :
  all_immutable flag v = true -> set_immutable flag v = v.
Proof.
  induction v using value_ind; try reflexivity.
  rewrite all_immutable_cfg, set_immutable_cfg. intros Hall.
  apply andb_prop in Hall. destruct Hall as [Hf Hk].
  apply Bool.eqb_prop in Hf. subst flag. f_equal.
  rewrite forallb_forall in Hk. rewrite Forall_forall in H.
  unfold set_immutable_items. rewrite <- (map_id kvs) at 2.
  apply map_ext_in. intros [k x] Hin. simpl. f_equal.
  apply (H (k, x) Hin). apply (Hk (k, x) Hin).
Qed.

Lemma all_immutable_root flag c :
  all_immutable flag (to_value c) = true -> immutable c = flag.
Proof.
  unfold to_value. rewrite all_immutable_cfg. intros H.
  apply andb_prop in H. destruct H as [H _]. now apply Bool.eqb_prop in H.
Qed.

Section AfterABase.

Variable literal_eval : string -> literal.
Variable fs : string -> file.

Local Notation "'update'" := (_update_config_from_file literal_eval fs).

(** A merge writes values and no flag: a tree that carries one flag on every
    node carries it after the merge, however the merge ends. *)
Lemma merge_file_all_immutable flag f c :
  all_immutable flag (to_value c) = true ->
  all_immutable flag (to_value (fst (merge_from_file literal_eval fs f c))) = true.
Proof.
  intros Hall.
  destruct (merge_file_cases literal_eval fs f c) as [[e ->] | [a [Ha ->]]];
    [exact Hall |].
  pose proof (all_immutable_root _ _ Hall) as Hroot.
  pose proof (all_immutable_fixed _ _ Hall) as Hfix.
  unfold to_value in Hfix. rewrite set_immutable_cfg in Hfix.
  injection Hfix as _ Hits.
  pose proof (merge_set_immutable literal_eval flag a (items c) []) as Hm.
  rewrite Hits in Hm.
  destruct (merge_a_into_b literal_eval a (items c) []) as [b r].
  simpl fst in *. simpl snd in Hm. injection Hm as Hb.
  unfold to_value. simpl immutable. simpl items.
  rewrite Hroot, Hb, <- (set_immutable_cfg flag flag). apply all_immutable_set.
Qed.

Lemma update_bases_done_frozen fuel cfg_file : forall entries c based,
  update_bases (update fuel) cfg_file entries c = Some (based, Done) ->
  existsb truthy entries = true \/ all_immutable true (to_value c) = true ->
  all_immutable true (to_value based) = true.
Proof.
  induction entries as [| cfg rest IH]; intros c based; cbn [update_bases existsb].
  - intros [= <-] [H | H]; [discriminate | exact H].
  - destruct (truthy cfg) eqn:Ht.
    + destruct cfg; try discriminate.
      destruct (update fuel _ c) as [[c' [| e]] |] eqn:Hrun; try discriminate.
      intros Hrest _. apply (IH c' based Hrest). right.
      apply (update_done_frozen literal_eval fs fuel _ c c' Hrun).
    + simpl orb. apply IH.
Qed.

End AfterABase.

(** X10.  A failure in a file's own keys, after its bases were merged, leaves
    the configuration frozen.  The last base ends with [config.freeze()]
    (line 131) and the failing [merge_from_file] of line 130 is not followed
    by one nor preceded by a defrost: the configuration is left as
    [merge_from_file] left it, with the error it raised, frozen on every
    node, and every assignment to it raises AttributeError. *)
Theorem failure_after_a_base_leaves_frozen
  (literal_eval : string -> literal) (fs : string -> file)
  (fuel : nat) (cfg_file : string) (doc : value) (kvs : dict)
  (entries : list value) (config based left : CfgNode) (e : exn) :
  fs cfg_file = Doc doc -> as_mapping doc = Some kvs ->
  base_entries kvs = Some entries -> existsb truthy entries = true ->
  update_bases (_update_config_from_file literal_eval fs fuel) cfg_file entries
    (defrost config) = Some (based, Done) ->
  _update_config_from_file literal_eval fs (S fuel) cfg_file config
    = Some (left, Raise e) ->
  merge_from_file literal_eval fs cfg_file based = (left, Raise e) /\
  all_immutable true (to_value left) = true /\
  (forall name v, setattr name v left = (left, Raise (AttributeError name))).
Proof.
  intros Hfs Hmap Hb Hsome Hbases Hrun.
  rewrite update_unfold, Hfs, Hmap, Hb, Hbases in Hrun.
  pose proof (merge_file_all_immutable literal_eval fs true cfg_file based
                (update_bases_done_frozen literal_eval fs fuel cfg_file entries
                   (defrost config) based Hbases (or_introl Hsome))) as Hall.
  destruct (merge_from_file literal_eval fs cfg_file based) as [c2 [| e']];
    [discriminate |].
  injection Hrun as <- <-. simpl fst in *.
  split; [reflexivity |].
  split; [exact Hall |].
  intros name v. unfold setattr, is_frozen.
  now rewrite (all_immutable_root _ _ Hall).
Qed.

(** bad_child.yaml fails on its key FOO, and date_child.yaml when it is
    loaded, on its date: both after a.yaml was merged and frozen. *)
Lemma failure_after_a_base_witness :
  (merge_from_file literal_eval_atoms example_fs "/cfgs/bad_child.yaml" a_merged
     = (bad_child_left, Raise (KeyError "FOO")) /\
   all_immutable true (to_value bad_child_left) = true /\
   (forall name v,
       setattr name v bad_child_left
       = (bad_child_left, Raise (AttributeError name)))) /\
  (merge_from_file literal_eval_atoms dated_fs "/cfgs/date_child.yaml" a_merged
     = (a_merged, Raise (AssertionError "SAVE")) /\
   all_immutable true (to_value a_merged) = true /\
   (forall name v,
       setattr name v a_merged = (a_merged, Raise (AttributeError name)))).
Proof.
  split.
  - apply (failure_after_a_base_leaves_frozen literal_eval_atoms example_fs 1
             "/cfgs/bad_child.yaml" bad_child_yaml
             [("FOO", VInt 1); ("BASE", VList [VStr "a.yaml"])]
             [VStr "a.yaml"] _C a_merged bad_child_left (KeyError "FOO"));
      vm_compute; reflexivity.
  - apply (failure_after_a_base_leaves_frozen literal_eval_atoms dated_fs 1
             "/cfgs/date_child.yaml" date_child_yaml
             [("BASE", VList [VStr "a.yaml"]); ("SAVE", VOther "datetime.date")]
             [VStr "a.yaml"] _C a_merged a_merged (AssertionError "SAVE"));
      vm_compute; reflexivity.
Defined.

(** X11.  What [config.BASE] holds after a file.  BASE is a key of the
    defaults, so a file's BASE is merged like any other entry: after a
    returning [_update_config_from_file] of a file whose BASE is a list, the
    configuration's BASE holds the entries of that file (not those of its
    bases, which were merged before).  A file that has no BASE entry leaves
    the configuration's BASE as it was: the default [['']] of [setdefault]
    (line 125) is not merged, however the call ends. *)
Theorem base_key_after_a_file
  (literal_eval : string -> literal) (fs : string -> file)
  (fuel : nat) (cfg_file : string) (doc : value) (kvs : dict)
  (config merged : CfgNode) (o : outcome) :
  fs cfg_file = Doc doc -> as_mapping doc = Some kvs -> unique_keys (VDict kvs) ->
  _update_config_from_file literal_eval fs fuel cfg_file config
    = Some (merged, o) ->
  (forall names,
      dict_get "BASE" kvs = Some (VList names) -> o = Done ->
      exists stored,
        lookup ["BASE"] (items merged) = Some stored /\
        iterate stored = Some names) /\
  (forall original,
      dict_get "BASE" kvs = None ->
      lookup ["BASE"] (items config) = Some original ->
      is_cfg original = false ->
      lookup ["BASE"] (items merged) = Some original).
Proof.
  intros Hfs Hmap Hu Hrun. destruct fuel as [| fuel]; [discriminate |].
  split.
  - intros names Hbase ->.
    rewrite update_unfold, Hfs, Hmap in Hrun.
    destruct (base_entries kvs) as [entries |]; [| discriminate].
    destruct (update_bases _ _ entries _) as [[c1 [| e]] |]; try discriminate.
    destruct (merge_from_file literal_eval fs cfg_file c1) as [c2 [| e]] eqn:Hf;
      [| discriminate].
    injection Hrun as <-.
    destruct (merge_file_done literal_eval fs cfg_file doc kvs c1 c2 Hfs Hmap Hf)
      as (_ & Hm & _).
    destruct (merge_wins literal_eval kvs ["BASE"] (VList names) (items c1)
                (items c2) [] Hu Hbase eq_refl Hm) as [d [w [Hd [Hl Hc]]]].
    injection Hd as <-.
    assert (Hw : is_cfg w = false /\ iterate w = Some names).
    { destruct Hc as [-> | [[xs [Hx _]] | [xs [Hx ->]]]].
      - now split.
      - discriminate.
      - injection Hx as <-. now split. }
    exists w. split; [| apply Hw].
    unfold freeze. simpl items. apply lookup_set_immutable; [exact Hl | apply Hw].
  - intros original Hnone Hl Hleaf.
    assert (Hnb : no_bases kvs = true).
    { unfold no_bases, base_entries. now rewrite Hnone. }
    rewrite (update_no_bases literal_eval fs fuel cfg_file config doc kvs
               Hfs Hmap Hnb) in Hrun.
    assert (Hfree : mentions ["BASE"] kvs = false).
    { simpl. apply not_true_iff_false. intros H.
      apply existsb_exists in H. destruct H as [[k v] [Hin H]]. simpl in H.
      rewrite andb_true_r in H. apply String.eqb_eq in H. subst k.
      clear - Hin Hnone. induction kvs as [| [k' v'] r IH]; [contradiction |].
      simpl in Hnone. destruct (k' =? "BASE")%string eqn:E; [discriminate |].
      destruct Hin as [[= -> _] | Hin]; [| now apply IH].
      now rewrite String.eqb_refl in E. }
    assert (Hd : lookup ["BASE"] (items (defrost config)) = Some original)
      by (now apply lookup_set_immutable).
    destruct (load_cfg fs cfg_file) as [a | e] eqn:Hload;
      [| now injection Hrun as <- _].
    pose proof (load_cfg_mapping fs cfg_file doc kvs a Hfs Hmap Hload) as ->.
    pose proof (merge_frame literal_eval kvs ["BASE"] (items (defrost config)) []
                  Hfree) as Hframe.
    destruct (merge_a_into_b literal_eval kvs (items (defrost config)) [])
      as [b r].
    simpl fst in Hframe. rewrite Hd in Hframe.
    destruct r; injection Hrun as <- _; [| exact Hframe].
    unfold freeze. simpl items. now apply lookup_set_immutable.
Qed.

Lemma base_key_after_a_file_witness :
  (exists stored,
      lookup ["BASE"] (items c_merged) = Some stored /\
      iterate stored = Some [VStr "b.yaml"]) /\
  lookup ["BASE"] (items a_merged) = Some (VList [VStr ""]).
Proof.
  split.
  - apply (proj1 (base_key_after_a_file literal_eval_atoms example_fs 3
                    "/cfgs/c.yaml" c_yaml _ _C c_merged Done eq_refl eq_refl
                    ltac:(vm_compute; repeat constructor; simpl; intuition discriminate)
                    ltac:(vm_compute; reflexivity))
             [VStr "b.yaml"] eq_refl eq_refl).
  - apply (proj2 (base_key_after_a_file literal_eval_atoms example_fs 1
                    "/cfgs/a.yaml" a_yaml _ _C a_merged Done eq_refl eq_refl
                    unique_keys_a_yaml
                    ltac:(vm_compute; reflexivity))
             (VList [VStr ""]) eq_refl eq_refl eq_refl).
Defined.

(** ** Where a base is looked for *)

Lemma has_slash_app a b : has_slash (a ++ b) = has_slash a || has_slash b.
Proof.
  induction a as [| c r IH]; simpl; [reflexivity |].
  now rewrite IH, orb_assoc.
Qed.

Lemma upto_last_slash_no_slash s : has_slash s = false -> upto_last_slash s = "".
Proof. destruct s as [| c r]; [reflexivity |]. intros H. simpl in *. now rewrite H. Qed.

Lemma upto_last_slash_dir dir name :
  has_slash name = false ->
  upto_last_slash (dir ++ "/" ++ name) = (dir ++ "/")%string.
Proof.
  intros Hn. induction dir as [| c r IH].
  - simpl. now rewrite (upto_last_slash_no_slash _ Hn).
  - change ((String c r ++ "/" ++ name)%string)
      with (String c (r ++ "/" ++ name)%string).
    cbn [upto_last_slash]. cbn [has_slash].
    rewrite has_slash_app. simpl has_slash at 2.
    rewrite orb_true_r, orb_true_r, IH. reflexivity.
Qed.

Lemma all_slashes_ends s :
  all_slashes s = true -> s <> "" -> ends_with_slash s = true.
Proof.
  induction s as [| c r IH]; [congruence |].
  intros H _. simpl in H. apply andb_prop in H. destruct H as [Hc Hr].
  destruct r as [| c' r']; [exact Hc |].
  change (ends_with_slash (String c (String c' r')))
    with (ends_with_slash (String c' r')).
  apply IH; [exact Hr | discriminate].
Qed.

Lemma all_slashes_app a b : all_slashes (a ++ b) = all_slashes a && all_slashes b.
Proof.
  induction a as [| c r IH]; simpl; [reflexivity |].
  now rewrite IH, andb_assoc.
Qed.

Lemma rstrip_slash_dir dir :
  ends_with_slash dir = false -> rstrip_slash (dir ++ "/") = dir.
Proof.
  induction dir as [| c r IH]; intros He; [reflexivity |].
  change ((String c r ++ "/")%string) with (String c (r ++ "/")%string).
  cbn [rstrip_slash].
  change (String c (r ++ "/")%string) with ((String c r ++ "/")%string) at 1.
  rewrite all_slashes_app.
  destruct (all_slashes (String c r)) eqn:Hall.
  - rewrite (all_slashes_ends _ Hall) in He; discriminate.
  - cbn [andb]. f_equal. apply IH.
    destruct r as [| c' r']; [reflexivity | exact He].
Qed.

(** X12.  Where a base is looked for (line 128).  A base named by an
    absolute path is opened at that path, whatever the file that names it.
    A relative name is resolved against the directory of the file that names
    it: for a file [dir/name] the base [b] is opened at [dir/b], not in the
    working directory; for a file given by its bare name the base is opened
    as [b]. *)
Theorem base_is_resolved_beside_the_file
  (cfg_file dir name base : string) (c : ascii) (rest : string) :
  base = String c rest ->
  (Ascii.eqb c slash = true ->
   os_path_join (os_path_dirname cfg_file) base = base) /\
  (Ascii.eqb c slash = false -> has_slash name = false ->
   os_path_join (os_path_dirname name) base = base) /\
  (Ascii.eqb c slash = false -> has_slash name = false ->
   dir <> "" -> ends_with_slash dir = false ->
   os_path_join (os_path_dirname (dir ++ "/" ++ name)) base
   = (dir ++ "/" ++ base)%string).
Proof.
  intros ->. split; [| split].
  - intros Hc. unfold os_path_join. now rewrite Hc.
  - intros Hc Hn. unfold os_path_dirname.
    rewrite (upto_last_slash_no_slash _ Hn). simpl all_slashes. cbv iota.
    unfold os_path_join. now rewrite Hc.
  - intros Hc Hn Hd He. unfold os_path_dirname.
    rewrite (upto_last_slash_dir dir name Hn), all_slashes_app.
    assert (Hall : all_slashes dir = false).
    { destruct (all_slashes dir) eqn:Hall; [| reflexivity].
      rewrite (all_slashes_ends _ Hall Hd) in He. discriminate. }
    rewrite Hall. cbn [andb]. rewrite (rstrip_slash_dir dir He).
    unfold os_path_join. rewrite Hc, He.
    apply String.eqb_neq in Hd. now rewrite Hd.
Qed.

Lemma base_is_resolved_witness :
  os_path_join (os_path_dirname "/etc/passwd") "/cfgs/a.yaml" = "/cfgs/a.yaml" /\
  os_path_join (os_path_dirname "b.yaml") "a.yaml" = "a.yaml" /\
  os_path_join (os_path_dirname "configs/vit/b.yaml") "a.yaml"
  = "configs/vit/a.yaml".
Proof.
  split; [| split].
  - apply (proj1 (base_is_resolved_beside_the_file "/etc/passwd" "" ""
                    "/cfgs/a.yaml" "/"%char "cfgs/a.yaml" eq_refl)).
    reflexivity.
  - apply (proj1 (proj2 (base_is_resolved_beside_the_file "" "" "b.yaml"
                           "a.yaml" "a"%char ".yaml" eq_refl)));
      reflexivity.
  - apply (proj2 (proj2 (base_is_resolved_beside_the_file "" "configs/vit"
                           "b.yaml" "a.yaml" "a"%char ".yaml" eq_refl)));
      try reflexivity.
    discriminate.
Defined.

(** ** The errors of a run *)

(** X13.  A run fails only through its files.  On a configuration that has
    the groups of the defaults, with options a configuration can hold, an
    exception of [update_config] is the exception [_update_config_from_file]
    raised on its cfg file: no assignment of lines 145 to 167 raises.  None
    of them was made: the configuration is left as the file left it, with
    the keys it had. *)
Theorem update_config_fails_only_through_the_file
  (literal_eval : string -> literal) (fs : string -> file)
  (fuel : nat) (config left : CfgNode) (args : Namespace) (e : exn) :
  has_groups config = true -> args_storable args = true ->
  update_config literal_eval fs fuel config args = Some (left, Raise e) ->
  same_shape left config /\
  exists path,
    arg_cfg args = Some path /\ truthy_path (Some path) = true /\
    _update_config_from_file literal_eval fs fuel path config
    = Some (left, Raise e).
Proof.
  intros Hg Hs Hrun. unfold update_config in Hrun.
  assert (Hno : forall c, has_groups c = true ->
                          Some (apply_args args c) <> Some (left, Raise e)).
  { intros c Hc. rewrite (apply_args_done args c Hc Hs). discriminate. }
  destruct (arg_cfg args) as [path |]; [| now destruct (Hno config Hg)].
  destruct (truthy_path (Some path)) eqn:Hp; [| now destruct (Hno config Hg)].
  destruct (_update_config_from_file literal_eval fs fuel path config)
    as [[m [| e']] |] eqn:Hu; try discriminate.
  - pose proof (update_shape literal_eval fs fuel path config m Done Hu) as Hsh.
    destruct (Hno m); [| exact Hrun].
    now rewrite (has_groups_same_shape m config Hsh).
  - injection Hrun as <- <-.
    split; [apply (update_shape literal_eval fs fuel path config m _ Hu) |].
    exists path. auto.
Qed.

(** [-cfg /cfgs/bad.yaml -batch_size 32] fails with the KeyError of the
    file, [-cfg /cfgs/date.yaml] with the AssertionError of its date and
    [-cfg /cfgs/bad.txt] with the Exception of a file type yacs does not
    load. *)
Lemma update_config_fails_witness :
  (same_shape bad_left _C /\
   exists path,
     arg_cfg bad_with_batch_size = Some path /\ truthy_path (Some path) = true /\
     _update_config_from_file literal_eval_atoms example_fs 1 path _C
     = Some (bad_left, Raise (KeyError "FOO"))) /\
  (same_shape (defrost _C) _C /\
   exists path,
     arg_cfg (with_cfg "/cfgs/date.yaml") = Some path /\
     truthy_path (Some path) = true /\
     _update_config_from_file literal_eval_atoms example_fs 1 path _C
     = Some (defrost _C, Raise (AssertionError "SAVE"))) /\
  (same_shape (defrost _C) _C /\
   exists path,
     arg_cfg (with_cfg "/cfgs/bad.txt") = Some path /\
     truthy_path (Some path) = true /\
     _update_config_from_file literal_eval_atoms example_fs 1 path _C
     = Some (defrost _C, Raise (Exception "/cfgs/bad.txt"))).
Proof.
  split; [| split].
  - apply (update_config_fails_only_through_the_file literal_eval_atoms
             example_fs 1 _C bad_left bad_with_batch_size (KeyError "FOO"));
      vm_compute; reflexivity.
  - apply (update_config_fails_only_through_the_file literal_eval_atoms
             example_fs 1 _C (defrost _C) (with_cfg "/cfgs/date.yaml")
             (AssertionError "SAVE"));
      vm_compute; reflexivity.
  - apply (update_config_fails_only_through_the_file literal_eval_atoms
             example_fs 1 _C (defrost _C) (with_cfg "/cfgs/bad.txt")
             (Exception "/cfgs/bad.txt"));
      vm_compute; reflexivity.
Defined.
